(** * The audio player of the TOEFL listening trainer

    A shallow embedding of [src/components/AudioPlayer.tsx]: the React
    component that decodes a base64 PCM payload and drives a Web Audio
    buffer source with a hand-written play / pause / restart transport.

    Conventions of the embedding.

    - JavaScript numbers that hold times (seconds) are exact rationals [Q];
      comparisons are [Qle_bool], equalities between times are stated with
      [==].  What depends on the rounding of IEEE doubles is stated in
      module [Binary64], which evaluates the arithmetic of the transport on
      binary64 numbers.
    - [useState] cells and [useRef] cells are fields of one record,
      [Session].  A function defined in the component body closes over the
      state cells of the render that made it.  A click runs the handler of
      the last committed render.  A frame callback ([updateProgress]) and
      the continuation of [togglePlay] after its [await] keep the values
      they closed over, however old: the queue of frame callbacks and the
      list of pending continuations store these values.
    - State setters called during one event are committed together when the
      event is over, and the effect of lines 90-96 runs then if one of its
      dependencies changed.  A frame runs every callback that was queued
      when it began.
    - The parent, [App], hands the player a new [onEnded] function whenever
      it renders ([ParentRender]); [updateProgress] depends on [onEnded], so
      the effect of lines 90-96 runs again.
    - The Web Audio objects the component touches (the context, its clock,
      the started source nodes) and the window's animation-frame queue are
      part of the record as well, so that [stop()], [start()],
      [requestAnimationFrame] and [cancelAnimationFrame] have something to
      act on.  The promises of all pending [ctx.resume()] calls settle
      together, when the context starts ([ResumeSettled]).
    - Handlers are written in a small state-and-exception monad, [M]; a
      JavaScript [throw] keeps the mutations made before it.
    - Unmounting ends a session and is not an event of the model; the
      cleanup of lines 48-55 is the handler [cleanup], run on the session
      that is thrown away.
    - [formatTime] and the readout line are modelled on exact rationals.
    - The quiz handlers of the caller, [App], are in module [Quiz]. *)

From Stdlib Require Import QArith Qround Lqa ZArith NArith Lia.
From Stdlib Require Import DecimalString DecimalZ DecimalPos.
From Stdlib Require PrimFloat Uint63.
From Stdlib Require Import List Bool.
From Stdlib.Strings Require Import String Ascii Byte.
Import ListNotations.

Local Open Scope Q_scope.

(** ** Exceptions *)

Inductive exn : Type :=
| DecodeError          (* the decode step rejected the payload *)
| EngineUnavailable    (* [new AudioContext] failed *)
| InvalidStateError    (* [stop()] on a node that is not running *)
| TypeError.           (* [connect(null)] *)

Inductive Exc (A : Type) : Type :=
| Ok (a : A)
| Throw (e : exn).
Arguments Ok {A} a.
Arguments Throw {A} e.

(** ** Web Audio objects *)

Inductive ContextState : Type := Suspended | Running.

Record AudioBuffer : Type := mkAudioBuffer {
  channelData : list Q;      (* the single channel, one sample per frame *)
  sampleRate : Z
}.

(** [buffer.length] and [buffer.duration] of the Web Audio API. *)
Definition buffer_length (b : AudioBuffer) : nat := List.length (channelData b).

Definition buffer_duration (b : AudioBuffer) : Q :=
  inject_Z (Z.of_nat (buffer_length b)) / inject_Z (sampleRate b).

(** A source node is a handle, the identifier the context gave it.  The
    context remembers which nodes have been started and not yet stopped,
    with the buffer offset they were started at. *)
Record AudioContext : Type := mkAudioContext {
  ctx_sampleRate : Z;
  ctx_state : ContextState;
  ctx_currentTime : Q;
  ctx_started : list (nat * Q);
  ctx_nextNode : nat
}.

Record GainNode : Type := mkGainNode { gain_to_destination : bool }.

(** ** The decode pipeline *)

Module Base64.

(** Modelled from the spec: [atob], the platform's base64 routine, is not
    part of the repository.  The spec says step 1 of decoding is to
    "base64-decode the payload into a raw byte sequence" and that a
    "decode exception from the platform's base64 routine" is a decode
    failure.  This is the RFC 4648 alphabet with [=] padding; [None]
    stands for the exception. *)
Definition digit (c : ascii) : option N :=
  let n := N_of_ascii c in
  if (65 <=? n)%N && (n <=? 90)%N then Some (n - 65)%N
  else if (97 <=? n)%N && (n <=? 122)%N then Some (n - 71)%N
  else if (48 <=? n)%N && (n <=? 57)%N then Some (n + 4)%N
  else if (n =? 43)%N then Some 62%N
  else if (n =? 47)%N then Some 63%N
  else None.

Definition byte_of (n : N) : byte :=
  match Byte.of_N (n mod 256) with
  | Some b => b
  | None => x00
  end.

Definition is_pad (c : ascii) : bool := Ascii.eqb c "="%char.

Definition is_nil {A : Type} (l : list A) : bool :=
  match l with [] => true | _ :: _ => false end.

Fixpoint quads (cs : list ascii) : option (list byte) :=
  match cs with
  | [] => Some []
  | a :: b :: c :: d :: rest =>
      match digit a, digit b with
      | Some x, Some y =>
          let b1 := byte_of (x * 4 + y / 16) in
          if is_pad c then
            if is_pad d && is_nil rest then Some [b1] else None
          else
            match digit c with
            | Some z =>
                let b2 := byte_of (y * 16 + z / 4) in
                if is_pad d then
                  if is_nil rest then Some [b1; b2] else None
                else
                  match digit d, quads rest with
                  | Some w, Some tl => Some (b1 :: b2 :: byte_of (z * 64 + w) :: tl)
                  | _, _ => None
                  end
            | None => None
            end
      | _, _ => None
      end
  | _ => None
  end.

Definition atob (payload : string) : option (list byte) :=
  quads (list_ascii_of_string payload).

End Base64.

Module Pcm.

(** Modelled from the spec: [decodeAudioData] of [utils/audioUtils] is
    imported by the component but its file is not among the sources.
    Spec 4.1: base64-decode; read the bytes as little-endian signed
    16-bit samples; divide each by 32768; allocate a mono buffer of
    [sampleCount] frames at the context's sample rate; fail with the
    single decode error on a malformed or empty payload or an odd byte
    count. *)
Definition int16_le (lo hi : byte) : Z :=
  let u := (Z.of_N (Byte.to_N lo) + 256 * Z.of_N (Byte.to_N hi))%Z in
  if (u <? 32768)%Z then u else (u - 65536)%Z.

Fixpoint samples16 (bs : list byte) : option (list Z) :=
  match bs with
  | [] => Some []
  | lo :: hi :: rest =>
      match samples16 rest with
      | Some tl => Some (int16_le lo hi :: tl)
      | None => None
      end
  | [_] => None
  end.

Definition normalize (v : Z) : Q := inject_Z v / 32768.

Definition decodeAudioData (payload : string) (ctx : AudioContext)
  : Exc AudioBuffer :=
  match Base64.atob payload with
  | None => Throw DecodeError
  | Some bytes =>
      match samples16 bytes with
      | None => Throw DecodeError
      | Some [] => Throw DecodeError
      | Some pcm =>
          Ok {| channelData := List.map normalize pcm;
                sampleRate := ctx_sampleRate ctx |}
      end
  end.

End Pcm.

(** ** The component instance *)

(** What [updateProgress] closes over (its dependency list, line 88, minus
    the functions): the [isPlaying] and [duration] of the render that made
    it. *)
Record Closure : Type := mkClosure {
  cl_isPlaying : bool;
  cl_duration : Q
}.

(** What [togglePlay] closes over: [isPlaying], [currentTime] and
    [duration] of the render whose button was clicked. *)
Record ToggleClosure : Type := mkToggleClosure {
  tc_isPlaying : bool;
  tc_currentTime : Q;
  tc_duration : Q
}.

(** One mounted [AudioPlayer].  The first five fields are the [useState]
    cells, the next seven the [useRef] cells (a ref to a source node is the
    node's identifier), the rest is what the component's calls act on
    outside of it: the promise [initAudio] awaits, the continuations of
    [togglePlay] that await [ctx.resume()], the window's queue of
    animation-frame callbacks (handle and closure), the number of times an
    [onEnded] prop has been called and what was written with
    [console.error]. *)
Record Session : Type := mkSession {
  isPlaying : bool;
  progress : Q;
  duration : Q;
  currentTime : Q;
  isReady : bool;
  audioContextRef : option AudioContext;
  sourceNodeRef : option nat;
  audioBufferRef : option AudioBuffer;
  startTimeRef : Q;
  pauseTimeRef : Q;
  animationFrameRef : nat;
  gainNodeRef : option GainNode;
  decodePromise : option (Exc AudioBuffer);
  resumePending : list ToggleClosure;
  rafQueue : list (nat * Closure);
  rafNext : nat;
  onEndedCalls : nat;
  console : list (string * exn)
}.

Definition set_isPlaying (v : bool) (s : Session) : Session :=
  mkSession v (progress s) (duration s) (currentTime s) (isReady s)
    (audioContextRef s) (sourceNodeRef s) (audioBufferRef s) (startTimeRef s)
    (pauseTimeRef s) (animationFrameRef s) (gainNodeRef s) (decodePromise s)
    (resumePending s) (rafQueue s) (rafNext s) (onEndedCalls s) (console s).

Definition set_progress (v : Q) (s : Session) : Session :=
  mkSession (isPlaying s) v (duration s) (currentTime s) (isReady s)
    (audioContextRef s) (sourceNodeRef s) (audioBufferRef s) (startTimeRef s)
    (pauseTimeRef s) (animationFrameRef s) (gainNodeRef s) (decodePromise s)
    (resumePending s) (rafQueue s) (rafNext s) (onEndedCalls s) (console s).

Definition set_duration (v : Q) (s : Session) : Session :=
  mkSession (isPlaying s) (progress s) v (currentTime s) (isReady s)
    (audioContextRef s) (sourceNodeRef s) (audioBufferRef s) (startTimeRef s)
    (pauseTimeRef s) (animationFrameRef s) (gainNodeRef s) (decodePromise s)
    (resumePending s) (rafQueue s) (rafNext s) (onEndedCalls s) (console s).

Definition set_currentTime (v : Q) (s : Session) : Session :=
  mkSession (isPlaying s) (progress s) (duration s) v (isReady s)
    (audioContextRef s) (sourceNodeRef s) (audioBufferRef s) (startTimeRef s)
    (pauseTimeRef s) (animationFrameRef s) (gainNodeRef s) (decodePromise s)
    (resumePending s) (rafQueue s) (rafNext s) (onEndedCalls s) (console s).

Definition set_isReady (v : bool) (s : Session) : Session :=
  mkSession (isPlaying s) (progress s) (duration s) (currentTime s) v
    (audioContextRef s) (sourceNodeRef s) (audioBufferRef s) (startTimeRef s)
    (pauseTimeRef s) (animationFrameRef s) (gainNodeRef s) (decodePromise s)
    (resumePending s) (rafQueue s) (rafNext s) (onEndedCalls s) (console s).

Definition set_audioContextRef (v : option AudioContext) (s : Session) : Session :=
  mkSession (isPlaying s) (progress s) (duration s) (currentTime s)
    (isReady s) v (sourceNodeRef s) (audioBufferRef s) (startTimeRef s)
    (pauseTimeRef s) (animationFrameRef s) (gainNodeRef s) (decodePromise s)
    (resumePending s) (rafQueue s) (rafNext s) (onEndedCalls s) (console s).

Definition set_sourceNodeRef (v : option nat) (s : Session) : Session :=
  mkSession (isPlaying s) (progress s) (duration s) (currentTime s)
    (isReady s) (audioContextRef s) v (audioBufferRef s) (startTimeRef s)
    (pauseTimeRef s) (animationFrameRef s) (gainNodeRef s) (decodePromise s)
    (resumePending s) (rafQueue s) (rafNext s) (onEndedCalls s) (console s).

Definition set_audioBufferRef (v : option AudioBuffer) (s : Session) : Session :=
  mkSession (isPlaying s) (progress s) (duration s) (currentTime s)
    (isReady s) (audioContextRef s) (sourceNodeRef s) v (startTimeRef s)
    (pauseTimeRef s) (animationFrameRef s) (gainNodeRef s) (decodePromise s)
    (resumePending s) (rafQueue s) (rafNext s) (onEndedCalls s) (console s).

Definition set_startTimeRef (v : Q) (s : Session) : Session :=
  mkSession (isPlaying s) (progress s) (duration s) (currentTime s)
    (isReady s) (audioContextRef s) (sourceNodeRef s) (audioBufferRef s) v
    (pauseTimeRef s) (animationFrameRef s) (gainNodeRef s) (decodePromise s)
    (resumePending s) (rafQueue s) (rafNext s) (onEndedCalls s) (console s).

Definition set_pauseTimeRef (v : Q) (s : Session) : Session :=
  mkSession (isPlaying s) (progress s) (duration s) (currentTime s)
    (isReady s) (audioContextRef s) (sourceNodeRef s) (audioBufferRef s)
    (startTimeRef s) v (animationFrameRef s) (gainNodeRef s)
    (decodePromise s) (resumePending s) (rafQueue s) (rafNext s)
    (onEndedCalls s) (console s).

Definition set_animationFrameRef (v : nat) (s : Session) : Session :=
  mkSession (isPlaying s) (progress s) (duration s) (currentTime s)
    (isReady s) (audioContextRef s) (sourceNodeRef s) (audioBufferRef s)
    (startTimeRef s) (pauseTimeRef s) v (gainNodeRef s) (decodePromise s)
    (resumePending s) (rafQueue s) (rafNext s) (onEndedCalls s) (console s).

Definition set_gainNodeRef (v : option GainNode) (s : Session) : Session :=
  mkSession (isPlaying s) (progress s) (duration s) (currentTime s)
    (isReady s) (audioContextRef s) (sourceNodeRef s) (audioBufferRef s)
    (startTimeRef s) (pauseTimeRef s) (animationFrameRef s) v
    (decodePromise s) (resumePending s) (rafQueue s) (rafNext s)
    (onEndedCalls s) (console s).

Definition set_decodePromise (v : option (Exc AudioBuffer)) (s : Session) : Session :=
  mkSession (isPlaying s) (progress s) (duration s) (currentTime s)
    (isReady s) (audioContextRef s) (sourceNodeRef s) (audioBufferRef s)
    (startTimeRef s) (pauseTimeRef s) (animationFrameRef s) (gainNodeRef s) v
    (resumePending s) (rafQueue s) (rafNext s) (onEndedCalls s) (console s).

Definition set_resumePending (v : list ToggleClosure) (s : Session) : Session :=
  mkSession (isPlaying s) (progress s) (duration s) (currentTime s)
    (isReady s) (audioContextRef s) (sourceNodeRef s) (audioBufferRef s)
    (startTimeRef s) (pauseTimeRef s) (animationFrameRef s) (gainNodeRef s)
    (decodePromise s) v (rafQueue s) (rafNext s) (onEndedCalls s) (console s).

Definition set_rafQueue (v : list (nat * Closure)) (s : Session) : Session :=
  mkSession (isPlaying s) (progress s) (duration s) (currentTime s)
    (isReady s) (audioContextRef s) (sourceNodeRef s) (audioBufferRef s)
    (startTimeRef s) (pauseTimeRef s) (animationFrameRef s) (gainNodeRef s)
    (decodePromise s) (resumePending s) v (rafNext s) (onEndedCalls s)
    (console s).

Definition set_rafNext (v : nat) (s : Session) : Session :=
  mkSession (isPlaying s) (progress s) (duration s) (currentTime s)
    (isReady s) (audioContextRef s) (sourceNodeRef s) (audioBufferRef s)
    (startTimeRef s) (pauseTimeRef s) (animationFrameRef s) (gainNodeRef s)
    (decodePromise s) (resumePending s) (rafQueue s) v (onEndedCalls s)
    (console s).

Definition set_onEndedCalls (v : nat) (s : Session) : Session :=
  mkSession (isPlaying s) (progress s) (duration s) (currentTime s)
    (isReady s) (audioContextRef s) (sourceNodeRef s) (audioBufferRef s)
    (startTimeRef s) (pauseTimeRef s) (animationFrameRef s) (gainNodeRef s)
    (decodePromise s) (resumePending s) (rafQueue s) (rafNext s) v
    (console s).

Definition set_console (v : list (string * exn)) (s : Session) : Session :=
  mkSession (isPlaying s) (progress s) (duration s) (currentTime s)
    (isReady s) (audioContextRef s) (sourceNodeRef s) (audioBufferRef s)
    (startTimeRef s) (pauseTimeRef s) (animationFrameRef s) (gainNodeRef s)
    (decodePromise s) (resumePending s) (rafQueue s) (rafNext s)
    (onEndedCalls s) v.

(** ** The monad of handlers *)

Definition M (A : Type) : Type := Session -> Exc A * Session.

Definition ret {A : Type} (a : A) : M A := fun s => (Ok a, s).

Definition bind {A B : Type} (m : M A) (k : A -> M B) : M B :=
  fun s =>
    match m s with
    | (Ok a, s') => k a s'
    | (Throw e, s') => (Throw e, s')
    end.

Definition throw {A : Type} (e : exn) : M A := fun s => (Throw e, s).

Definition try_catch {A : Type} (m : M A) (h : exn -> M A) : M A :=
  fun s =>
    match m s with
    | (Ok a, s') => (Ok a, s')
    | (Throw e, s') => h e s'
    end.

Definition gets {A : Type} (f : Session -> A) : M A := fun s => (Ok (f s), s).

Definition modify (f : Session -> Session) : M unit := fun s => (Ok tt, f s).

Definition lift {A : Type} (r : Exc A) : M A := fun s => (r, s).

Declare Scope js_scope.
Delimit Scope js_scope with js.
Notation "x <- m ;; k" := (bind m (fun x => k))
  (at level 61, m at next level, right associativity) : js_scope.
Notation "m ;; k" := (bind m (fun _ => k))
  (at level 61, right associativity) : js_scope.
Local Open Scope js_scope.

(** The session a computation leaves behind, returned or thrown. *)
Definition exec {A : Type} (m : M A) (s : Session) : Session := snd (m s).

Definition returns {A : Type} (m : M A) (s : Session) : bool :=
  match fst (m s) with Ok _ => true | Throw _ => false end.

(** *** State setters *)

Definition setIsPlaying (b : bool) : M unit := modify (set_isPlaying b).
Definition setProgress (p : Q) : M unit := modify (set_progress p).
Definition setDuration (d : Q) : M unit := modify (set_duration d).
Definition setCurrentTime (t : Q) : M unit := modify (set_currentTime t).
Definition setIsReady (b : bool) : M unit := modify (set_isReady b).

(** *** Platform calls *)

Definition set_ctx_state (st : ContextState) (c : AudioContext) : AudioContext :=
  mkAudioContext (ctx_sampleRate c) st (ctx_currentTime c) (ctx_started c)
    (ctx_nextNode c).

Definition set_ctx_currentTime (t : Q) (c : AudioContext) : AudioContext :=
  mkAudioContext (ctx_sampleRate c) (ctx_state c) t (ctx_started c)
    (ctx_nextNode c).

Definition set_ctx_started (l : list (nat * Q)) (c : AudioContext) : AudioContext :=
  mkAudioContext (ctx_sampleRate c) (ctx_state c) (ctx_currentTime c) l
    (ctx_nextNode c).

Definition set_ctx_nextNode (n : nat) (c : AudioContext) : AudioContext :=
  mkAudioContext (ctx_sampleRate c) (ctx_state c) (ctx_currentTime c)
    (ctx_started c) n.

(** Mutation of the context object the ref points to. *)
Definition update_ctx (f : AudioContext -> AudioContext) : M unit :=
  modify (fun s => set_audioContextRef (option_map f (audioContextRef s)) s).

(** [new AudioContext({ sampleRate })].  [engine] is the host: [None] when
    no context can be made, otherwise the state a new context starts in
    (suspended under an autoplay policy, running without one). *)
Definition newAudioContext (engine : option ContextState) (rate : Z)
  : M AudioContext :=
  match engine with
  | Some st => ret (mkAudioContext rate st 0 [] 0)
  | None => throw EngineUnavailable
  end.

(** [ctx.createGain()] followed by [.connect(ctx.destination)]. *)
Definition createGain_connected : M GainNode := ret (mkGainNode true).

(** The context starts: what the promise of [ctx.resume()] waits for. *)
Definition ctx_resume : M unit := update_ctx (set_ctx_state Running).

(** [ctx.currentTime], read from the context object when the line runs. *)
Definition ctx_now : M Q :=
  octx <- gets audioContextRef ;;
  match octx with
  | Some c => ret (ctx_currentTime c)
  | None => throw TypeError
  end.

Definition createBufferSource : M nat :=
  fun s =>
    match audioContextRef s with
    | Some c =>
        (Ok (ctx_nextNode c),
         set_audioContextRef (Some (set_ctx_nextNode (S (ctx_nextNode c)) c)) s)
    | None => (Throw TypeError, s)
    end.

Definition source_connect (src : nat) (dest : option GainNode) : M unit :=
  match dest with
  | Some _ => ret tt
  | None => throw TypeError
  end.

(** [source.start(0, offset)]. *)
Definition source_start (src : nat) (offset : Q) : M unit :=
  update_ctx (fun c => set_ctx_started ((src, offset) :: ctx_started c) c).

Definition is_started (src : nat) (c : AudioContext) : bool :=
  existsb (fun e => Nat.eqb (fst e) src) (ctx_started c).

Definition drop_source (src : nat) (c : AudioContext) : AudioContext :=
  set_ctx_started
    (filter (fun e => negb (Nat.eqb (fst e) src)) (ctx_started c)) c.

(** [source.stop()].  The strictest reading of the platform: stopping a
    node that is not running (never started, stopped before, or played
    out) throws. *)
Definition source_stop (src : nat) : M unit :=
  fun s =>
    match audioContextRef s with
    | Some c =>
        if is_started src c
        then (Ok tt, set_audioContextRef (Some (drop_source src c)) s)
        else (Throw InvalidStateError, s)
    | None => (Throw InvalidStateError, s)
    end.

Definition source_disconnect (src : nat) : M unit := ret tt.

(** [requestAnimationFrame(updateProgress)]: the callback is queued with
    the values it closed over. *)
Definition requestAnimationFrame (cb : Closure) : M nat :=
  fun s =>
    (Ok (rafNext s),
     set_rafNext (S (rafNext s))
       (set_rafQueue (rafQueue s ++ [(rafNext s, cb)]) s)).

Definition cancelAnimationFrame (id : nat) : M unit :=
  modify (fun s =>
    set_rafQueue (filter (fun e => negb (Nat.eqb (fst e) id)) (rafQueue s)) s).

Definition console_error (msg : string) (err : exn) : M unit :=
  modify (fun s => set_console (console s ++ [(msg, err)]) s).

(** The [onEnded] prop: the model only counts its invocations, whichever
    of the parent's functions is called. *)
Definition onEnded : M unit :=
  modify (fun s => set_onEndedCalls (S (onEndedCalls s)) s).

(** ** The handlers of [AudioPlayer.tsx] *)

(** [stopAudio] (lines 58-68). *)
Definition stopAudio : M unit :=
  node <- gets sourceNodeRef ;;
  match node with
  | Some src =>
      try_catch
        (source_stop src ;; source_disconnect src)
        (fun _ => ret tt) ;;            (* ignore if already stopped *)
      modify (set_sourceNodeRef None)
  | None => ret tt
  end.

(** The values a function made by the current render closes over. *)
Definition closure_of (s : Session) : Closure :=
  mkClosure (isPlaying s) (duration s).

Definition toggle_closure_of (s : Session) : ToggleClosure :=
  mkToggleClosure (isPlaying s) (currentTime s) (duration s).

(** [updateProgress] (lines 70-88), the animation-frame callback.  [cb]
    holds the [isPlaying] and [duration] it closed over; the refs are read
    when it runs. *)
Definition updateProgress (cb : Closure) : M unit :=
  octx <- gets audioContextRef ;;
  match octx with
  | None => ret tt
  | Some ctx =>
      if negb (cl_isPlaying cb) then ret tt
      else
        started <- gets startTimeRef ;;
        paused <- gets pauseTimeRef ;;
        let elapsed := ctx_currentTime ctx - started + paused in
        if Qle_bool (cl_duration cb) elapsed then
          setIsPlaying false ;;
          setProgress 100 ;;
          setCurrentTime (cl_duration cb) ;;
          modify (set_pauseTimeRef 0) ;;        (* reset for replay *)
          stopAudio ;;
          onEnded
        else
          setCurrentTime elapsed ;;
          setProgress ((elapsed / cl_duration cb) * 100) ;;
          id <- requestAnimationFrame cb ;;
          modify (set_animationFrameRef id)
  end.

(** [togglePlay] from line 106 on: what runs after the guard and, on a
    suspended context, after the awaited [ctx.resume()] has settled.  [cb]
    holds the [isPlaying], [currentTime] and [duration] of the render whose
    button was clicked. *)
Definition togglePlay_rest (cb : ToggleClosure) : M unit :=
  if tc_isPlaying cb then
    (* Pause *)
    stopAudio ;;
    now <- ctx_now ;;
    started <- gets startTimeRef ;;
    modify (fun s => set_pauseTimeRef (pauseTimeRef s + (now - started)) s) ;;
    setIsPlaying false
  else
    (* Play; the new source is bound to the buffer of [audioBufferRef] *)
    source <- createBufferSource ;;
    gain <- gets gainNodeRef ;;
    source_connect source gain ;;
    (* If we reached the end, restart *)
    (if Qle_bool (tc_duration cb) (tc_currentTime cb) then
       modify (set_pauseTimeRef 0) ;;
       setCurrentTime 0 ;;
       setProgress 0
     else ret tt) ;;
    now <- ctx_now ;;
    modify (set_startTimeRef now) ;;
    offset <- gets pauseTimeRef ;;
    source_start source offset ;;
    modify (set_sourceNodeRef (Some source)) ;;
    setIsPlaying true.

(** [await ctx.resume()] (line 103): the rest of the handler is parked
    until the promise settles. *)
Definition await_resume (cb : ToggleClosure) : M unit :=
  modify (fun s => set_resumePending (resumePending s ++ [cb]) s).

(** [togglePlay] (lines 98-129), the click handler of the round button. *)
Definition togglePlay : M unit :=
  cb <- gets toggle_closure_of ;;
  octx <- gets audioContextRef ;;
  obuf <- gets audioBufferRef ;;
  match octx, obuf with
  | Some ctx, Some _ =>
      match ctx_state ctx with
      | Suspended => await_resume cb
      | Running => togglePlay_rest cb
      end
  | _, _ => ret tt
  end.

(** The promises of the pending [ctx.resume()] calls settle: the context
    runs and the parked continuations run in the order of their clicks,
    each with the values it closed over.  A continuation that throws
    rejects its own promise only. *)
Definition resumeSettled : M unit :=
  fun s =>
    match resumePending s with
    | [] => (Ok tt, s)
    | pending =>
        (Ok tt,
         fold_left (fun s' cb => exec (togglePlay_rest cb) s') pending
           (exec ctx_resume (set_resumePending [] s)))
    end.

(** [handleRestart] (lines 131-137). *)
Definition handleRestart : M unit :=
  stopAudio ;;
  setIsPlaying false ;;
  modify (set_pauseTimeRef 0) ;;
  setCurrentTime 0 ;;
  setProgress 0.

(** [initAudio] (lines 28-44) up to its [await]: the promise of
    [decodeAudioData(base64Audio, ctx)] is parked in [decodePromise].  An
    absent or empty payload is falsy. *)
Definition initAudio_begin (engine : option ContextState)
    (base64Audio : option string) : M unit :=
  match base64Audio with
  | None => ret tt
  | Some EmptyString => ret tt
  | Some payload =>
      try_catch
        (ctx <- newAudioContext engine 24000 ;;
         modify (set_audioContextRef (Some ctx)) ;;
         gain <- createGain_connected ;;
         modify (set_gainNodeRef (Some gain)) ;;
         modify (set_decodePromise (Some (Pcm.decodeAudioData payload ctx))))
        (fun err => console_error "Audio decoding failed" err)
  end.

(** [initAudio] from the [await] on, run when the promise settles. *)
Definition initAudio_resume : M unit :=
  promise <- gets decodePromise ;;
  match promise with
  | None => ret tt
  | Some outcome =>
      modify (set_decodePromise None) ;;
      try_catch
        (buffer <- lift outcome ;;
         modify (set_audioBufferRef (Some buffer)) ;;
         setDuration (buffer_duration buffer) ;;
         setIsReady true)
        (fun err => console_error "Audio decoding failed" err)
  end.

(** The effect of lines 90-96, which arms or cancels the poll loop.  The
    callback it queues is the [updateProgress] of the render it runs
    after.  It has no cleanup: a callback queued earlier stays queued
    unless [animationFrameRef] still names it. *)
Definition pollEffect : M unit :=
  playing <- gets isPlaying ;;
  if playing then
    cb <- gets closure_of ;;
    id <- requestAnimationFrame cb ;;
    modify (set_animationFrameRef id)
  else
    id <- gets animationFrameRef ;;
    cancelAnimationFrame id.

(** What the component returns (lines 145-194): the loading placeholder
    until [isReady], then the transport with the progress bar's width in
    percent and the icon of the round button. *)
Inductive View : Type :=
| LoadingAudio
| Transport (width : Q) (pauseIcon : bool).

Definition render (s : Session) : View :=
  if negb (isReady s) then LoadingAudio
  else Transport (progress s) (isPlaying s).

(** ** The component over time *)

Definition initial : Session :=
  mkSession false 0 0 0 false None None None 0 0 0%nat None None [] [] 1%nat
    0%nat [].

(** Mounting renders once and runs both effects. *)
Definition mount (engine : option ContextState) (base64Audio : option string)
  : Session :=
  exec pollEffect (exec (initAudio_begin engine base64Audio) initial).

(** After an event of the player React renders it again and re-runs the
    poll effect when one of its dependencies changed: [isPlaying], or
    [updateProgress], which is rebuilt when [isPlaying] or [duration]
    changed.  The other two dependencies of [updateProgress] do not change
    here: [stopAudio] never does, and [onEnded] changes when the parent
    renders, which is [parentRender] below. *)
Definition commit (before after : Session) : Session :=
  if Bool.eqb (isPlaying before) (isPlaying after)
     && Qeq_bool (duration before) (duration after)
  then after
  else exec pollEffect after.

Definition handle (m : M unit) (s : Session) : Session :=
  commit s (exec m s).

(** The parent renders again (in [App], on every keystroke in the notes
    box and on every other state change) and hands the player a new
    [onEnded] function: [updateProgress] is rebuilt, so the poll effect
    runs again although no state of the player changed. *)
Definition parentRender : M unit := pollEffect.

Inductive event : Type :=
| ClockAdvance (dt : Q)      (* the audio clock moves on by [dt] seconds *)
| DecodeSettled              (* the awaited decode promise settles *)
| ClickToggle                (* the round play / pause button *)
| ClickRestart               (* the restart button *)
| AnimationFrame             (* the window runs its frame callbacks *)
| SourceEnded (src : nat)    (* a started source played out *)
| ResumeSettled              (* the awaited [ctx.resume()] settles *)
| ParentRender.              (* the parent renders, with a new [onEnded] *)

Definition advance_clock (dt : Q) : M unit :=
  update_ctx (fun c => set_ctx_currentTime (ctx_currentTime c + dt) c).

(** A frame takes the callbacks queued so far and runs them in order, each
    with its own closure; what they queue is for the next frame. *)
Definition runFrame : M unit :=
  fun s =>
    (Ok tt,
     fold_left (fun s' e => exec (updateProgress (snd e)) s') (rafQueue s)
       (set_rafQueue [] s)).

Definition step (e : event) (s : Session) : Session :=
  match e with
  | ClockAdvance dt => exec (advance_clock dt) s
  | DecodeSettled => handle initAudio_resume s
  | ClickToggle => handle togglePlay s
  | ClickRestart => handle handleRestart s
  | AnimationFrame => handle runFrame s
  | SourceEnded src => exec (update_ctx (drop_source src)) s
  | ResumeSettled => handle resumeSettled s
  | ParentRender => exec parentRender s
  end.

Definition run (es : list event) (s : Session) : Session :=
  fold_left (fun s' e => step e s') es s.

(** The audio clock never runs backwards. *)
Definition event_ok (e : event) : Prop :=
  match e with
  | ClockAdvance dt => 0 <= dt
  | _ => True
  end.

Inductive reachable : Session -> Prop :=
| reach_mount (engine : option ContextState) (base64Audio : option string) :
    reachable (mount engine base64Audio)
| reach_step (e : event) (s : Session) :
    reachable s -> event_ok e -> reachable (step e s).

(** ** Notions used in the statements *)

(** What [stopAudio] leaves behind: the referenced node is dropped from the
    context's started nodes and the ref is cleared. *)
Definition stopped (s : Session) : Session :=
  match sourceNodeRef s with
  | Some src =>
      set_sourceNodeRef None
        (set_audioContextRef (option_map (drop_source src) (audioContextRef s)) s)
  | None => s
  end.

(** [ctx.currentTime], read through the ref. *)
Definition clockOf (s : Session) : Q :=
  match audioContextRef s with
  | Some c => ctx_currentTime c
  | None => 0
  end.

(** The [elapsed] of [updateProgress] (line 74):
    [ctx.currentTime - startTimeRef.current + pauseTimeRef.current], as an
    exact number.  [Binary64.updateProgress] has the same line on
    doubles. *)
Definition elapsed (s : Session) : Q :=
  clockOf s - startTimeRef s + pauseTimeRef s.

(** The session after the branch [elapsed >= duration] of a callback. *)
Definition ended (cb : Closure) (s : Session) : Session :=
  let s' :=
    stopped
      (set_pauseTimeRef 0
         (set_currentTime (cl_duration cb)
            (set_progress 100 (set_isPlaying false s)))) in
  set_onEndedCalls (S (onEndedCalls s')) s'.

(** The session after the other branch of a callback. *)
Definition polled (cb : Closure) (s : Session) : Session :=
  set_animationFrameRef (rafNext s)
    (set_rafNext (S (rafNext s))
       (set_rafQueue (rafQueue s ++ [(rafNext s, cb)])
          (set_progress (elapsed s / cl_duration cb * 100)
             (set_currentTime (elapsed s) s)))).

(** The source nodes that are sounding. *)
Definition startedOf (s : Session) : list (nat * Q) :=
  match audioContextRef s with
  | Some c => ctx_started c
  | None => []
  end.

(** The closure of an [updateProgress] made by a render that was playing. *)
Definition live (s : Session) : Closure := mkClosure true (duration s).

(** Is the context there and still suspended? *)
Definition suspended (s : Session) : bool :=
  match audioContextRef s with
  | Some c =>
      match ctx_state c with
      | Suspended => true
      | Running => false
      end
  | None => false
  end.

(** The part of the invariant that holds at every moment, also between
    two callbacks of one frame. *)
Record wfm (s : Session) : Prop := mk_wfm {
  wf_time : 0 <= currentTime s /\ currentTime s <= duration s;
  wf_progress : progress s == currentTime s / duration s * 100;
  wf_ready :
    isReady s = match audioBufferRef s with Some _ => true | None => false end;
  wf_playing : isPlaying s = true -> isReady s = true /\ currentTime s < duration s;
  wf_duration : isReady s = true -> 0 < duration s;
  wf_idle :
    isReady s = false ->
    isPlaying s = false /\ progress s = 0 /\ duration s = 0 /\
    currentTime s = 0 /\ pauseTimeRef s = 0 /\ sourceNodeRef s = None /\
    onEndedCalls s = 0%nat /\ rafQueue s = [] /\ resumePending s = [];
  wf_ctx : isReady s = true -> audioContextRef s <> None;
  wf_gain : audioContextRef s <> None -> gainNodeRef s <> None;
  wf_clock : startTimeRef s <= clockOf s;
  wf_offset : 0 <= pauseTimeRef s;
  wf_node : isPlaying s = false -> sourceNodeRef s = None;
  wf_raf : forall e, In e (rafQueue s) -> snd e = live s;
  wf_suspended :
    suspended s = true ->
    isPlaying s = false /\ progress s = 0 /\ currentTime s = 0 /\
    pauseTimeRef s = 0 /\ sourceNodeRef s = None /\ rafQueue s = [] /\
    startedOf s = [] /\ onEndedCalls s = 0%nat;
  wf_pending : resumePending s <> [] -> suspended s = true /\ isReady s = true;
  wf_pending_closure :
    forall cb, In cb (resumePending s) ->
    cb = mkToggleClosure false 0 (duration s);
  wf_promise_idle :
    decodePromise s <> None -> isReady s = false /\ audioContextRef s <> None;
  wf_promise_ok :
    forall b, decodePromise s = Some (Ok b) -> 0 < buffer_duration b;
  wf_buffer :
    forall b, audioBufferRef s = Some b -> duration s = buffer_duration b
}.

(** The part that holds between events: a playing session polls, and a
    session at its end does not. *)
Record wf (s : Session) : Prop := mk_wf {
  wf_mid : wfm s;
  wf_polling :
    isPlaying s = true -> In (animationFrameRef s, live s) (rafQueue s);
  wf_end : duration s <= currentTime s -> isReady s = true -> rafQueue s = []
}.

(** Is the node among the started nodes of the context? *)
Definition node_running (src : nat) (s : Session) : bool :=
  match audioContextRef s with
  | Some c => is_started src c
  | None => false
  end.

(** Two samples, [0] and [32767], as base64. *)
Definition demo_payload : string := "AAD/fw==".

(** The session of [demo_payload] once its decode has settled. *)
Definition demo_ready : Session :=
  step DecodeSettled (mount (Some Suspended) (Some demo_payload)).

(** Events other than clicks; the clock only moves forward. *)
Definition quiet (e : event) : Prop :=
  match e with
  | ClockAdvance dt => 0 <= dt
  | ClickToggle | ClickRestart => False
  | _ => True
  end.



Fixpoint repeat_string (n : nat) (s : string) : string :=
  match n with
  | O => EmptyString
  | S k => append s (repeat_string k s)
  end.

(** Four seconds of silence: 96000 samples of value 0. *)
Definition four_seconds : string := repeat_string (40 * 40 * 40) "AAAA".

(** [demo_ready] after a click on play, the start of the context and half
    a sample of playback. *)
Definition demo_playing : Session :=
  run [ClickToggle; ResumeSettled; ClockAdvance (1 # 48000)] demo_ready.

(** The [currentTime] reported after each event of a run. *)
Fixpoint trajectory (es : list event) (s : Session) : list Q :=
  match es with
  | [] => []
  | e :: es' => currentTime (step e s) :: trajectory es' (step e s)
  end.

(** A session nobody has interacted with: mounted, decoded, and left alone
    while the audio clock advanced by [waits]. *)
Definition fresh_session (engine : option ContextState)
    (payload : option string) (waits : list Q) : Session :=
  run (List.map ClockAdvance waits)
    (step DecodeSettled (mount engine payload)).

(** The transport cells of a session nobody has interacted with. *)
Definition untouched (s : Session) : Prop :=
  isPlaying s = false /\ currentTime s = 0 /\ progress s = 0 /\
  pauseTimeRef s = 0 /\ onEndedCalls s = 0%nat.

(** What [initAudio] does once the awaited promise has settled. *)
Definition settled (s : Session) : Session :=
  match decodePromise s with
  | None => s
  | Some (Ok b) =>
      set_isReady true
        (set_duration (buffer_duration b)
           (set_audioBufferRef (Some b) (set_decodePromise None s)))
  | Some (Throw err) =>
      set_console (console s ++ [("Audio decoding failed"%string, err)])
        (set_decodePromise None s)
  end.


(** A session whose decode failed: nothing was ever set. *)
Definition dead (log : list (string * exn)) (s : Session) : Prop :=
  isReady s = false /\ audioBufferRef s = None /\ decodePromise s = None /\
  isPlaying s = false /\ currentTime s = 0 /\ progress s = 0 /\
  pauseTimeRef s = 0 /\ sourceNodeRef s = None /\ onEndedCalls s = 0%nat /\
  rafQueue s = [] /\ resumePending s = [] /\
  console s = log.

(** ** Notions used in the proofs *)

(** What holds of the queue while a frame runs: a callback that was put
    back saw [elapsed < duration], and nothing was put back once a callback
    has ended the playback. *)
Definition frame_inv (s : Session) : Prop :=
  (rafQueue s <> [] -> elapsed s < duration s) /\
  (duration s <= currentTime s -> rafQueue s = []) /\
  (isPlaying s = true -> rafQueue s <> [] ->
   In (animationFrameRef s, live s) (rafQueue s)).

(** The poll effect with a playing render, and with one that is not. *)
Definition armed (s : Session) : Session :=
  set_animationFrameRef (rafNext s)
    (set_rafNext (S (rafNext s))
       (set_rafQueue (rafQueue s ++ [(rafNext s, closure_of s)]) s)).

Definition disarmed (s : Session) : Session :=
  set_rafQueue
    (filter (fun e => negb (Nat.eqb (fst e) (animationFrameRef s)))
       (rafQueue s)) s.

(** A continuation of [togglePlay] parked before the first play. *)
Definition first_play (s : Session) : ToggleClosure :=
  mkToggleClosure false 0 (duration s).

(** The cells a poll that does not end the playback leaves alone. *)
Definition core (s : Session) :=
  (isPlaying s, duration s, isReady s, audioContextRef s, sourceNodeRef s,
   audioBufferRef s, startTimeRef s, pauseTimeRef s, gainNodeRef s,
   decodePromise s, resumePending s, onEndedCalls s, console s).

(** A session that is not playing and has nothing pending or queued. *)
Definition at_rest (s : Session) : Prop :=
  isPlaying s = false /\ rafQueue s = [] /\ resumePending s = [] /\
  sourceNodeRef s = None.

(** ** Notions used in the claims *)



(** The session of [four_seconds] once its decode has settled. *)
Definition four_ready : Session :=
  step DecodeSettled (mount (Some Suspended) (Some four_seconds)).

(** Two ready sessions on running contexts that report the same: both play
    from offset 0 and have played equally long, or both rest with nothing
    queued.  With [same], the clocks also show the same reading and the
    values agree to the letter. *)
Record twin (same : Prop) (a b : Session) : Prop := mk_twin {
  tw_wf_l : wf a;
  tw_wf_r : wf b;
  tw_ready_l : isReady a = true;
  tw_ready_r : isReady b = true;
  tw_running_l : suspended a = false;
  tw_running_r : suspended b = false;
  tw_playing : isPlaying a = isPlaying b;
  tw_duration : duration a = duration b;
  tw_current : currentTime a == currentTime b;
  tw_offset_l : isPlaying a = true -> pauseTimeRef a = 0;
  tw_offset_r : isPlaying b = true -> pauseTimeRef b = 0;
  tw_segment :
    isPlaying a = true ->
    clockOf a - startTimeRef a == clockOf b - startTimeRef b;
  tw_rest_l : isPlaying a = false -> rafQueue a = [];
  tw_rest_r : isPlaying b = false -> rafQueue b = [];
  tw_same :
    same ->
    currentTime a = currentTime b /\
    clockOf a = clockOf b /\
    (isPlaying a = true -> startTimeRef a = startTimeRef b)
}.

(** ** The arithmetic of the transport on binary64 numbers

    The time cells of the component and the lines that compute with them,
    evaluated on IEEE doubles, for one poll loop. *)
Module Binary64.

Import PrimFloat.
Local Open Scope float_scope.

(** [ctx.currentTime] once the context has rendered [quanta] blocks of 128
    frames at 24000 Hz. *)
Definition clock (quanta : Z) : float :=
  of_uint63 (Uint63.of_Z (128 * quanta)) / 24000.

Record Times : Type := mkTimes {
  isPlaying : bool;
  currentTime : float;
  progress : float;
  startTimeRef : float;
  pauseTimeRef : float
}.

(** [a >= b]. *)
Definition geb (a b : float) : bool := leb b a.

Definition initial : Times := mkTimes false 0 0 0 0.

(** [handleRestart] (lines 131-137). *)
Definition handleRestart (t : Times) : Times :=
  mkTimes false 0 0 (startTimeRef t) 0.

(** The play branch of [togglePlay] (lines 111-127) at the clock reading
    [now]. *)
Definition play (duration now : float) (t : Times) : Times :=
  let rewind := geb (currentTime t) duration in
  mkTimes true
    (if rewind then 0 else currentTime t)
    (if rewind then 0 else progress t)
    now
    (if rewind then 0 else pauseTimeRef t).

(** [updateProgress] (lines 70-88) at the clock reading [now]. *)
Definition updateProgress (duration now : float) (t : Times) : Times :=
  if negb (isPlaying t) then t
  else
    let elapsed := now - startTimeRef t + pauseTimeRef t in
    if geb elapsed duration then
      mkTimes false duration 100 (startTimeRef t) 0
    else
      mkTimes true elapsed (elapsed / duration * 100) (startTimeRef t)
        (pauseTimeRef t).

(** The [currentTime] reported by the polls made at the given readings. *)
Fixpoint trajectory (duration : float) (readings : list float) (t : Times)
  : list float :=
  match readings with
  | [] => []
  | now :: rest =>
      currentTime (updateProgress duration now t)
      :: trajectory duration rest (updateProgress duration now t)
  end.

(** Is the first value of the one list the first value of the other? *)
Definition same_head (l l' : list float) : bool :=
  match l, l' with
  | x :: _, y :: _ => eqb x y
  | [], [] => true
  | _, _ => false
  end.

(** The duration of a buffer of 4 seconds. *)
Definition seconds4 : float := 4.

(** Claim C5 on doubles: a session [played] earlier is restarted and played
    at [restarted] rendered blocks, a fresh one is played at [fresh]
    rendered blocks, and both are polled after the same [advances] (in
    blocks); the reported times are the same. *)
Definition restart_then_play_is_fresh (duration : float) (played : Times)
    (restarted fresh : Z) (advances : list Z) : Prop :=
  trajectory duration (List.map (fun q => clock (restarted + q)) advances)
    (play duration (clock restarted) (handleRestart played))
  = trajectory duration (List.map (fun q => clock (fresh + q)) advances)
      (play duration (clock fresh) initial).

End Binary64.

(** ** Notions used in the further properties *)

(** At most one source node sounds, it is the one the ref holds, and it was
    started at a non-negative offset. *)
Record audible (s : Session) : Prop := mk_audible {
  aud_one : (List.length (startedOf s) <= 1)%nat;
  aud_ref : forall e, In e (startedOf s) -> sourceNodeRef s = Some (fst e);
  aud_offset : forall e, In e (startedOf s) -> 0 <= snd e
}.

(** One poll loop: the only frame callback queued is the one
    [animationFrameRef] names, made by the current render, and it is queued
    exactly while the session plays. *)
Definition single_loop (s : Session) : Prop :=
  rafQueue s = if isPlaying s then [(animationFrameRef s, live s)] else [].

Definition is_toggle (e : event) : bool :=
  match e with
  | ClickToggle => true
  | _ => false
  end.

Definition is_render (e : event) : bool :=
  match e with
  | ParentRender => true
  | _ => false
  end.

(** The number of clicks on the round button in a run. *)
Definition toggles (es : list event) : nat :=
  List.length (filter is_toggle es).

(** The number of renders of the parent in a run. *)
Definition renders (es : list event) : nat :=
  List.length (filter is_render es).

Definition playing_now (s : Session) : nat :=
  if isPlaying s then 1%nat else 0%nat.

(** What can still call [onEnded]: the calls made, the frame callbacks
    queued and the clicks waiting for [ctx.resume()]. *)
Definition potential (s : Session) : nat :=
  (onEndedCalls s + List.length (rafQueue s)
   + List.length (resumePending s))%nat.

(** A session that never got a context. *)
Definition inert (log : list (string * exn)) (s : Session) : Prop :=
  dead log s /\ audioContextRef s = None /\ gainNodeRef s = None.

(** The payloads [initAudio] takes for "no audio yet": [null] and the empty
    string, both falsy. *)
Definition absent (base64Audio : option string) : bool :=
  match base64Audio with
  | None => true
  | Some EmptyString => true
  | Some (String _ _) => false
  end.

(** Frame handles are positive, as [requestAnimationFrame] promises: the
    guard [if (animationFrameRef.current)] of the cleanup relies on it. *)
Definition raf_ids (s : Session) : Prop :=
  (1 <= rafNext s)%nat /\ forall e, In e (rafQueue s) -> (1 <= fst e)%nat.

(** [ctx.close()]: the context is released and whatever it was playing
    falls silent.  The model keeps no closed state, the session is thrown
    away after the cleanup. *)
Definition ctx_close : M unit := update_ctx (set_ctx_started []).

(** The cleanup of the first effect (lines 48-55), run when the player
    unmounts. *)
Definition cleanup : M unit :=
  octx <- gets audioContextRef ;;
  match octx with
  | Some _ => ctx_close
  | None => ret tt
  end ;;
  frame <- gets animationFrameRef ;;
  if Nat.eqb frame 0 then ret tt else cancelAnimationFrame frame.

(** Events the window can still deliver to an unmounted player.  A click
    parked at [await ctx.resume()] does not continue: the promise of a
    closed context is not fulfilled. *)
Definition after_unmount (e : event) : Prop :=
  match e with
  | ClockAdvance _ | AnimationFrame | SourceEnded _ => True
  | _ => False
  end.

(** ** The time readout

    [formatTime] and the readout line of [render], over exact rationals. *)

(** [Math.floor] and [Math.trunc] on exact numbers. *)
Definition Math_floor (x : Q) : Z := Qfloor x.

Definition Math_trunc (x : Q) : Z :=
  if Qle_bool 0 x then Qfloor x else Qceiling x.

(** The remainder operator [%]: the result has the sign of the dividend. *)
Definition js_rem (x y : Q) : Q := x - y * inject_Z (Math_trunc (x / y)).

(** [String(n)] for an integer. *)
Definition toString (z : Z) : string := NilZero.string_of_int (Z.to_int z).

Fixpoint fill (n : nat) (c : ascii) : string :=
  match n with
  | O => EmptyString
  | S k => String c (fill k c)
  end.

(** [s.padStart(n, c)] for a one-character pad. *)
Definition padStart (n : nat) (c : ascii) (s : string) : string :=
  append (fill (n - String.length s) c) s.

(** [formatTime] (lines 139-143). *)
Definition formatTime (time : Q) : string :=
  let mins := Math_floor (time / 60) in
  let secs := Math_floor (js_rem time 60) in
  append (toString mins)
    (append ":" (padStart 2 "0" (toString secs))).


(** Two decimal digits. *)
Definition digit (d : Z) : ascii := ascii_of_nat (48 + Z.to_nat d).

Definition two_digits (n : Z) : string :=
  String (digit (n / 10)) (String (digit (n mod 10)) EmptyString).

(** [M:SS] for a number of whole seconds. *)
Definition clock_label (whole : Z) : string :=
  append (toString (whole / 60)) (append ":" (two_digits (whole mod 60))).

Definition digits_value (s : string) : Z :=
  match s with
  | String a (String b EmptyString) =>
      Z.of_nat (nat_of_ascii a - 48) * 10 + Z.of_nat (nat_of_ascii b - 48)
  | _ => 0
  end.

(** ** The quiz of the application shell

    [App] ([src/unnamed/part_000], the caller of the player) keeps the
    answers given in the quiz in an object keyed by question id.  Of
    [App]'s state only the cells its quiz handlers touch are kept.  The
    object is an association list; the order of its keys is not observed
    by the code modelled here.  The percentage is computed on exact
    rationals. *)
Module Quiz.

Inductive AppState : Type := SETUP | GENERATING | LISTENING | QUIZ | REVIEW.

Record QuestionOption : Type := mkOption {
  opt_id : string;
  opt_text : string
}.

Record Question : Type := mkQuestion {
  q_id : Z;
  q_text : string;
  q_options : list QuestionOption;
  correctOptionId : string;
  explanation : string
}.

Record TOEFLContent : Type := mkContent {
  title : string;
  script : string;
  questions : list Question;
  durationEstimate : string
}.

Definition Answers : Type := list (Z * string).

Record App : Type := mkApp {
  appState : AppState;
  content : option TOEFLContent;
  userAnswers : Answers;
  score : nat
}.

(** [userAnswers[id]]; [None] is [undefined]. *)
Fixpoint answer (id : Z) (a : Answers) : option string :=
  match a with
  | [] => None
  | (k, v) :: rest => if Z.eqb k id then Some v else answer id rest
  end.

(** [{ ...prev, [id]: v }]. *)
Definition spread_set (id : Z) (v : string) (prev : Answers) : Answers :=
  (id, v) :: filter (fun kv => negb (Z.eqb (fst kv) id)) prev.

(** [Object.keys(a).length]. *)
Definition keys_length (a : Answers) : nat := List.length a.

(** [handleOptionSelect] (lines 73-75). *)
Definition handleOptionSelect (questionId : Z) (optionId : string) (app : App)
  : App :=
  mkApp (appState app) (content app)
    (spread_set questionId optionId (userAnswers app)) (score app).

(** [userAnswers[q.id] === q.correctOptionId] (lines 81 and 336). *)
Definition isCorrect (a : Answers) (q : Question) : bool :=
  match answer (q_id q) a with
  | Some v => String.eqb v (correctOptionId q)
  | None => false
  end.

(** [calculateScore] (lines 77-85). *)
Definition calculateScore (app : App) : App :=
  match content app with
  | None => app
  | Some c =>
      let correct :=
        fold_left
          (fun correct q =>
             if isCorrect (userAnswers app) q then S correct else correct)
          (questions c) 0%nat in
      mkApp REVIEW (content app) (userAnswers app) correct
  end.

(** The [disabled] of the submit button (line 305), negated. *)
Definition submitEnabled (app : App) : bool :=
  match content app with
  | None => false
  | Some c =>
      Nat.eqb (keys_length (userAnswers app)) (List.length (questions c))
  end.

(** [Math.round]: the nearest integer, halves upwards. *)
Definition Math_round (x : Q) : Z := Qfloor (x + (1 # 2)).

(** [percentage] of [renderReview] (line 317); [None] when there is no
    question: the division by zero gives [NaN] or an infinity, not a
    number of percent. *)
Definition percentage (points total : nat) : option Z :=
  match total with
  | O => None
  | S _ =>
      Some (Math_round
              (inject_Z (Z.of_nat points) / inject_Z (Z.of_nat total) * 100))
  end.

(** The application after a series of clicks on radio buttons, each the
    question id and the option id handed to [handleOptionSelect]. *)
Definition select_all (clicks : list (Z * string)) (app : App) : App :=
  fold_left (fun a c => handleOptionSelect (fst c) (snd c) a) clicks app.

Definition keys (a : Answers) : list Z := List.map fst a.

End Quiz.

(** Sample quizzes. *)

Definition quiz_demo : Quiz.App :=
  Quiz.mkApp Quiz.QUIZ
    (Some (Quiz.mkContent "Office hours" "..."
       [Quiz.mkQuestion 1 "Why does the student visit?" [] "B" "The student says so.";
        Quiz.mkQuestion 2 "What will the student do next?" [] "A" "The professor asks for it."]
       "4:30"))
    [] 0.

Definition quiz_content (app : Quiz.App) : list Quiz.Question :=
  match Quiz.content app with
  | Some c => Quiz.questions c
  | None => []
  end.

Definition quiz_shared_id : Quiz.App :=
  Quiz.mkApp Quiz.QUIZ
    (Some (Quiz.mkContent "Office hours" "..."
       [Quiz.mkQuestion 1 "Why does the student visit?" [] "B" "The student says so.";
        Quiz.mkQuestion 1 "What will the student do next?" [] "A" "The professor asks for it."]
       "4:30"))
    [] 0.

(** ** Closed forms of the handlers and the invariant *)

Lemma Qle_bool_false (a b : Q) : Qle_bool a b = false -> b < a.
Proof.
  intros H. apply Qnot_le_lt. intros L. apply Qle_bool_iff in L. congruence.
Qed.

Lemma drop_source_absent (src : nat) (c : AudioContext) :
  is_started src c = false -> drop_source src c = c.
Proof.
  destruct c as [r st t l n]. unfold is_started, drop_source, set_ctx_started.
  cbn. intros H. f_equal.
  induction l as [|e l IH]; cbn in *; [reflexivity|].
  apply orb_false_iff in H. destruct H as [H1 H2].
  rewrite H1. cbn. f_equal. auto.
Qed.

Arguments stopAudio : simpl never.

Lemma stopAudio_eq (s : Session) : stopAudio s = (Ok tt, stopped s).
Proof.
  unfold stopAudio, stopped, bind, gets, try_catch, source_stop,
    source_disconnect, modify, ret.
  destruct (sourceNodeRef s) as [src|] eqn:Hsrc; [|reflexivity].
  destruct (audioContextRef s) as [c|] eqn:Hc; cbn.
  - destruct (is_started src c) eqn:Hst; cbn.
    + destruct s; cbn in *. reflexivity.
    + rewrite (drop_source_absent _ _ Hst). destruct s; cbn in *. subst. reflexivity.
  - destruct s; cbn in *. subst. reflexivity.
Qed.

Lemma updateProgress_eq (cb : Closure) (s : Session) :
  updateProgress cb s =
  (Ok tt,
   match audioContextRef s with
   | None => s
   | Some _ =>
       if negb (cl_isPlaying cb) then s
       else if Qle_bool (cl_duration cb) (elapsed s) then ended cb s
            else polled cb s
   end).
Proof.
  unfold updateProgress, elapsed, clockOf, bind, gets.
  destruct (audioContextRef s) as [c|] eqn:Hc; [|reflexivity].
  destruct (cl_isPlaying cb) eqn:Hp; cbn; [|reflexivity].
  destruct (Qle_bool _ _) eqn:Hle.
  - unfold setIsPlaying, setProgress, setCurrentTime, modify, onEnded, bind, ended.
    cbn. rewrite stopAudio_eq. reflexivity.
  - unfold setIsPlaying, setProgress, setCurrentTime, modify, requestAnimationFrame, bind, polled, elapsed, clockOf.
    cbn. rewrite Hc. reflexivity.
Qed.

Arguments Qplus : simpl never.
Arguments Qminus : simpl never.
Arguments Qmult : simpl never.
Arguments Qdiv : simpl never.
Arguments Qopp : simpl never.
Arguments Qle_bool : simpl never.
Arguments Qeq_bool : simpl never.
Arguments Qle : simpl never.
Arguments Qlt : simpl never.
Arguments Qeq : simpl never.
Arguments inject_Z : simpl never.

Lemma decodeAudioData_ok (payload : string) (ctx : AudioContext) (b : AudioBuffer) :
  Pcm.decodeAudioData payload ctx = Ok b ->
  sampleRate b = ctx_sampleRate ctx /\ (0 < buffer_length b)%nat.
Proof.
  unfold Pcm.decodeAudioData.
  destruct (Base64.atob payload) as [bytes|]; [|discriminate].
  destruct (Pcm.samples16 bytes) as [[|v pcm]|]; try discriminate.
  intros H. injection H as <-. unfold buffer_length. cbn. split; [reflexivity|lia].
Qed.

Lemma buffer_duration_pos (b : AudioBuffer) :
  (0 < sampleRate b)%Z -> (0 < buffer_length b)%nat -> 0 < buffer_duration b.
Proof.
  intros Hr Hl. unfold buffer_duration.
  apply Qlt_shift_div_l.
  - unfold Qlt, inject_Z; cbn. lia.
  - rewrite Qmult_0_l. unfold Qlt, inject_Z; cbn. lia.
Qed.

Lemma Qeq_bool_same (q : Q) : Qeq_bool q q = true.
Proof. apply Qeq_bool_iff. reflexivity. Qed.

Lemma In_dropped (src : nat) (l : list (nat * Q)) (e : nat * Q) :
  In e (filter (fun e => negb (Nat.eqb (fst e) src)) l) ->
  In e l /\ fst e <> src.
Proof.
  intros H. apply filter_In in H. destruct H as [H1 H2]. split; [assumption|].
  apply negb_true_iff, Nat.eqb_neq in H2. assumption.
Qed.

Lemma In_cancelled (id : nat) (l : list (nat * Closure)) (e : nat * Closure) :
  In e (filter (fun e => negb (Nat.eqb (fst e) id)) l) ->
  In e l /\ fst e <> id.
Proof.
  intros H. apply filter_In in H. destruct H as [H1 H2]. split; [assumption|].
  apply negb_true_iff, Nat.eqb_neq in H2. assumption.
Qed.

Ltac unfold_js :=
  unfold step, handle, commit, exec, runFrame, togglePlay, togglePlay_rest,
    await_resume, handleRestart, parentRender, toggle_closure_of, closure_of,
    initAudio_resume, pollEffect, advance_clock, update_ctx, ctx_resume,
    ctx_now, createBufferSource, source_connect, source_start,
    requestAnimationFrame, cancelAnimationFrame, console_error, setIsPlaying,
    setProgress, setDuration, setCurrentTime, setIsReady, lift, bind, gets,
    modify, ret, throw, try_catch.

Ltac q_hyps :=
  repeat match goal with
    | H : Qle_bool _ _ = true |- _ => apply Qle_bool_iff in H
    | H : Qle_bool _ _ = false |- _ => apply Qle_bool_false in H
    end.

Ltac in_hyps :=
  repeat match goal with
    | H : In _ (filter (fun e => negb (Nat.eqb (fst e) _)) _) |- _ =>
        first [ apply In_dropped in H | apply In_cancelled in H ];
        destruct H as [H ?]
    | H : In _ (_ ++ _) |- _ => apply in_app_or in H; destruct H as [H|H]
    | H : In _ [_] |- _ => destruct H as [H|[]]
    | H : In _ [] |- _ => destruct H
    | H : In _ (_ :: _) |- _ => destruct H as [H|H]
    end.

Ltac leaf :=
  cbn in *; subst; q_hyps; in_hyps; subst;
  try match goal with
      | W : forall e, In e ?l -> _, H : In ?x ?l |- _ => specialize (W x H)
      end;
  try match goal with
      | W : forall b, Some (Ok ?x) = Some (Ok b) -> _ |- _ =>
          specialize (W x eq_refl)
      end;
  cbn in *;
  first
    [ discriminate
    | lra
    | congruence
    | reflexivity
    | cbn; rewrite Nat.eqb_refl; reflexivity
    | unfold Qdiv; ring
    | field; lra
    | idtac ].

Lemma wfm_mount (engine : option ContextState) (payload : option string) :
  wfm (mount engine payload).
Proof.
  unfold mount, initAudio_begin.
  destruct payload as [[|a p]|]; [| destruct engine as [st|] |].
  all: constructor; cbn; intuition (try discriminate; try lra; try reflexivity).
  all: try (destruct st; cbn in *; discriminate).
  all: try (destruct st; cbn in *; reflexivity).
  injection H as H. apply decodeAudioData_ok in H. cbn in H.
  destruct H as [Hr Hl]. apply buffer_duration_pos; [rewrite Hr; lia|assumption].
Qed.

Lemma wf_mount (engine : option ContextState) (payload : option string) :
  wf (mount engine payload).
Proof.
  constructor; [apply wfm_mount| |].
  - unfold mount, initAudio_begin.
    destruct payload as [[|a p]|]; [| destruct engine as [st|] |]; cbn; discriminate.
  - unfold mount, initAudio_begin.
    destruct payload as [[|a p]|]; [| destruct engine as [st|] |]; cbn; reflexivity.
Qed.

Ltac open_session s c :=
  destruct s as [pl pr du cu rd ctx src buf st pa af ga dp pe rq rn oe co];
  unfold clockOf, startedOf, elapsed, suspended, live in *; cbn in *;
  destruct ctx as [c|]; [destruct c as [rate cst now started nn]|]; cbn in *.

Ltac in_goal :=
  first
    [ assumption
    | apply in_or_app; right; left; reflexivity
    | apply in_or_app; left; assumption
    | left; reflexivity ].

Ltac leaf2 := leaf; try in_goal.

Ltac close_wfm :=
  constructor; unfold clockOf, startedOf, suspended, live; cbn;
  intuition leaf2.

Ltac close_wf :=
  constructor;
  [ close_wfm
  | unfold clockOf, startedOf, suspended, live; cbn; intuition leaf2
  | unfold clockOf, startedOf, suspended, live; cbn; intuition leaf2 ].

Ltac open_wfm W :=
  destruct W as [wf_time wf_progress wf_ready wf_playing wf_duration wf_idle
                 wf_ctx wf_gain wf_clock wf_offset wf_node wf_raf wf_suspended
                 wf_pending wf_pending_closure wf_promise_idle wf_promise_ok
                 wf_buffer].

Ltac open_wf W :=
  let Wm := fresh "Wm" in
  let Wp := fresh "Wp" in
  let We := fresh "We" in
  destruct W as [Wm Wp We]; open_wfm Wm.

Lemma wf_togglePlay (s : Session) : wf s -> wf (step ClickToggle s).
Proof.
  intros W.
  destruct (audioContextRef s) as [c|] eqn:Hc.
  2:{ unfold_js. rewrite Hc. cbn. rewrite Bool.eqb_reflx, Qeq_bool_same. cbn. exact W. }
  destruct (audioBufferRef s) as [b|] eqn:Hb.
  2:{ unfold_js. rewrite Hc, Hb. cbn. rewrite Bool.eqb_reflx, Qeq_bool_same. cbn. exact W. }
  open_wf W.
  destruct s as [pl pr du cu rd ctx src buf st pa af ga dp pe rq rn oe co].
  unfold clockOf, startedOf, suspended, live in *.
  cbn in *. subst ctx buf. destruct c as [rate cst now started nn].
  cbn in *.
  destruct cst.
  - (* suspended: the continuation is parked *)
    unfold_js. cbn. rewrite Bool.eqb_reflx, Qeq_bool_same. cbn.
    close_wf.
  - destruct pl.
    + unfold_js. cbn. rewrite stopAudio_eq; unfold stopped; cbn.
      destruct src as [id|]; cbn; rewrite ?Qeq_bool_same; cbn.
      all: close_wf.
    + unfold_js. cbn.
      destruct ga as [g|]; cbn; [|exfalso; intuition congruence].
      destruct (Qle_bool du cu) eqn:Hend; cbn.
      all: close_wf.
Qed.

Lemma wf_handleRestart (s : Session) : wf s -> wf (step ClickRestart s).
Proof.
  intros W. open_wf W. open_session s c.
  all: unfold_js; cbn; rewrite stopAudio_eq; unfold stopped; cbn.
  all: destruct src as [id|]; cbn; rewrite ?Qeq_bool_same.
  all: destruct pl; cbn.
  all: close_wf.
Qed.

Lemma wf_decodeSettled (s : Session) : wf s -> wf (step DecodeSettled s).
Proof.
  intros W. open_wf W. open_session s c.
  all: destruct dp as [[b|err]|]; unfold_js; cbn; rewrite ?Qeq_bool_same, ?Bool.eqb_reflx; cbn.
  all: try destruct (Qeq_bool du (buffer_duration b)) eqn:Hd; cbn.
  all: try destruct pl; cbn.
  all: close_wf.
Qed.

Lemma wf_clockAdvance (dt : Q) (s : Session) :
  0 <= dt -> wf s -> wf (step (ClockAdvance dt) s).
Proof.
  intros Hdt W. open_wf W. open_session s c.
  all: unfold_js; cbn; close_wf.
Qed.

Lemma wf_sourceEnded (node : nat) (s : Session) :
  wf s -> wf (step (SourceEnded node) s).
Proof.
  intros W. open_wf W. open_session s c.
  all: unfold_js; unfold drop_source; cbn; close_wf.
Qed.

Lemma wf_parentRender (s : Session) : wf s -> wf (step ParentRender s).
Proof.
  intros W. open_wf W. open_session s c.
  all: unfold_js; cbn; destruct pl; cbn.
  all: close_wf.
Qed.

Arguments updateProgress : simpl never.

Lemma exec_updateProgress (cb : Closure) (s : Session) :
  exec (updateProgress cb) s =
  match audioContextRef s with
  | None => s
  | Some _ =>
      if negb (cl_isPlaying cb) then s
      else if Qle_bool (cl_duration cb) (elapsed s) then ended cb s
           else polled cb s
  end.
Proof. unfold exec. rewrite updateProgress_eq. reflexivity. Qed.

Lemma exec_runFrame (s : Session) :
  exec runFrame s =
  fold_left (fun s' e => exec (updateProgress (snd e)) s') (rafQueue s)
    (set_rafQueue [] s).
Proof. reflexivity. Qed.

(** One callback of a frame keeps the invariant of every moment. *)
Lemma wfm_updateProgress (s : Session) :
  wfm s -> isReady s = true -> suspended s = false ->
  wfm (exec (updateProgress (live s)) s).
Proof.
  intros W Hr Hs. rewrite exec_updateProgress.
  open_wfm W. open_session s c; [|constructor; cbn; intuition leaf2].
  destruct (Qle_bool du (now - st + pa)) eqn:Hend;
    unfold ended, polled, stopped, elapsed, clockOf; cbn.
  - destruct src as [id|]; cbn; close_wfm.
  - close_wfm.
Qed.

Lemma ready_updateProgress (cb : Closure) (s : Session) :
  isReady (exec (updateProgress cb) s) = isReady s /\
  suspended (exec (updateProgress cb) s) = suspended s.
Proof.
  rewrite exec_updateProgress.
  destruct (audioContextRef s) as [c|] eqn:Hc; [|split; reflexivity].
  destruct (negb (cl_isPlaying cb)); [split; reflexivity|].
  destruct (Qle_bool _ _); unfold ended, polled, stopped, suspended; cbn.
  - destruct (sourceNodeRef s); cbn; rewrite Hc; cbn; split; reflexivity.
  - split; reflexivity.
Qed.

Lemma duration_updateProgress (cb : Closure) (s : Session) :
  duration (exec (updateProgress cb) s) = duration s.
Proof.
  rewrite exec_updateProgress.
  destruct (audioContextRef s); [|reflexivity].
  destruct (negb (cl_isPlaying cb)); [reflexivity|].
  destruct (Qle_bool _ _); unfold ended, polled, stopped; cbn;
    [destruct (sourceNodeRef s)|]; reflexivity.
Qed.

Lemma live_updateProgress (cb : Closure) (s : Session) :
  live (exec (updateProgress cb) s) = live s.
Proof.
  unfold live at 1. rewrite duration_updateProgress. reflexivity.
Qed.

Lemma ended_fields (cb : Closure) (s : Session) :
  rafQueue (ended cb s) = rafQueue s /\
  isPlaying (ended cb s) = false /\
  currentTime (ended cb s) = cl_duration cb /\
  progress (ended cb s) = 100 /\
  pauseTimeRef (ended cb s) = 0 /\
  sourceNodeRef (ended cb s) = None /\
  onEndedCalls (ended cb s) = S (onEndedCalls s) /\
  duration (ended cb s) = duration s /\
  startTimeRef (ended cb s) = startTimeRef s /\
  clockOf (ended cb s) = clockOf s /\
  rafNext (ended cb s) = rafNext s /\
  animationFrameRef (ended cb s) = animationFrameRef s /\
  isReady (ended cb s) = isReady s /\
  audioBufferRef (ended cb s) = audioBufferRef s /\
  resumePending (ended cb s) = resumePending s /\
  console (ended cb s) = console s.
Proof.
  unfold ended, stopped, clockOf.
  destruct s as [pl pr du cu rd ctx src buf st pa af ga dp pe rq rn oe co].
  cbn. destruct src, ctx; cbn; repeat split; reflexivity.
Qed.

Lemma polled_fields (cb : Closure) (s : Session) :
  rafQueue (polled cb s) = rafQueue s ++ [(rafNext s, cb)] /\
  isPlaying (polled cb s) = isPlaying s /\
  currentTime (polled cb s) = elapsed s /\
  progress (polled cb s) = elapsed s / cl_duration cb * 100 /\
  pauseTimeRef (polled cb s) = pauseTimeRef s /\
  sourceNodeRef (polled cb s) = sourceNodeRef s /\
  onEndedCalls (polled cb s) = onEndedCalls s /\
  duration (polled cb s) = duration s /\
  startTimeRef (polled cb s) = startTimeRef s /\
  audioContextRef (polled cb s) = audioContextRef s /\
  rafNext (polled cb s) = S (rafNext s) /\
  animationFrameRef (polled cb s) = rafNext s /\
  isReady (polled cb s) = isReady s /\
  audioBufferRef (polled cb s) = audioBufferRef s /\
  resumePending (polled cb s) = resumePending s /\
  console (polled cb s) = console s /\
  elapsed (polled cb s) = elapsed s.
Proof. unfold polled. cbn. repeat split; reflexivity. Qed.

Lemma exec_live (s : Session) (c : AudioContext) :
  audioContextRef s = Some c ->
  exec (updateProgress (live s)) s =
  if Qle_bool (duration s) (elapsed s) then ended (live s) s
  else polled (live s) s.
Proof. intros Hc. rewrite exec_updateProgress, Hc. reflexivity. Qed.

Lemma frame_inv_updateProgress (s : Session) :
  frame_inv s -> frame_inv (exec (updateProgress (live s)) s).
Proof.
  intros (F1 & F2 & F3).
  destruct (audioContextRef s) as [c|] eqn:Hc.
  2:{ rewrite exec_updateProgress, Hc. repeat split; assumption. }
  rewrite (exec_live s c Hc).
  destruct (Qle_bool (duration s) (elapsed s)) eqn:Hend.
  - apply Qle_bool_iff in Hend.
    assert (Hq : rafQueue s = []).
    { destruct (rafQueue s) eqn:E; [reflexivity|].
      exfalso. assert (elapsed s < duration s) by (apply F1; discriminate). lra. }
    destruct (ended_fields (live s) s) as (E1 & E2 & _).
    unfold frame_inv. rewrite E1, E2, Hq.
    repeat split; intros; congruence.
  - apply Qle_bool_false in Hend.
    destruct (polled_fields (live s) s)
      as (P1 & P2 & P3 & _ & _ & _ & _ & P8 & _ & _ & _ & P12 & _ & _ & _ & _ & P17).
    unfold frame_inv. unfold live at 1 3. rewrite P1, P3, P8, P12, P17.
    repeat split.
    + intros _. assumption.
    + intros H. lra.
    + intros _ _. apply in_or_app. right. left. reflexivity.
Qed.

Lemma frame_fold (q : list (nat * Closure)) (s : Session) :
  wfm s -> isReady s = true -> suspended s = false -> frame_inv s ->
  (forall e, In e q -> snd e = live s) ->
  let r := fold_left (fun s' e => exec (updateProgress (snd e)) s') q s in
  wfm r /\ frame_inv r /\ duration r = duration s /\
  (isPlaying s = false -> isPlaying r = false) /\
  (q <> [] -> isPlaying r = true -> rafQueue r <> []).
Proof.
  revert s. induction q as [|e q IH]; intros s W Hr Hs F Hq; cbn.
  - split; [assumption|]. split; [assumption|]. split; [reflexivity|].
    split; [auto|]. intros H. exfalso. apply H. reflexivity.
  - assert (He : snd e = live s) by (apply Hq; left; reflexivity).
    rewrite He.
    pose proof (wfm_updateProgress s W Hr Hs) as W'.
    destruct (ready_updateProgress (live s) s) as [Hr' Hs'].
    rewrite Hr in Hr'. rewrite Hs in Hs'.
    pose proof (frame_inv_updateProgress s F) as F'.
    pose proof (duration_updateProgress (live s) s) as D'.
    assert (Hq' : forall e0, In e0 q ->
                    snd e0 = live (exec (updateProgress (live s)) s)).
    { intros e0 H0. rewrite live_updateProgress. apply Hq. right. assumption. }
    destruct (IH _ W' Hr' Hs' F' Hq') as (R1 & R2 & R3 & R4 & R5).
    split; [assumption|]. split; [assumption|]. split; [congruence|]. split.
    + intros Hp. apply R4.
      destruct (audioContextRef s) as [c|] eqn:Hc.
      * rewrite (exec_live s c Hc). destruct (Qle_bool _ _).
        -- apply ended_fields.
        -- destruct (polled_fields (live s) s) as (_ & P2 & _). congruence.
      * rewrite exec_updateProgress, Hc. assumption.
    + intros _ Hp.
      destruct q as [|e1 q1]; [|apply R5; [discriminate|assumption]].
      cbn in *. clear R5 IH.
      destruct (audioContextRef s) as [c|] eqn:Hc.
      * rewrite (exec_live s c Hc) in *.
        destruct (Qle_bool (duration s) (elapsed s)).
        -- destruct (ended_fields (live s) s) as (_ & E2 & _). congruence.
        -- destruct (polled_fields (live s) s) as (P1 & _). rewrite P1.
           intros H. apply app_eq_nil in H. destruct H; discriminate.
      * exfalso. apply (wf_ctx s W Hr). assumption.
Qed.

Lemma pollEffect_eq (s : Session) :
  exec pollEffect s = if isPlaying s then armed s else disarmed s.
Proof.
  unfold exec, pollEffect, bind, gets. destruct (isPlaying s); reflexivity.
Qed.

Lemma commit_eq (s r : Session) :
  duration r = duration s ->
  commit s r =
  if Bool.eqb (isPlaying s) (isPlaying r) then r
  else if isPlaying r then armed r else disarmed r.
Proof.
  intros Hd. unfold commit. rewrite Hd, Qeq_bool_same, andb_true_r.
  destruct (Bool.eqb _ _); [reflexivity|]. apply pollEffect_eq.
Qed.

Lemma set_rafQueue_same (s : Session) : set_rafQueue (rafQueue s) s = s.
Proof. destruct s; reflexivity. Qed.

Lemma wfm_disarmed (s : Session) : wfm s -> wfm (disarmed s).
Proof.
  intros W. open_wfm W. unfold disarmed. open_session s c.
  all: close_wfm.
Qed.

Lemma wfm_unqueued (s : Session) : wfm s -> wfm (set_rafQueue [] s).
Proof.
  intros W. open_wfm W. open_session s c.
  all: close_wfm.
Qed.

Lemma wf_runFrame (s : Session) : wf s -> wf (step AnimationFrame s).
Proof.
  intros W. unfold step, handle. rewrite exec_runFrame.
  destruct (rafQueue s) as [|e q] eqn:Hq.
  { cbn. rewrite <- Hq, set_rafQueue_same. unfold commit.
    rewrite Bool.eqb_reflx, Qeq_bool_same. exact W. }
  rewrite <- Hq.
  destruct W as [Wm Wp We].
  assert (Hr : isReady s = true).
  { destruct (isReady s) eqn:E; [reflexivity|].
    destruct (wf_idle s Wm E) as (_ & _ & _ & _ & _ & _ & _ & H & _).
    congruence. }
  assert (Hs : suspended s = false).
  { destruct (suspended s) eqn:E; [|reflexivity].
    destruct (wf_suspended s Wm E) as (_ & _ & _ & _ & _ & H & _).
    congruence. }
  assert (F0 : frame_inv (set_rafQueue [] s)).
  { unfold frame_inv. cbn. repeat split; intros; congruence. }
  destruct (frame_fold (rafQueue s) (set_rafQueue [] s)
              (wfm_unqueued s Wm) Hr Hs F0 (wf_raf s Wm))
    as (R1 & (_ & R2 & R3) & R4 & R5 & R6).
  cbn [duration set_rafQueue isPlaying] in R4, R5.
  set (r := fold_left _ _ _) in *.
  rewrite (commit_eq s r R4).
  destruct (Bool.eqb (isPlaying s) (isPlaying r)) eqn:Eb.
  - constructor; [assumption| |].
    + intros Hp. apply R3; [assumption|]. apply R6; [rewrite Hq; discriminate|assumption].
    + intros H _. apply R2. assumption.
  - destruct (isPlaying r) eqn:Hp.
    + exfalso. destruct (isPlaying s) eqn:Hps; [discriminate|].
      specialize (R5 eq_refl). discriminate.
    + constructor; [apply wfm_disarmed; assumption| |].
      * unfold disarmed. cbn. rewrite Hp. discriminate.
      * unfold disarmed. cbn. intros H _. rewrite (R2 H). reflexivity.
Qed.

Lemma wfm_armed (s : Session) : wfm s -> isPlaying s = true -> wfm (armed s).
Proof.
  intros W Hp. open_wfm W. unfold armed, closure_of. open_session s c.
  all: close_wfm.
Qed.

Lemma wfm_first_play (s : Session) :
  wfm s -> isReady s = true -> suspended s = false ->
  currentTime s < duration s ->
  let r := exec (togglePlay_rest (first_play s)) s in
  wfm r /\ isReady r = true /\ suspended r = false /\
  currentTime r < duration r /\ duration r = duration s /\
  isPlaying r = true /\ rafQueue r = rafQueue s /\
  onEndedCalls r = onEndedCalls s /\ currentTime r = currentTime s /\
  progress r = progress s /\ pauseTimeRef r = pauseTimeRef s /\
  resumePending r = resumePending s /\
  clockOf r = clockOf s /\ startTimeRef r = clockOf s /\
  audioBufferRef r = audioBufferRef s.
Proof.
  intros W Hr Hs Hlt. open_wfm W. unfold first_play. open_session s c.
  2:{ exfalso. apply wf_ctx; [assumption|reflexivity]. }
  destruct cst; [discriminate|].
  destruct ga as [g|]; [|exfalso; apply wf_gain; [discriminate|reflexivity]].
  assert (Hd : 0 < du) by auto.
  assert (Hno : Qle_bool du 0 = false).
  { destruct (Qle_bool du 0) eqn:E; [|reflexivity]. apply Qle_bool_iff in E. lra. }
  unfold_js. cbn. rewrite Hno. cbn.
  split; [close_wfm|].
  repeat (split; [first [assumption|reflexivity]|]). reflexivity.
Qed.

Lemma resume_fold (pending : list ToggleClosure) (s : Session) :
  wfm s -> isReady s = true -> suspended s = false ->
  currentTime s < duration s ->
  (forall cb, In cb pending -> cb = first_play s) ->
  let r := fold_left (fun s' cb => exec (togglePlay_rest cb) s') pending s in
  wfm r /\ isReady r = true /\ suspended r = false /\
  currentTime r < duration r /\ duration r = duration s /\
  (pending <> [] -> isPlaying r = true) /\ rafQueue r = rafQueue s /\
  onEndedCalls r = onEndedCalls s /\ currentTime r = currentTime s /\
  progress r = progress s /\ pauseTimeRef r = pauseTimeRef s /\
  resumePending r = resumePending s /\
  clockOf r = clockOf s /\ (pending <> [] -> startTimeRef r = clockOf s) /\
  audioBufferRef r = audioBufferRef s.
Proof.
  revert s. induction pending as [|cb pending IH]; intros s W Hr Hs Hlt Hcb; cbn.
  - do 4 (split; [assumption|]). split; [reflexivity|].
    split; [intros H; exfalso; apply H; reflexivity|].
    do 7 (split; [reflexivity|]).
    split; [intros H; exfalso; apply H; reflexivity|]. reflexivity.
  - assert (E : cb = first_play s) by (apply Hcb; left; reflexivity).
    subst cb.
    destruct (wfm_first_play s W Hr Hs Hlt)
      as (R1 & R2 & R3 & R4 & R5 & R6 & R7 & R8 & R9 & R10 & R11 & R12 & R13 & R14 & R15).
    set (s1 := exec (togglePlay_rest (first_play s)) s) in *.
    assert (Hcb' : forall cb, In cb pending -> cb = first_play s1).
    { intros cb H. unfold first_play. rewrite R5. apply Hcb. right. assumption. }
    destruct (IH s1 R1 R2 R3 R4 Hcb')
      as (I1 & I2 & I3 & I4 & I5 & I6 & I7 & I8 & I9 & I10 & I11 & I12 & I13 & I14 & I15).
    do 4 (split; [assumption|]). split; [congruence|].
    split.
    { intros _. destruct pending as [|cb' pending']; [assumption|].
      apply I6. discriminate. }
    do 7 (split; [congruence|]).
    split; [|congruence].
    intros _. destruct pending as [|cb' pending']; [cbn in *; congruence|].
    rewrite I14 by discriminate. assumption.
Qed.

Lemma wfm_resumed (s : Session) :
  wfm s -> suspended s = true -> isReady s = true ->
  let s0 := exec ctx_resume (set_resumePending [] s) in
  wfm s0 /\ isReady s0 = true /\ suspended s0 = false /\
  currentTime s0 < duration s0 /\ duration s0 = duration s /\
  rafQueue s0 = [] /\ isPlaying s0 = false /\
  onEndedCalls s0 = onEndedCalls s /\ currentTime s0 = currentTime s /\
  progress s0 = progress s /\ pauseTimeRef s0 = pauseTimeRef s /\
  clockOf s0 = clockOf s /\ audioBufferRef s0 = audioBufferRef s.
Proof.
  intros W Hs Hr. open_wfm W. open_session s c; [|discriminate].
  destruct cst; [|discriminate].
  destruct (wf_suspended eq_refl) as (-> & -> & -> & -> & -> & -> & -> & ->).
  assert (Hd : 0 < du) by auto.
  unfold_js. cbn. split; [close_wfm|].
  repeat (split; [first [assumption|reflexivity|lra]|]). reflexivity.
Qed.

Lemma exec_resumeSettled (s : Session) :
  exec resumeSettled s =
  match resumePending s with
  | [] => s
  | _ :: _ =>
      fold_left (fun s' cb => exec (togglePlay_rest cb) s') (resumePending s)
        (exec ctx_resume (set_resumePending [] s))
  end.
Proof. unfold exec, resumeSettled. destruct (resumePending s); reflexivity. Qed.

Lemma wf_resumeSettled (s : Session) : wf s -> wf (step ResumeSettled s).
Proof.
  intros W. unfold step, handle. rewrite exec_resumeSettled.
  destruct (resumePending s) as [|cb pending] eqn:Hpe.
  { unfold commit. rewrite Bool.eqb_reflx, Qeq_bool_same. exact W. }
  rewrite <- Hpe.
  destruct W as [Wm Wp We].
  destruct (wf_pending s Wm) as [Hs Hr]; [rewrite Hpe; discriminate|].
  destruct (wfm_resumed s Wm Hs Hr)
    as (R1 & R2 & R3 & R4 & R5 & R6 & R7 & _).
  set (s0 := exec ctx_resume (set_resumePending [] s)) in *.
  assert (Hcb : forall cb, In cb (resumePending s) -> cb = first_play s0).
  { intros cb' H. unfold first_play. rewrite R5.
    apply (wf_pending_closure s Wm). assumption. }
  destruct (resume_fold (resumePending s) s0 R1 R2 R3 R4 Hcb)
    as (I1 & I2 & I3 & I4 & I5 & I6 & I7 & _).
  set (r := fold_left _ _ _) in *.
  assert (Hpr : isPlaying r = true) by (apply I6; rewrite Hpe; discriminate).
  assert (Hps : isPlaying s = false) by (apply (wf_suspended s Wm Hs)).
  rewrite (commit_eq s r) by congruence.
  rewrite Hps, Hpr. cbn.
  constructor.
  - apply wfm_armed; assumption.
  - intros _. unfold armed, closure_of, live. cbn. rewrite Hpr.
    apply in_or_app. right. left. reflexivity.
  - unfold armed. cbn. intros H _. lra.
Qed.

Lemma wf_step (e : event) (s : Session) : event_ok e -> wf s -> wf (step e s).
Proof.
  destruct e; intros He W.
  - apply wf_clockAdvance; assumption.
  - apply wf_decodeSettled; assumption.
  - apply wf_togglePlay; assumption.
  - apply wf_handleRestart; assumption.
  - apply wf_runFrame; assumption.
  - apply wf_sourceEnded; assumption.
  - apply wf_resumeSettled; assumption.
  - apply wf_parentRender; assumption.
Qed.

Lemma reachable_wf (s : Session) : reachable s -> wf s.
Proof.
  induction 1 as [engine payload|e s _ IH He].
  - apply wf_mount.
  - apply wf_step; assumption.
Qed.

Lemma run_cons (e : event) (es : list event) (s : Session) :
  run (e :: es) s = run es (step e s).
Proof. reflexivity. Qed.

Lemma run_wf (es : list event) (s : Session) :
  wf s -> Forall event_ok es -> wf (run es s).
Proof.
  revert s. induction es as [|e es IH]; intros s W H; [exact W|].
  inversion H; subst. rewrite run_cons. apply IH; [apply wf_step|]; assumption.
Qed.

Lemma run_reachable (es : list event) (s : Session) :
  reachable s -> Forall event_ok es -> reachable (run es s).
Proof.
  revert s. induction es as [|e es IH]; intros s R H; [exact R|].
  inversion H; subst. rewrite run_cons. apply IH; [apply reach_step|]; assumption.
Qed.

Lemma commit_same (s : Session) : commit s s = s.
Proof.
  unfold commit. rewrite Bool.eqb_reflx, Qeq_bool_same. reflexivity.
Qed.

Lemma commit_quiet (s r : Session) :
  isPlaying r = isPlaying s -> duration r = duration s -> commit s r = r.
Proof.
  intros Hp Hd. unfold commit.
  rewrite Hp, Hd, Bool.eqb_reflx, Qeq_bool_same. reflexivity.
Qed.

Lemma initAudio_resume_eq (s : Session) :
  initAudio_resume s = (Ok tt, settled s).
Proof.
  unfold initAudio_resume, settled, bind, gets, modify, try_catch, lift,
    setDuration, setIsReady, console_error, ret.
  destruct (decodePromise s) as [[b|err]|]; reflexivity.
Qed.

Lemma settled_noop (s : Session) :
  decodePromise s = None -> step DecodeSettled s = s.
Proof.
  intros H. unfold step, handle, exec, initAudio_resume, bind, gets.
  rewrite H. apply commit_same.
Qed.

Lemma ready_no_promise (s : Session) :
  wfm s -> isReady s = true -> decodePromise s = None.
Proof.
  intros W Hr. destruct (decodePromise s) eqn:E; [|reflexivity].
  destruct (wf_promise_idle s W) as [F _]; congruence.
Qed.

Lemma frame_empty (s : Session) :
  rafQueue s = [] -> step AnimationFrame s = s.
Proof.
  intros H. unfold step, handle. rewrite exec_runFrame, H. cbn.
  rewrite <- H, set_rafQueue_same. apply commit_same.
Qed.

Lemma resume_empty (s : Session) :
  resumePending s = [] -> step ResumeSettled s = s.
Proof.
  intros H. unfold step, handle. rewrite exec_resumeSettled, H.
  apply commit_same.
Qed.

Lemma parentRender_idle (s : Session) :
  isPlaying s = false -> rafQueue s = [] -> step ParentRender s = s.
Proof.
  intros Hp Hq. unfold step, parentRender. rewrite pollEffect_eq, Hp.
  unfold disarmed. rewrite Hq. cbn. rewrite <- Hq. apply set_rafQueue_same.
Qed.

Lemma step_clockAdvance (dt : Q) (s : Session) :
  step (ClockAdvance dt) s =
  set_audioContextRef
    (option_map (fun c => set_ctx_currentTime (ctx_currentTime c + dt) c)
       (audioContextRef s)) s.
Proof. reflexivity. Qed.

Lemma step_sourceEnded (src : nat) (s : Session) :
  step (SourceEnded src) s =
  set_audioContextRef (option_map (drop_source src) (audioContextRef s)) s.
Proof. reflexivity. Qed.


Lemma dead_restart (log : list (string * exn)) (s : Session) :
  dead log s -> step ClickRestart s = s.
Proof.
  intros (_ & _ & _ & H4 & H5 & H6 & H7 & H8 & _).
  unfold step, handle, exec, handleRestart, bind. rewrite stopAudio_eq.
  unfold stopped. rewrite H8.
  unfold setIsPlaying, setCurrentTime, setProgress, modify, commit.
  destruct s. cbn in *. subst. cbn. rewrite Qeq_bool_same. reflexivity.
Qed.

Lemma dead_toggle (log : list (string * exn)) (s : Session) :
  dead log s -> step ClickToggle s = s.
Proof.
  intros (_ & H2 & _).
  unfold step, handle, exec, togglePlay, bind, gets. rewrite H2.
  destruct (audioContextRef s); cbn [snd]; apply commit_same.
Qed.

Lemma dead_step (log : list (string * exn)) (e : event) (s : Session) :
  dead log s -> dead log (step e s).
Proof.
  intros D. destruct e.
  - rewrite step_clockAdvance. exact D.
  - destruct D as (H1 & H2 & H3 & H4). rewrite (settled_noop s H3).
    repeat split; try assumption; apply H4.
  - rewrite (dead_toggle log s D). exact D.
  - rewrite (dead_restart log s D). exact D.
  - rewrite frame_empty; [exact D|]. apply D.
  - rewrite step_sourceEnded. exact D.
  - rewrite resume_empty; [exact D|]. apply D.
  - rewrite parentRender_idle; [exact D| |]; apply D.
Qed.


Lemma demo_playing_reachable : reachable demo_playing.
Proof.
  unfold demo_playing, demo_ready. cbn [run fold_left].
  repeat (apply reach_step; [|cbn; try exact I; lra]).
  apply reach_mount.
Qed.

Lemma core_fields (a b : Session) :
  core a = core b ->
  isPlaying a = isPlaying b /\ duration a = duration b /\
  isReady a = isReady b /\ audioContextRef a = audioContextRef b /\
  sourceNodeRef a = sourceNodeRef b /\ audioBufferRef a = audioBufferRef b /\
  startTimeRef a = startTimeRef b /\ pauseTimeRef a = pauseTimeRef b /\
  gainNodeRef a = gainNodeRef b /\ decodePromise a = decodePromise b /\
  resumePending a = resumePending b /\ onEndedCalls a = onEndedCalls b /\
  console a = console b /\ clockOf a = clockOf b /\ elapsed a = elapsed b /\
  startedOf a = startedOf b /\ live a = live b /\ suspended a = suspended b.
Proof.
  unfold core, elapsed, clockOf, startedOf, live, suspended. intros H.
  injection H as -> -> -> -> -> -> -> -> -> -> -> -> ->.
  repeat split; reflexivity.
Qed.

Lemma core_polled (cb : Closure) (s : Session) : core (polled cb s) = core s.
Proof. reflexivity. Qed.

Lemma fold_polling (cb : Closure) (q : list (nat * Closure)) (s : Session) :
  (forall e, In e q -> snd e = cb) ->
  cl_isPlaying cb = true ->
  audioContextRef s <> None ->
  Qle_bool (cl_duration cb) (elapsed s) = false ->
  let r := fold_left (fun s' e => exec (updateProgress (snd e)) s') q s in
  core r = core s /\
  (q <> [] ->
   currentTime r = elapsed s /\
   progress r = elapsed s / cl_duration cb * 100 /\
   In (animationFrameRef r, cb) (rafQueue r)) /\
  (q = [] -> r = s) /\
  List.length (rafQueue r) = (List.length (rafQueue s) + List.length q)%nat /\
  (forall e, In e (rafQueue r) -> In e (rafQueue s) \/ snd e = cb).
Proof.
  revert s. induction q as [|e q IH]; intros s Hq Hp Hc Hlt; cbn.
  - split; [reflexivity|]. split; [intros H; exfalso; apply H; reflexivity|].
    split; [reflexivity|]. split; [lia|]. intros e H. left. assumption.
  - assert (He : snd e = cb) by (apply Hq; left; reflexivity).
    rewrite He.
    assert (E1 : exec (updateProgress cb) s = polled cb s).
    { rewrite exec_updateProgress. destruct (audioContextRef s); [|congruence].
      rewrite Hp, Hlt. reflexivity. }
    rewrite E1.
    destruct (core_fields _ _ (core_polled cb s))
      as (_ & _ & _ & C4 & _ & _ & _ & _ & _ & _ & _ & _ & _ & _ & C15 & _).
    assert (Hq' : forall e0, In e0 q -> snd e0 = cb)
      by (intros e0 H0; apply Hq; right; assumption).
    assert (Hc' : audioContextRef (polled cb s) <> None) by congruence.
    assert (Hlt' : Qle_bool (cl_duration cb) (elapsed (polled cb s)) = false)
      by congruence.
    destruct (IH (polled cb s) Hq' Hp Hc' Hlt') as (I1 & I2 & I3 & I4 & I5).
    split; [rewrite I1; apply core_polled|].
    split.
    + intros _. destruct q as [|e1 q1].
      * rewrite (I3 eq_refl). unfold polled. cbn.
        split; [reflexivity|]. split; [reflexivity|].
        apply in_or_app. right. left. reflexivity.
      * destruct I2 as (J1 & J2 & J3); [discriminate|].
        rewrite J1, J2, C15. split; [reflexivity|]. split; [reflexivity|].
        assumption.
    + split; [discriminate|]. split.
      * rewrite I4. unfold polled. cbn. rewrite length_app. cbn. lia.
      * intros e0 H0. destruct (I5 e0 H0) as [H1|H1]; [|right; assumption].
        unfold polled in H1. cbn in H1. apply in_app_or in H1.
        destruct H1 as [H1|[<-|[]]]; [left; assumption|right; reflexivity].
Qed.

(** A frame of a session whose callbacks all see [elapsed < duration]. *)
Lemma frame_polls (s : Session) :
  wf s -> rafQueue s <> [] -> elapsed s < duration s ->
  let r := step AnimationFrame s in
  core r = core s /\
  currentTime r = elapsed s /\
  progress r = elapsed s / duration s * 100 /\
  List.length (rafQueue r) = List.length (rafQueue s) /\
  In (animationFrameRef r, live s) (rafQueue r).
Proof.
  intros [Wm Wp We] Hq Hlt.
  assert (Hr : isReady s = true).
  { destruct (isReady s) eqn:E; [reflexivity|].
    destruct (wf_idle s Wm E) as (_ & _ & _ & _ & _ & _ & _ & H & _).
    congruence. }
  assert (Hno : Qle_bool (cl_duration (live s)) (elapsed (set_rafQueue [] s)) = false).
  { change (elapsed (set_rafQueue [] s)) with (elapsed s). cbn.
    destruct (Qle_bool (duration s) (elapsed s)) eqn:E; [|reflexivity].
    apply Qle_bool_iff in E. lra. }
  destruct (fold_polling (live s) (rafQueue s) (set_rafQueue [] s)
              (wf_raf s Wm) eq_refl (wf_ctx s Wm Hr) Hno)
    as (F1 & F2 & _ & F4 & _).
  destruct (F2 Hq) as (G1 & G2 & G3).
  unfold step, handle. rewrite exec_runFrame.
  set (r := fold_left _ _ _) in *.
  change (core (set_rafQueue [] s)) with (core s) in F1.
  destruct (core_fields _ _ F1) as (C1 & C2 & _).
  rewrite (commit_quiet s r C1 C2).
  split; [assumption|]. split; [assumption|]. split; [assumption|].
  split; [rewrite F4; reflexivity | assumption].
Qed.

Lemma ended_more (cb : Closure) (s : Session) :
  startedOf (ended cb s) = startedOf (stopped s) /\
  gainNodeRef (ended cb s) = gainNodeRef s /\
  decodePromise (ended cb s) = decodePromise s /\
  suspended (ended cb s) = suspended s /\
  (audioContextRef s <> None -> audioContextRef (ended cb s) <> None) /\
  elapsed (ended cb s) = clockOf s - startTimeRef s + 0 /\
  startedOf (stopped (ended cb s)) = startedOf (stopped s).
Proof.
  unfold ended, stopped, startedOf, suspended, elapsed, clockOf.
  destruct s as [pl pr du cu rd ctx src buf st pa af ga dp pe rq rn oe co].
  cbn. destruct src, ctx; cbn; repeat split; try reflexivity; try discriminate.
  all: intros H; exfalso; apply H; reflexivity.
Qed.

Lemma fold_ending (cb : Closure) (q : list (nat * Closure)) (e : nat * Closure)
    (s : Session) :
  (forall e', In e' (e :: q) -> snd e' = cb) ->
  cl_isPlaying cb = true ->
  audioContextRef s <> None ->
  Qle_bool (cl_duration cb) (elapsed s) = true ->
  (q <> [] ->
   Qle_bool (cl_duration cb) (clockOf s - startTimeRef s + 0) = true) ->
  let r := fold_left (fun s' e => exec (updateProgress (snd e)) s') (e :: q) s in
  isPlaying r = false /\
  currentTime r = cl_duration cb /\
  progress r = 100 /\
  pauseTimeRef r = 0 /\
  sourceNodeRef r = None /\
  onEndedCalls r = (onEndedCalls s + S (List.length q))%nat /\
  rafQueue r = rafQueue s /\
  duration r = duration s /\
  startTimeRef r = startTimeRef s /\
  clockOf r = clockOf s /\
  isReady r = isReady s /\
  audioBufferRef r = audioBufferRef s /\
  resumePending r = resumePending s /\
  console r = console s /\
  animationFrameRef r = animationFrameRef s /\
  startedOf r = startedOf (stopped s) /\
  suspended r = suspended s.
Proof.
  revert e s. induction q as [|e1 q IH]; intros e s Hq Hp Hc H1 H2.
  - assert (He : snd e = cb) by (apply Hq; left; reflexivity).
    assert (E : exec (updateProgress cb) s = ended cb s).
    { rewrite exec_updateProgress. destruct (audioContextRef s); [|congruence].
      rewrite Hp, H1. reflexivity. }
    cbn [fold_left]. rewrite He, E. cbn zeta.
    destruct (ended_fields cb s)
      as (E1 & E2 & E3 & E4 & E5 & E6 & E7 & E8 & E9 & E10 & E11 & E12 & E13 & E14 & E15 & E16).
    destruct (ended_more cb s) as (M1 & _ & _ & M4 & _).
    split; [assumption|]. split; [assumption|]. split; [assumption|].
    split; [assumption|]. split; [assumption|].
    split; [rewrite E7; cbn [List.length]; lia|].
    repeat (split; [assumption|]). assumption.
  - assert (He : snd e = cb) by (apply Hq; left; reflexivity).
    change (fold_left (fun s' e => exec (updateProgress (snd e)) s') (e :: e1 :: q) s)
      with (fold_left (fun s' e => exec (updateProgress (snd e)) s') (e1 :: q)
              (exec (updateProgress (snd e)) s)).
    rewrite He.
    assert (E : exec (updateProgress cb) s = ended cb s).
    { rewrite exec_updateProgress. destruct (audioContextRef s); [|congruence].
      rewrite Hp, H1. reflexivity. }
    rewrite E.
    destruct (ended_fields cb s)
      as (E1 & E2 & E3 & E4 & E5 & E6 & E7 & E8 & E9 & E10 & E11 & E12 & E13 & E14 & E15 & E16).
    destruct (ended_more cb s) as (M1 & M2 & M3 & M4 & M5 & M6 & M7).
    assert (Hq' : forall e', In e' (e1 :: q) -> snd e' = cb)
      by (intros e' H; apply Hq; right; assumption).
    assert (H2' : Qle_bool (cl_duration cb)
                    (clockOf s - startTimeRef s + 0) = true)
      by (apply H2; discriminate).
    assert (G1 : Qle_bool (cl_duration cb) (elapsed (ended cb s)) = true)
      by (rewrite M6; assumption).
    assert (G2 : Qle_bool (cl_duration cb)
                   (clockOf (ended cb s) - startTimeRef (ended cb s) + 0) = true)
      by (rewrite E10, E9; assumption).
    destruct (IH e1 (ended cb s) Hq' Hp (M5 Hc) G1 (fun _ => G2))
      as (I1 & I2 & I3 & I4 & I5 & I6 & I7 & I8 & I9 & I10 & I11 & I12 & I13 & I14 & I15 & I16 & I17).
    cbn zeta.
    split; [assumption|]. split; [assumption|]. split; [assumption|].
    split; [assumption|]. split; [assumption|].
    split; [rewrite I6, E7; cbn [List.length]; lia|].
    split; [congruence|]. split; [congruence|]. split; [congruence|].
    split; [congruence|]. split; [congruence|]. split; [congruence|].
    split; [congruence|]. split; [congruence|]. split; [congruence|].
    split; [congruence|]. congruence.
Qed.

Lemma stopped_unqueued (q : list (nat * Closure)) (s : Session) :
  startedOf (stopped (set_rafQueue q s)) = startedOf (stopped s).
Proof.
  unfold stopped, startedOf.
  destruct s as [pl pr du cu rd ctx src buf st pa af ga dp pe rq rn oe co].
  cbn. destruct src; reflexivity.
Qed.

(** A frame in which every callback finds the playback over. *)
Lemma frame_ends (s : Session) :
  wf s -> rafQueue s <> [] ->
  duration s <= elapsed s ->
  ((1 < List.length (rafQueue s))%nat ->
   duration s <= clockOf s - startTimeRef s + 0) ->
  let r := step AnimationFrame s in
  isPlaying r = false /\
  currentTime r = duration s /\
  progress r = 100 /\
  pauseTimeRef r = 0 /\
  sourceNodeRef r = None /\
  onEndedCalls r = (onEndedCalls s + List.length (rafQueue s))%nat /\
  rafQueue r = [] /\
  duration r = duration s /\
  startTimeRef r = startTimeRef s /\
  clockOf r = clockOf s /\
  isReady r = isReady s /\
  audioBufferRef r = audioBufferRef s /\
  resumePending r = resumePending s /\
  console r = console s /\
  startedOf r = startedOf (stopped s) /\
  suspended r = suspended s.
Proof.
  intros [Wm Wp We] Hq H1 H2.
  assert (Hr : isReady s = true).
  { destruct (isReady s) eqn:E; [reflexivity|].
    destruct (wf_idle s Wm E) as (_ & _ & _ & _ & _ & _ & _ & H & _).
    congruence. }
  destruct (rafQueue s) as [|e q] eqn:Eq; [congruence|].
  assert (Hcl : forall e', In e' (e :: q) -> snd e' = live s).
  { intros e' H. apply (wf_raf s Wm). rewrite Eq. assumption. }
  assert (G1 : Qle_bool (cl_duration (live s)) (elapsed (set_rafQueue [] s)) = true).
  { apply Qle_bool_iff. exact H1. }
  assert (G2 : q <> [] ->
               Qle_bool (cl_duration (live s))
                 (clockOf (set_rafQueue [] s) - startTimeRef (set_rafQueue [] s) + 0)
               = true).
  { intros Hne. apply Qle_bool_iff. apply H2.
    destruct q; [congruence|cbn; lia]. }
  destruct (fold_ending (live s) q e (set_rafQueue [] s) Hcl eq_refl
              (wf_ctx s Wm Hr) G1 G2)
    as (I1 & I2 & I3 & I4 & I5 & I6 & I7 & I8 & I9 & I10 & I11 & I12 & I13 & I14 & I15 & I16 & I17).
  unfold step, handle. rewrite exec_runFrame, Eq.
  set (r := fold_left _ _ _) in *.
  cbn [rafQueue set_rafQueue duration onEndedCalls startTimeRef isReady
       audioBufferRef resumePending console animationFrameRef] in *.
  change (clockOf (set_rafQueue [] s)) with (clockOf s) in I10.
  rewrite stopped_unqueued in I16.
  change (suspended (set_rafQueue [] s)) with (suspended s) in I17.
  change (cl_duration (live s)) with (duration s) in I2.
  rewrite (commit_eq s r I8), I1.
  destruct (isPlaying s); cbn [Bool.eqb].
  - unfold disarmed. rewrite I7. cbn.
    repeat (split; [first [assumption|reflexivity]|]). assumption.
  - repeat (split; [first [assumption|reflexivity]|]). assumption.
Qed.

Lemma playing_running (s : Session) :
  wfm s -> isPlaying s = true ->
  isReady s = true /\ suspended s = false /\ resumePending s = [].
Proof.
  intros W Hp. destruct (wf_playing s W Hp) as [Hr _].
  assert (Hs : suspended s = false).
  { destruct (suspended s) eqn:E; [|reflexivity].
    destruct (wf_suspended s W E) as (H & _). congruence. }
  split; [assumption|]. split; [assumption|].
  destruct (resumePending s) eqn:E; [reflexivity|].
  destruct (wf_pending s W) as [H _]; [rewrite E; discriminate|congruence].
Qed.

Lemma running_no_pending (s : Session) :
  wfm s -> suspended s = false -> resumePending s = [].
Proof.
  intros W Hs. destruct (resumePending s) eqn:E; [reflexivity|].
  destruct (wf_pending s W) as [H _]; [rewrite E; discriminate|congruence].
Qed.

Lemma dropped_not_started (src : nat) (l : list (nat * Q)) :
  existsb (fun e => Nat.eqb (fst e) src)
    (filter (fun e => negb (Nat.eqb (fst e) src)) l) = false.
Proof.
  induction l as [|e l IH]; cbn; [reflexivity|].
  destruct (Nat.eqb (fst e) src) eqn:E; cbn; [assumption|].
  rewrite E. assumption.
Qed.

Lemma stopped_not_running (s : Session) (src : nat) :
  sourceNodeRef s = Some src -> node_running src (stopped s) = false.
Proof.
  intros H. unfold stopped, node_running. rewrite H. cbn.
  destruct (audioContextRef s) as [c|]; cbn; [|reflexivity].
  unfold is_started, drop_source. cbn. apply dropped_not_started.
Qed.

Lemma play_fields (s : Session) :
  wf s -> isReady s = true -> isPlaying s = false -> suspended s = false ->
  let s' := step ClickToggle s in
  let rewind := Qle_bool (duration s) (currentTime s) in
  isPlaying s' = true /\
  startTimeRef s' = clockOf s /\
  pauseTimeRef s' = (if rewind then 0 else pauseTimeRef s) /\
  currentTime s' = (if rewind then 0 else currentTime s) /\
  progress s' = (if rewind then 0 else progress s) /\
  (exists id, sourceNodeRef s' = Some id /\
              startedOf s' = (id, pauseTimeRef s') :: startedOf s) /\
  duration s' = duration s /\
  clockOf s' = clockOf s /\
  onEndedCalls s' = onEndedCalls s /\
  audioBufferRef s' = audioBufferRef s /\
  isReady s' = isReady s /\
  suspended s' = false /\
  resumePending s' = resumePending s /\
  console s' = console s /\
  rafQueue s' = rafQueue s ++ [(rafNext s, live s)] /\
  animationFrameRef s' = rafNext s.
Proof.
  intros [W _ _] Hr Hp Hs s' rewind.
  pose proof (wf_ctx s W Hr) as Hc. pose proof (wf_gain s W Hc) as Hg.
  pose proof (wf_ready s W) as Hb. rewrite Hr in Hb.
  unfold s', rewind. clear s' rewind W.
  destruct s as [pl pr du cu rd ctx src buf st pa af ga dp pe rq rn oe co].
  unfold clockOf, startedOf, suspended, live in *. cbn in *. subst pl.
  destruct ctx as [[rate cst now started nn]|]; [|congruence].
  destruct buf as [b|]; [|discriminate].
  destruct ga as [g|]; [|congruence].
  destruct cst; [discriminate|].
  unfold_js. cbn.
  destruct (Qle_bool du cu); cbn; rewrite ?Qeq_bool_same; cbn.
  all: repeat (split; [reflexivity|]).
  all: split; [eexists; split; reflexivity|].
  all: repeat (split; [reflexivity|]); reflexivity.
Qed.

Lemma pause_fields (s : Session) :
  wf s -> isPlaying s = true ->
  let s' := step ClickToggle s in
  isPlaying s' = false /\
  pauseTimeRef s' = pauseTimeRef s + (clockOf s - startTimeRef s) /\
  currentTime s' = currentTime s /\
  progress s' = progress s /\
  sourceNodeRef s' = None /\
  startedOf s' = startedOf (stopped s) /\
  (forall src, sourceNodeRef s = Some src -> node_running src s' = false) /\
  duration s' = duration s /\
  clockOf s' = clockOf s /\
  startTimeRef s' = startTimeRef s /\
  onEndedCalls s' = onEndedCalls s /\
  audioBufferRef s' = audioBufferRef s /\
  isReady s' = isReady s /\
  suspended s' = false /\
  resumePending s' = resumePending s /\
  console s' = console s /\
  rafQueue s' =
    filter (fun e => negb (Nat.eqb (fst e) (animationFrameRef s))) (rafQueue s).
Proof.
  intros [W _ _] Hp s'.
  destruct (playing_running s W Hp) as (Hr & Hs & _).
  pose proof (wf_ctx s W Hr) as Hc.
  pose proof (wf_ready s W) as Hb. rewrite Hr in Hb.
  unfold s'. clear s' W.
  destruct s as [pl pr du cu rd ctx src buf st pa af ga dp pe rq rn oe co].
  unfold clockOf, startedOf, suspended, node_running in *. cbn in *. subst pl.
  destruct ctx as [[rate cst now started nn]|]; [|congruence].
  destruct buf as [b|]; [|discriminate].
  destruct cst; [discriminate|].
  unfold_js. cbn. rewrite stopAudio_eq. unfold stopped. cbn.
  destruct src as [id|]; cbn; rewrite ?Qeq_bool_same; cbn.
  all: repeat (split; [reflexivity|]).
  all: split; [|repeat (split; [reflexivity|]); reflexivity].
  - intros src H. injection H as <-. unfold is_started, drop_source. cbn.
    apply dropped_not_started.
  - intros src H. discriminate.
Qed.

Lemma restart_fields (s : Session) :
  let s' := step ClickRestart s in
  isPlaying s' = false /\
  pauseTimeRef s' = 0 /\
  currentTime s' = 0 /\
  progress s' = 0 /\
  sourceNodeRef s' = None /\
  startedOf s' = startedOf (stopped s) /\
  duration s' = duration s /\
  clockOf s' = clockOf s /\
  onEndedCalls s' = onEndedCalls s /\
  audioBufferRef s' = audioBufferRef s /\
  isReady s' = isReady s /\
  suspended s' = suspended s /\
  resumePending s' = resumePending s /\
  console s' = console s /\
  rafQueue s' =
    (if isPlaying s
     then filter (fun e => negb (Nat.eqb (fst e) (animationFrameRef s)))
            (rafQueue s)
     else rafQueue s).
Proof.
  intros s'. unfold s'. clear s'.
  destruct s as [pl pr du cu rd ctx src buf st pa af ga dp pe rq rn oe co].
  unfold clockOf, startedOf, suspended. unfold_js. cbn.
  rewrite stopAudio_eq. unfold stopped. cbn.
  destruct src as [id|]; cbn; rewrite ?Qeq_bool_same; cbn.
  all: destruct pl; cbn.
  all: destruct ctx as [c|]; cbn.
  all: repeat (split; [reflexivity|]); reflexivity.
Qed.

Lemma advance_fields (dt : Q) (s : Session) :
  let s' := step (ClockAdvance dt) s in
  isPlaying s' = isPlaying s /\ isReady s' = isReady s /\
  currentTime s' = currentTime s /\ progress s' = progress s /\
  duration s' = duration s /\ pauseTimeRef s' = pauseTimeRef s /\
  startTimeRef s' = startTimeRef s /\ sourceNodeRef s' = sourceNodeRef s /\
  onEndedCalls s' = onEndedCalls s /\ rafQueue s' = rafQueue s /\
  resumePending s' = resumePending s /\ audioBufferRef s' = audioBufferRef s /\
  startedOf s' = startedOf s /\ suspended s' = suspended s /\
  animationFrameRef s' = animationFrameRef s /\ console s' = console s /\
  (audioContextRef s <> None -> clockOf s' = clockOf s + dt).
Proof.
  rewrite step_clockAdvance. unfold startedOf, suspended, clockOf. cbn.
  destruct (audioContextRef s) as [c|]; cbn.
  all: repeat (split; [reflexivity|]).
  - intros _. reflexivity.
  - intros H. congruence.
Qed.

Lemma parentRender_fields (s : Session) :
  let s' := step ParentRender s in
  core s' = core s /\ currentTime s' = currentTime s /\
  progress s' = progress s /\
  rafQueue s' =
    (if isPlaying s then rafQueue s ++ [(rafNext s, live s)]
     else filter (fun e => negb (Nat.eqb (fst e) (animationFrameRef s)))
            (rafQueue s)).
Proof.
  unfold step, parentRender. rewrite pollEffect_eq.
  unfold armed, disarmed, closure_of, live.
  destruct (isPlaying s) eqn:Hp; cbn; rewrite ?Hp; repeat split; reflexivity.
Qed.

Lemma sourceEnded_fields (src : nat) (s : Session) :
  let s' := step (SourceEnded src) s in
  isPlaying s' = isPlaying s /\ isReady s' = isReady s /\
  currentTime s' = currentTime s /\ progress s' = progress s /\
  duration s' = duration s /\ pauseTimeRef s' = pauseTimeRef s /\
  startTimeRef s' = startTimeRef s /\ sourceNodeRef s' = sourceNodeRef s /\
  onEndedCalls s' = onEndedCalls s /\ rafQueue s' = rafQueue s /\
  resumePending s' = resumePending s /\ audioBufferRef s' = audioBufferRef s /\
  clockOf s' = clockOf s /\ suspended s' = suspended s /\
  animationFrameRef s' = animationFrameRef s /\ console s' = console s /\
  startedOf s' = filter (fun e => negb (Nat.eqb (fst e) src)) (startedOf s).
Proof.
  rewrite step_sourceEnded. unfold startedOf, suspended, clockOf, drop_source.
  cbn. destruct (audioContextRef s) as [c|]; cbn.
  all: repeat (split; [reflexivity|]); reflexivity.
Qed.

Lemma quiet_ok (e : event) : quiet e -> event_ok e.
Proof. destruct e; cbn; auto. Qed.




Lemma polling_nonempty (s : Session) :
  wf s -> isPlaying s = true -> rafQueue s <> [].
Proof.
  intros W Hp H. pose proof (wf_polling s W Hp) as Hin.
  rewrite H in Hin. destruct Hin.
Qed.



Ltac rest_tac :=
  first [ assumption | reflexivity | apply incl_refl
        | repeat split; first [assumption|reflexivity] ].

Lemma rest_step (e : event) (s : Session) :
  at_rest s -> e <> ClickToggle ->
  at_rest (step e s) /\
  onEndedCalls (step e s) = onEndedCalls s /\
  incl (startedOf (step e s)) (startedOf s) /\
  currentTime (step e s) = (match e with ClickRestart => 0 | _ => currentTime s end) /\
  progress (step e s) = (match e with ClickRestart => 0 | _ => progress s end).
Proof.
  intros (R1 & R2 & R3 & R4) He. destruct e; try congruence.
  - destruct (advance_fields dt s)
      as (A1 & _ & A3 & A4 & _ & _ & _ & A8 & A9 & A10 & A11 & _ & A13 & _).
    unfold at_rest. rewrite A1, A8, A9, A10, A11, A13, A3, A4.
    repeat (split; [rest_tac|]). reflexivity.
  - unfold step, handle, exec. rewrite initAudio_resume_eq. cbn [snd].
    unfold settled, startedOf, at_rest.
    destruct (decodePromise s) as [[b|err]|]; unfold commit; cbn.
    + rewrite R1. cbn.
      destruct (Qeq_bool (duration s) (buffer_duration b)); cbn.
      * repeat (split; [rest_tac|]). reflexivity.
      * rewrite pollEffect_eq. cbn. rewrite R1. unfold disarmed. cbn.
        rewrite R2. cbn.
        repeat (split; [rest_tac|]). reflexivity.
    + rewrite R1, Qeq_bool_same. cbn.
      repeat (split; [rest_tac|]). reflexivity.
    + rewrite R1, Qeq_bool_same. cbn.
      repeat (split; [rest_tac|]). reflexivity.
  - destruct (restart_fields s)
      as (F1 & _ & F3 & F4 & F5 & F6 & _ & _ & F9 & _ & _ & _ & F13 & _ & F15).
    unfold at_rest. rewrite F1, F3, F4, F5, F6, F9, F13, F15, R1, R2.
    unfold stopped. rewrite R4.
    repeat (split; [rest_tac|]). reflexivity.
  - rewrite (frame_empty s R2).
    repeat (split; [rest_tac|]). reflexivity.
  - destruct (sourceEnded_fields src s)
      as (A1 & _ & A3 & A4 & _ & _ & _ & A8 & A9 & A10 & A11 & _ & _ & _ & _ & _ & A17).
    unfold at_rest. rewrite A1, A8, A9, A10, A11, A17, A3, A4.
    split; [rest_tac|]. split; [reflexivity|].
    split; [|split; reflexivity].
    intros x Hx. apply filter_In in Hx. apply Hx.
  - rewrite (resume_empty s R3).
    repeat (split; [rest_tac|]). reflexivity.
  - rewrite (parentRender_idle s R1 R2).
    repeat (split; [rest_tac|]). reflexivity.
Qed.

Lemma rest_run (es : list event) (s : Session) :
  at_rest s -> Forall (fun e => e <> ClickToggle) es ->
  at_rest (run es s) /\
  onEndedCalls (run es s) = onEndedCalls s /\
  incl (startedOf (run es s)) (startedOf s).
Proof.
  revert s. induction es as [|e es IH]; intros s R H.
  - cbn. split; [assumption|]. split; [reflexivity|apply incl_refl].
  - inversion H as [|e' es' He Hes]; subst.
    destruct (rest_step e s R He) as (R' & O' & I' & _).
    destruct (IH (step e s) R' Hes) as (R'' & O'' & I'').
    rewrite run_cons. split; [assumption|]. split; [congruence|].
    eapply incl_tran; eassumption.
Qed.


Lemma park_fields (s : Session) :
  isReady s = true -> wfm s -> suspended s = true ->
  step ClickToggle s =
  set_resumePending (resumePending s ++ [toggle_closure_of s]) s.
Proof.
  intros Hr W Hs.
  pose proof (wf_ready s W) as Hb. rewrite Hr in Hb.
  unfold step, handle, exec, togglePlay, bind, gets.
  unfold suspended in Hs.
  destruct (audioContextRef s) as [c|]; [|discriminate].
  destruct (audioBufferRef s); [|discriminate].
  destruct (ctx_state c); [|discriminate].
  unfold await_resume, modify. cbn [snd].
  apply commit_quiet; reflexivity.
Qed.

Lemma rest_keeps_queue (cb : ToggleClosure) (s : Session) :
  let r := exec (togglePlay_rest cb) s in
  rafNext r = rafNext s /\ rafQueue r = rafQueue s /\
  animationFrameRef r = animationFrameRef s /\ console r = console s /\
  onEndedCalls r = onEndedCalls s /\ resumePending r = resumePending s.
Proof.
  destruct s as [pl pr du cu rd ctx src buf st pa af ga dp pe rq rn oe co].
  destruct cb as [p c d]. unfold exec, togglePlay_rest. cbn [tc_isPlaying].
  destruct p.
  - unfold bind. rewrite stopAudio_eq. unfold stopped.
    unfold_js. cbn. destruct src, ctx; cbn; repeat split; reflexivity.
  - unfold_js. cbn. destruct ctx as [c0|]; cbn; [|repeat split; reflexivity].
    destruct ga; cbn; [|repeat split; reflexivity].
    destruct (Qle_bool d c); cbn; repeat split; reflexivity.
Qed.

Lemma rest_fold_keeps_queue (pending : list ToggleClosure) (s : Session) :
  let r := fold_left (fun s' cb => exec (togglePlay_rest cb) s') pending s in
  rafNext r = rafNext s /\ rafQueue r = rafQueue s /\
  animationFrameRef r = animationFrameRef s /\ console r = console s.
Proof.
  revert s. induction pending as [|cb pending IH]; intros s; cbn.
  - repeat split; reflexivity.
  - destruct (rest_keeps_queue cb s) as (A1 & A2 & A3 & A4 & _).
    destruct (IH (exec (togglePlay_rest cb) s)) as (I1 & I2 & I3 & I4).
    repeat split; congruence.
Qed.

(** The awaited [ctx.resume()] settles with continuations waiting. *)
Lemma resume_fields (s : Session) :
  wf s -> resumePending s <> [] ->
  let r := step ResumeSettled s in
  isPlaying r = true /\
  isReady r = true /\
  suspended r = false /\
  duration r = duration s /\
  clockOf r = clockOf s /\
  startTimeRef r = clockOf s /\
  currentTime r = 0 /\
  progress r = 0 /\
  pauseTimeRef r = 0 /\
  onEndedCalls r = 0%nat /\
  audioBufferRef r = audioBufferRef s /\
  resumePending r = [] /\
  rafQueue r = [(rafNext s, live s)] /\
  animationFrameRef r = rafNext s.
Proof.
  intros W Hpe. unfold step, handle. rewrite exec_resumeSettled.
  destruct (resumePending s) as [|cb pending] eqn:Epe; [congruence|].
  rewrite <- Epe.
  destruct W as [Wm Wp We].
  destruct (wf_pending s Wm) as [Hs Hr]; [rewrite Epe; discriminate|].
  destruct (wf_suspended s Wm Hs) as (S1 & S2 & S3 & S4 & S5 & S6 & S7 & S8).
  destruct (wfm_resumed s Wm Hs Hr)
    as (R1 & R2 & R3 & R4 & R5 & R6 & R7 & R8 & R9 & R10 & R11 & R12 & R13).
  set (s0 := exec ctx_resume (set_resumePending [] s)) in *.
  assert (Hcb : forall cb, In cb (resumePending s) -> cb = first_play s0).
  { intros cb' H. unfold first_play. rewrite R5.
    apply (wf_pending_closure s Wm). assumption. }
  destruct (resume_fold (resumePending s) s0 R1 R2 R3 R4 Hcb)
    as (I1 & I2 & I3 & I4 & I5 & I6 & I7 & I8 & I9 & I10 & I11 & I12 & I13 & I14 & I15).
  set (r := fold_left _ _ _) in *.
  assert (Hne : resumePending s <> []) by (rewrite Epe; discriminate).
  assert (Hpr : isPlaying r = true) by (apply I6; assumption).
  rewrite (commit_eq s r) by congruence.
  rewrite S1, Hpr. cbn [Bool.eqb].
  assert (Hq : rafQueue r = []) by congruence.
  destruct (rest_fold_keeps_queue (resumePending s) s0) as (Hn & _).
  fold r in Hn. change (rafNext s0) with (rafNext s) in Hn.
  assert (Hd : duration r = duration s) by congruence.
  assert (Hsus : suspended (armed r) = suspended r) by reflexivity.
  assert (Hclk : clockOf (armed r) = clockOf r) by reflexivity.
  rewrite Hsus, Hclk.
  unfold armed, closure_of, live. cbn.
  rewrite Hq, Hpr, Hn, Hd. cbn.
  split; [reflexivity|]. split; [assumption|]. split; [assumption|].
  split; [reflexivity|]. split; [congruence|].
  split; [rewrite I14 by assumption; assumption|].
  split; [congruence|]. split; [congruence|]. split; [congruence|].
  split; [congruence|]. split; [congruence|].
  split; [rewrite I12; reflexivity|]. split; reflexivity.
Qed.

Lemma Qle_bool_proper (x x' y y' : Q) :
  x == x' -> y == y' -> Qle_bool x y = Qle_bool x' y'.
Proof.
  intros Hx Hy.
  destruct (Qle_bool x y) eqn:E1, (Qle_bool x' y') eqn:E2; try reflexivity;
    q_hyps; lra.
Qed.

Ltac qs :=
  first [ assumption | reflexivity
        | intros; first [assumption | discriminate | congruence] ].

(** What an event other than a click does to a ready session on a running
    context that either plays from offset 0 or rests with nothing queued. *)
Lemma quiet_spec (e : event) (s : Session) :
  wf s -> isReady s = true -> suspended s = false -> quiet e ->
  (isPlaying s = true -> pauseTimeRef s = 0) ->
  (isPlaying s = false -> rafQueue s = []) ->
  let s' := step e s in
  isReady s' = true /\
  suspended s' = false /\
  duration s' = duration s /\
  clockOf s' =
    (match e with ClockAdvance dt => clockOf s + dt | _ => clockOf s end) /\
  startTimeRef s' = startTimeRef s /\
  (isPlaying s' = true -> pauseTimeRef s' = 0) /\
  (isPlaying s' = false -> rafQueue s' = []) /\
  isPlaying s' =
    (match e with
     | AnimationFrame =>
         isPlaying s && negb (Qle_bool (duration s) (elapsed s))
     | _ => isPlaying s
     end) /\
  currentTime s' =
    (match e with
     | AnimationFrame =>
         if isPlaying s
         then if Qle_bool (duration s) (elapsed s) then duration s
              else elapsed s
         else currentTime s
     | _ => currentTime s
     end) /\
  onEndedCalls s' =
    (match e with
     | AnimationFrame =>
         if isPlaying s && Qle_bool (duration s) (elapsed s)
         then (onEndedCalls s + List.length (rafQueue s))%nat
         else onEndedCalls s
     | _ => onEndedCalls s
     end).
Proof.
  intros W Hr Hs Hq Hoff Hrest. pose proof (wf_mid s W) as Wm.
  pose proof (wf_ctx s Wm Hr) as Hc.
  destruct e; cbn in Hq; try contradiction; cbn zeta.
  - destruct (advance_fields dt s)
      as (A1 & A2 & A3 & _ & A5 & A6 & A7 & _ & A9 & A10 & _ & _ & _ & A14 & _ & _ & A17).
    rewrite A1, A2, A3, A5, A6, A7, A9, A10, A14, (A17 Hc).
    repeat (split; [qs|]). qs.
  - rewrite (settled_noop s (ready_no_promise s Wm Hr)).
    repeat (split; [qs|]). qs.
  - destruct (isPlaying s) eqn:Hp.
    + specialize (Hoff eq_refl).
      destruct (Qle_bool (duration s) (elapsed s)) eqn:Hend.
      * apply Qle_bool_iff in Hend.
        assert (Hend' : duration s <= clockOf s - startTimeRef s + 0).
        { unfold elapsed in Hend. rewrite Hoff in Hend. exact Hend. }
        destruct (frame_ends s W (polling_nonempty s W Hp) Hend (fun _ => Hend'))
          as (F1 & F2 & F3 & F4 & F5 & F6 & F7 & F8 & F9 & F10 & F11 & _ & _ & _ & _ & F16).
        rewrite F1, F2, F6, F8, F9, F10, F11, F16. cbn.
        repeat (split; [qs|]). qs.
      * apply Qle_bool_false in Hend.
        destruct (frame_polls s W (polling_nonempty s W Hp) Hend)
          as (F1 & F2 & _).
        destruct (core_fields _ _ F1)
          as (C1 & C2 & C3 & _ & _ & _ & C7 & C8 & _ & _ & _ & C12 & _ & C14 & _ & _ & _ & C18).
        rewrite C1, C2, C3, C7, C8, C12, C14, C18, F2, Hp. cbn.
        repeat (split; [qs|]). qs.
    + rewrite (frame_empty s (Hrest eq_refl)), Hp. cbn.
      repeat (split; [qs|]). qs.
  - destruct (sourceEnded_fields src s)
      as (A1 & A2 & A3 & _ & A5 & A6 & A7 & _ & A9 & A10 & _ & _ & A13 & A14 & _).
    rewrite A1, A2, A3, A5, A6, A7, A9, A10, A13, A14.
    repeat (split; [qs|]). qs.
  - rewrite (resume_empty s (running_no_pending s Wm Hs)).
    repeat (split; [qs|]). qs.
  - destruct (parentRender_fields s) as (F1 & F2 & _ & F4).
    destruct (core_fields _ _ F1)
      as (C1 & C2 & C3 & _ & _ & _ & C7 & C8 & _ & _ & _ & C12 & _ & C14 & _ & _ & _ & C18).
    rewrite C1, C2, C3, C7, C8, C12, C14, C18, F2, F4.
    repeat (split; [qs|]).
    split.
    { intros Hp. rewrite Hp, (Hrest Hp). reflexivity. }
    repeat (split; [qs|]). qs.
Qed.

(** ** Lemmas for the claims *)

Lemma int16_le_range (lo hi : byte) :
  (-32768 <= Pcm.int16_le lo hi <= 32767)%Z.
Proof.
  unfold Pcm.int16_le.
  pose proof (Byte.to_N_bounded lo). pose proof (Byte.to_N_bounded hi).
  destruct (Z.ltb_spec
              (Z.of_N (Byte.to_N lo) + 256 * Z.of_N (Byte.to_N hi)) 32768);
    lia.
Qed.

Lemma normalize_range (v : Z) :
  (-32768 <= v <= 32767)%Z -> -1 <= Pcm.normalize v /\ Pcm.normalize v <= 1.
Proof.
  intros [H1 H2]. unfold Pcm.normalize.
  split.
  - apply Qle_shift_div_l; [reflexivity|].
    change (-1 * 32768) with (inject_Z (-32768)).
    rewrite <- Zle_Qle. lia.
  - apply Qle_shift_div_r; [reflexivity|].
    change (1 * 32768) with (inject_Z 32768).
    rewrite <- Zle_Qle. lia.
Qed.

Lemma samples16_even (n : nat) (bytes : list byte) :
  List.length bytes = (2 * n)%nat ->
  exists pcm,
    Pcm.samples16 bytes = Some pcm /\
    List.length pcm = n /\
    forall i, (i < n)%nat ->
      nth i pcm 0%Z
      = Pcm.int16_le (nth (2 * i) bytes x00) (nth (2 * i + 1) bytes x00).
Proof.
  revert bytes. induction n as [|n IH]; intros bytes Hlen.
  - destruct bytes; [|discriminate]. exists []. cbn.
    split; [reflexivity|]. split; [reflexivity|]. intros i Hi. lia.
  - destruct bytes as [|lo [|hi rest]]; cbn in Hlen; try lia.
    destruct (IH rest) as (pcm & Hs & Hl & Hnth); [lia|].
    exists (Pcm.int16_le lo hi :: pcm).
    split; [cbn; rewrite Hs; reflexivity|].
    split; [cbn; lia|].
    intros [|i] Hi; [reflexivity|].
    replace (2 * S i)%nat with (S (S (2 * i))) by lia.
    cbn [nth Nat.add]. replace (S (S (2 * i)) + 1)%nat with (S (S (2 * i + 1))) by lia.
    cbn [nth]. apply Hnth. lia.
Qed.




Lemma twin_step (same : Prop) (e : event) (a b : Session) :
  quiet e -> twin same a b -> twin same (step e a) (step e b).
Proof.
  intros He [Wa Wb Ra Rb Sa Sb Hp Hd Hc Oa Ob Hseg Qa Qb Hsame].
  destruct (quiet_spec e a Wa Ra Sa He Oa Qa)
    as (A1 & A2 & A3 & A4 & A5 & A6 & A7 & A8 & A9 & _).
  destruct (quiet_spec e b Wb Rb Sb He Ob Qb)
    as (B1 & B2 & B3 & B4 & B5 & B6 & B7 & B8 & B9 & _).
  assert (Hel : isPlaying a = true -> elapsed a == elapsed b).
  { intros P. unfold elapsed. rewrite (Oa P), (Ob (eq_trans (eq_sym Hp) P)).
    specialize (Hseg P). lra. }
  assert (Hdec : isPlaying a = true ->
                 Qle_bool (duration a) (elapsed a)
                 = Qle_bool (duration b) (elapsed b)).
  { intros P. apply Qle_bool_proper; [rewrite Hd; reflexivity|apply Hel; exact P]. }
  assert (Hel' : same -> isPlaying a = true -> elapsed a = elapsed b).
  { intros S P. destruct (Hsame S) as (_ & K1 & K2). unfold elapsed.
    rewrite K1, (K2 P), (Oa P), (Ob (eq_trans (eq_sym Hp) P)). reflexivity. }
  assert (P' : isPlaying (step e a) = isPlaying (step e b)).
  { rewrite A8, B8, <- Hp. destruct e; try reflexivity.
    destruct (isPlaying a) eqn:P; [|reflexivity]. rewrite (Hdec eq_refl).
    reflexivity. }
  constructor; try assumption.
  - apply wf_step; [apply quiet_ok|]; assumption.
  - apply wf_step; [apply quiet_ok|]; assumption.
  - congruence.
  - rewrite A9, B9, <- Hp. destruct e; try assumption.
    destruct (isPlaying a) eqn:P; [|assumption].
    rewrite <- (Hdec eq_refl).
    destruct (Qle_bool (duration a) (elapsed a)); [rewrite Hd; reflexivity|].
    apply Hel. reflexivity.
  - intros P. rewrite A4, A5, B4, B5.
    assert (Pa : isPlaying a = true).
    { rewrite A8 in P. destruct e; try assumption.
      apply andb_true_iff in P. apply P. }
    specialize (Hseg Pa). destruct e; try assumption. lra.
  - intros S. destruct (Hsame S) as (K0 & K1 & K2).
    split; [|split].
    + rewrite A9, B9, <- Hp. destruct e; try assumption.
      destruct (isPlaying a) eqn:P; [|assumption].
      rewrite <- (Hdec eq_refl), (Hel' S eq_refl), Hd. reflexivity.
    + rewrite A4, B4, K1. reflexivity.
    + intros P. rewrite A5, B5. apply K2.
      rewrite A8 in P. destruct e; try assumption.
      apply andb_true_iff in P. apply P.
Qed.

Lemma twin_trajectory (same : Prop) (es : list event) (a b : Session) :
  Forall quiet es -> twin same a b ->
  Forall2 Qeq (trajectory es a) (trajectory es b) /\
  (same -> trajectory es a = trajectory es b).
Proof.
  revert a b. induction es as [|e es IH]; intros a b Hes T; cbn.
  - split; [constructor|reflexivity].
  - inversion Hes as [|e' es' He Hes']; subst.
    pose proof (twin_step same e a b He T) as T'.
    destruct (IH _ _ Hes' T') as [I1 I2].
    split.
    + constructor; [apply (tw_current _ _ _ T')|assumption].
    + intros S. rewrite (I2 S).
      destruct (tw_same _ _ _ T' S) as (K & _). rewrite K. reflexivity.
Qed.

Lemma mount_untouched (engine : option ContextState) (payload : option string) :
  untouched (mount engine payload).
Proof.
  unfold mount, initAudio_begin, untouched.
  destruct payload as [[|c p]|]; [| destruct engine |]; cbn; repeat split.
Qed.

Lemma settled_untouched (s : Session) :
  untouched s -> untouched (step DecodeSettled s).
Proof.
  intros (H1 & H2 & H3 & H4 & H5). unfold untouched.
  unfold step, handle, exec. rewrite initAudio_resume_eq. cbn [snd].
  unfold settled, commit.
  destruct (decodePromise s) as [[b|err]|]; cbn; rewrite ?H1; cbn.
  - destruct (Qeq_bool (duration s) (buffer_duration b)); cbn;
      [|rewrite pollEffect_eq; cbn; rewrite H1; unfold disarmed; cbn];
      repeat split; assumption.
  - rewrite Qeq_bool_same. cbn. repeat split; assumption.
  - rewrite Qeq_bool_same. cbn. repeat split; assumption.
Qed.

Lemma waits_untouched (waits : list Q) (s : Session) :
  untouched s -> untouched (run (List.map ClockAdvance waits) s).
Proof.
  revert s. induction waits as [|dt waits IH]; intros s H; [exact H|].
  cbn [List.map]. rewrite run_cons. apply IH.
  destruct H as (H1 & H2 & H3 & H4 & H5).
  destruct (advance_fields dt s) as (A1 & _ & A3 & A4 & _ & A6 & _ & _ & A9 & _).
  unfold untouched. rewrite A1, A3, A4, A6, A9. repeat split; assumption.
Qed.

Lemma fresh_reachable (engine : option ContextState) (payload : option string)
    (waits : list Q) :
  Forall (fun dt => 0 <= dt) waits ->
  reachable (fresh_session engine payload waits).
Proof.
  unfold fresh_session. intros H.
  assert (R : reachable (step DecodeSettled (mount engine payload))).
  { apply reach_step; [apply reach_mount|exact I]. }
  revert R. generalize (step DecodeSettled (mount engine payload)).
  induction H as [|dt waits Hdt _ IH]; intros s R; [exact R|].
  cbn [List.map]. rewrite run_cons. apply IH. apply reach_step; assumption.
Qed.

(** A click on play in a resting session at time 0, seen once the context
    runs: whether the click had to wait for [ctx.resume()] or not, playback
    starts at the clock reading of the click, from offset 0. *)
Lemma play_settles (x : Session) :
  wf x -> isReady x = true -> isPlaying x = false ->
  currentTime x = 0 -> pauseTimeRef x = 0 ->
  let y := run [ClickToggle; ResumeSettled] x in
  wf y /\ isPlaying y = true /\ isReady y = true /\ suspended y = false /\
  duration y = duration x /\ clockOf y = clockOf x /\
  startTimeRef y = clockOf x /\ currentTime y = 0 /\ pauseTimeRef y = 0 /\
  audioBufferRef y = audioBufferRef x.
Proof.
  intros W Hr Hp Hc Ho y.
  assert (Wy : wf (step ResumeSettled (step ClickToggle x))).
  { apply (run_wf [ClickToggle; ResumeSettled]); [assumption|].
    repeat constructor. }
  pose proof (wf_mid x W) as Wm.
  pose proof (wf_duration x Wm Hr) as Hd.
  unfold y. cbn [run fold_left].
  destruct (suspended x) eqn:Hs.
  - assert (W1 : wf (step ClickToggle x)) by (apply wf_step; [exact I|assumption]).
    rewrite (park_fields x Hr Wm Hs) in *.
    set (p := set_resumePending _ x) in *.
    assert (Hne : resumePending p <> []).
    { unfold p. cbn. intros H. apply app_eq_nil in H. destruct H; discriminate. }
    destruct (resume_fields p W1 Hne)
      as (R1 & R2 & R3 & R4 & R5 & R6 & R7 & R8 & R9 & R10 & R11 & _).
    split; [assumption|].
    repeat (split; [first [assumption|reflexivity]|]). assumption.
  - assert (Hno : Qle_bool (duration x) (currentTime x) = false).
    { destruct (Qle_bool (duration x) (currentTime x)) eqn:E; [|reflexivity].
      apply Qle_bool_iff in E. rewrite Hc in E. lra. }
    destruct (play_fields x W Hr Hp Hs)
      as (P1 & P2 & P3 & P4 & P5 & _ & P7 & P8 & _ & P10 & P11 & P12 & P13 & _).
    rewrite Hno in P3, P4.
    assert (W1 : wf (step ClickToggle x)) by (apply wf_step; [exact I|assumption]).
    assert (Hpe : resumePending (step ClickToggle x) = []).
    { apply running_no_pending; [apply W1|assumption]. }
    rewrite (resume_empty _ Hpe) in *.
    split; [assumption|].
    repeat (split; [first [assumption|congruence]|]). assumption.
Qed.

(** On doubles too, the two trajectories are the same, bit for bit, when
    both plays read the same clock: restart leaves the time cells as a fresh
    session has them, up to [startTimeRef], which play overwrites. *)
Lemma binary64_same_clock_same_trajectory (duration : PrimFloat.float)
    (played : Binary64.Times) (now : Z) (advances : list Z) :
  Binary64.restart_then_play_is_fresh duration played now now advances.
Proof. reflexivity. Qed.

(** ** The claims *)

(** Claim C1 fails on the code.  A four-second buffer is played; while it
    plays the parent renders once (one keystroke in the notes box of [App]),
    which queues a second [updateProgress] beside the first.  When the clock
    has advanced by four seconds the next frame runs both callbacks, each
    sees [elapsed >= duration], and [onEnded] is called twice for one
    natural end. *)
Theorem natural_end_fires_twice :
  let s := run [ClickToggle; ResumeSettled; ParentRender; ClockAdvance 4]
             four_ready in
  let s' := step AnimationFrame s in
  isPlaying s = true /\
  duration s == 4 /\
  List.length (rafQueue s) = 2%nat /\
  onEndedCalls s = 0%nat /\
  isPlaying s' = false /\
  currentTime s' == 4 /\
  progress s' == 100 /\
  onEndedCalls s' = 2%nat.
Proof. vm_compute. repeat split; reflexivity. Qed.



(** Claim C3 fails on the code.  A four-second buffer is played, the
    parent renders once while it plays, and the session is paused after 3
    seconds: the offset kept is 3.  The callback queued before the parent's
    render is not cancelled by the pause; at the next frame, half a second
    into the pause, it computes [elapsed = 3.5 + 3], ends the playback,
    calls [onEnded] and resets the offset.  The second play starts at
    offset 0, and half a second later the poll reports 0.5, not 3.5. *)
Theorem stale_poll_loses_the_offset :
  let paused :=
    run [ClickToggle; ResumeSettled; ParentRender; ClockAdvance 3;
         AnimationFrame; ClickToggle] four_ready in
  let polled_in_pause := run [ClockAdvance (1 # 2); AnimationFrame] paused in
  let resumed := step ClickToggle polled_in_pause in
  let later := run [ClockAdvance (1 # 2); AnimationFrame] resumed in
  isPlaying paused = false /\
  pauseTimeRef paused == 3 /\
  currentTime paused == 3 /\
  List.length (rafQueue paused) = 1%nat /\
  onEndedCalls polled_in_pause = 1%nat /\
  pauseTimeRef polled_in_pause == 0 /\
  startedOf resumed = [(1%nat, 0)] /\
  isPlaying later = true /\
  currentTime later == 1 # 2 /\
  ~ currentTime later == 3 + (1 # 2).
Proof. vm_compute. repeat split; try reflexivity. discriminate. Qed.



(** Claim C5 as stated fails on the doubles the code computes with.  A
    fresh session is played when the context has rendered no block yet; a
    session that has played is restarted and played when the context has
    rendered 1000 blocks.  Both are polled 3 blocks (0.016 seconds) later:
    line 74 gives 0.016 in the first and 0.016000000000000014 in the
    second. *)
Lemma restart_trajectory_depends_on_clock_counterexample :
  let played :=
    Binary64.updateProgress Binary64.seconds4 (Binary64.clock 990)
      (Binary64.play Binary64.seconds4 (Binary64.clock 0) Binary64.initial) in
  ~ Binary64.restart_then_play_is_fresh Binary64.seconds4 played 1000 0 [3%Z].
Proof.
  intros played H. unfold Binary64.restart_then_play_is_fresh in H.
  pose proof (f_equal (fun l =>
    Binary64.same_head l
      (Binary64.trajectory Binary64.seconds4
         (List.map (fun q => Binary64.clock (0 + q)) [3%Z])
         (Binary64.play Binary64.seconds4 (Binary64.clock 0)
            Binary64.initial))) H) as E.
  vm_compute in E. discriminate E.
Qed.

(** Claim C5, as amended.  From any reachable ready session, restart
    followed by play (seen once the context runs) reports, over any further
    events other than clicks, the same sequence of [currentTime] values as
    the first play of a fresh session on the same buffer: equal as exact
    numbers for equal clock advances, and identical when the two plays
    happen at the same clock reading.  On doubles as well, the polls after
    restart and play report bit for bit what the polls of a fresh play
    report when both plays read the same clock. *)
Theorem restart_then_play_matches_fresh (s : Session)
    (engine : option ContextState) (payload : option string)
    (waits : list Q) (es : list event)
    (Hreach : reachable s)
    (Hready : isReady s = true)
    (Hwaits : Forall (fun dt => 0 <= dt) waits)
    (Hfresh : isReady (fresh_session engine payload waits) = true)
    (Hbuffer : audioBufferRef s
               = audioBufferRef (fresh_session engine payload waits))
    (Hes : Forall quiet es) :
  let a := run [ClickRestart; ClickToggle; ResumeSettled] s in
  let b := run [ClickToggle; ResumeSettled]
             (fresh_session engine payload waits) in
  Forall2 Qeq (trajectory es a) (trajectory es b) /\
  (clockOf s = clockOf (fresh_session engine payload waits) ->
   trajectory es a = trajectory es b) /\
  (forall (d : PrimFloat.float) (played : Binary64.Times) (now : Z)
          (advances : list Z),
     Binary64.restart_then_play_is_fresh d played now now advances).
Proof.
  set (f := fresh_session engine payload waits) in *.
  intros a b.
  cut (Forall2 Qeq (trajectory es a) (trajectory es b) /\
       (clockOf s = clockOf f -> trajectory es a = trajectory es b)).
  { intros [H1 H2]. split; [exact H1|]. split; [exact H2|].
    intros d played now advances.
    apply binary64_same_clock_same_trajectory. }
  apply twin_trajectory; [assumption|].
  pose proof (reachable_wf s Hreach) as Ws.
  pose proof (reachable_wf f (fresh_reachable engine payload waits Hwaits)) as Wf.
  assert (Uf : untouched f).
  { apply waits_untouched, settled_untouched, mount_untouched. }
  destruct Uf as (F1 & F2 & F3 & F4 & _).
  set (r := step ClickRestart s).
  assert (Wr : wf r) by (apply wf_handleRestart; assumption).
  destruct (restart_fields s)
    as (R1 & R2 & R3 & R4 & _ & _ & R7 & R8 & _ & R10 & R11 & _).
  fold r in R1, R2, R3, R4, R7, R8, R10, R11.
  assert (Rr : isReady r = true) by congruence.
  destruct (play_settles r Wr Rr R1 R3 R2)
    as (A1 & A2 & A3 & A4 & A5 & A6 & A7 & A8 & A9 & A10).
  destruct (play_settles f Wf Hfresh F1 F2 F4)
    as (B1 & B2 & B3 & B4 & B5 & B6 & B7 & B8 & B9 & B10).
  change (run [ClickToggle; ResumeSettled] r) with a in *.
  fold b in B1, B2, B3, B4, B5, B6, B7, B8, B9, B10.
  assert (Hdur : duration a = duration b).
  { rewrite A5, B5, R7.
    pose proof (wf_ready s (wf_mid s Ws)) as Hb. rewrite Hready in Hb.
    destruct (audioBufferRef s) as [buf|] eqn:E; [|discriminate].
    rewrite (wf_buffer s (wf_mid s Ws) buf E). symmetry.
    apply (wf_buffer f (wf_mid f Wf)). congruence. }
  constructor; try assumption.
  - congruence.
  - rewrite A8, B8. reflexivity.
  - intros _. assumption.
  - intros _. assumption.
  - intros _. rewrite A6, A7, B6, B7. ring.
  - intros H. congruence.
  - intros H. congruence.
  - intros H. split; [congruence|]. split; [congruence|].
    intros _. congruence.
Qed.

Lemma restart_then_play_matches_fresh_witness :
  let s := run [ClockAdvance (1 # 48000); AnimationFrame; ClickToggle]
             demo_playing in
  let es := [ClockAdvance (1 # 48000); AnimationFrame;
             ClockAdvance (1 # 48000); AnimationFrame] in
  Forall2 Qeq
    (trajectory es (run [ClickRestart; ClickToggle; ResumeSettled] s))
    (trajectory es
       (run [ClickToggle; ResumeSettled]
          (fresh_session (Some Running) (Some demo_payload) [1 # 1000]))).
Proof.
  intros s es.
  assert (Hreach : reachable s).
  { unfold s. cbn [run fold_left].
    do 3 (apply reach_step; [|cbn; try exact I; lra]).
    apply demo_playing_reachable. }
  assert (Hes : Forall quiet es).
  { unfold es. repeat constructor; cbn; lra. }
  assert (Hw : Forall (fun dt => 0 <= dt) [1 # 1000]).
  { repeat constructor. lra. }
  destruct (restart_then_play_matches_fresh s (Some Running)
              (Some demo_payload) [1 # 1000] es Hreach eq_refl Hw eq_refl
              eq_refl Hes) as [H _].
  exact H.
Defined.

(** Claim C6 fails on the code.  A four-second buffer is played, paused
    after 1 second and resumed, and the parent renders once, so that two
    callbacks poll.  At 3.98 seconds both report 3.98.  At the next frame,
    at 4 seconds, the first callback ends the playback and resets the
    offset to 0; the second, run in the same frame while the session is
    still committed as playing, computes [elapsed = 3] and reports it. *)
Theorem stale_poll_reports_earlier_time :
  let s :=
    run [ClickToggle; ResumeSettled; ClockAdvance 1; AnimationFrame;
         ClickToggle; ClickToggle; ParentRender; ClockAdvance (149 # 50)]
      four_ready in
  let earlier := step AnimationFrame s in
  let later := step AnimationFrame (step (ClockAdvance (1 # 50)) earlier) in
  isPlaying s = true /\
  isPlaying earlier = true /\
  currentTime earlier == 199 # 50 /\
  currentTime later == 3 /\
  progress later == 75 /\
  ~ currentTime earlier <= currentTime later.
Proof. vm_compute. repeat split; try reflexivity. intros H. apply H. reflexivity. Qed.




(** Claim C8.  While no decoded buffer exists, [togglePlay] returns
    normally and leaves the session exactly as it was, and so does the whole
    click, including what is rendered. *)
Theorem play_before_ready_is_ignored (s : Session)
    (Hnobuffer : audioBufferRef s = None) :
  togglePlay s = (Ok tt, s) /\
  step ClickToggle s = s /\
  render (step ClickToggle s) = render s.
Proof.
  assert (H : togglePlay s = (Ok tt, s)).
  { unfold togglePlay, bind, gets. rewrite Hnobuffer.
    destruct (audioContextRef s); reflexivity. }
  assert (H' : step ClickToggle s = s).
  { unfold step, handle, exec. rewrite H. apply commit_same. }
  split; [assumption|]. split; [assumption|]. rewrite H'. reflexivity.
Qed.

Lemma play_before_ready_is_ignored_witness :
  let s := mount (Some Suspended) (Some demo_payload) in
  isReady s = false /\ step ClickToggle s = s.
Proof.
  intros s. split; [reflexivity|].
  apply (play_before_ready_is_ignored s). reflexivity.
Defined.

(** Claim C9.  For a payload whose base64 decoding is a non-empty sequence
    of [2 * n] bytes, decoding at 24000 Hz succeeds with a buffer of exactly
    [n] frames; frame [i] is the little-endian signed 16-bit value of bytes
    [2 * i] and [2 * i + 1] divided by 32768 and lies in [-1, 1]; the
    duration is [n / 24000]. *)
Theorem decode_frames_and_duration (payload : string) (ctx : AudioContext)
    (bytes : list byte) (n : nat)
    (Hbase64 : Base64.atob payload = Some bytes)
    (Hlen : List.length bytes = (2 * n)%nat)
    (Hn : (0 < n)%nat)
    (Hrate : ctx_sampleRate ctx = 24000%Z) :
  exists buf,
    Pcm.decodeAudioData payload ctx = Ok buf /\
    buffer_length buf = n /\
    (forall i, (i < n)%nat ->
       let raw := Pcm.int16_le (nth (2 * i) bytes x00)
                    (nth (2 * i + 1) bytes x00) in
       nth i (channelData buf) 0 == inject_Z raw / 32768 /\
       -1 <= nth i (channelData buf) 0 /\
       nth i (channelData buf) 0 <= 1) /\
    buffer_duration buf == inject_Z (Z.of_nat n) / 24000.
Proof.
  destruct (samples16_even n bytes Hlen) as (pcm & Hs & Hl & Hnth).
  unfold Pcm.decodeAudioData. rewrite Hbase64, Hs.
  destruct pcm as [|v pcm]; [cbn in Hl; lia|].
  eexists. split; [reflexivity|].
  unfold buffer_duration, buffer_length. cbn [channelData sampleRate].
  rewrite length_map, Hl, Hrate.
  split; [reflexivity|]. split; [|reflexivity].
  intros i Hi.
  rewrite (nth_indep _ 0 (Pcm.normalize 0)) by (rewrite length_map; lia).
  rewrite (map_nth Pcm.normalize), (Hnth i Hi).
  split; [reflexivity|].
  apply normalize_range. apply int16_le_range.
Qed.

Lemma decode_frames_and_duration_witness :
  exists buf,
    Pcm.decodeAudioData demo_payload (mkAudioContext 24000 Running 0 [] 0)
    = Ok buf /\
    buffer_length buf = 2%nat /\
    buffer_duration buf == 1 # 12000.
Proof.
  assert (Hn : (0 < 2)%nat) by lia.
  destruct (decode_frames_and_duration demo_payload
              (mkAudioContext 24000 Running 0 [] 0)
              [x00; x00; xff; x7f] 2 eq_refl eq_refl Hn eq_refl)
    as (buf & Hok & Hlen & _ & Hdur).
  exists buf. split; [exact Hok|]. split; [exact Hlen|].
  rewrite Hdur. reflexivity.
Defined.



(** ** Further properties of the component *)

Lemma toggle_not_ready (s : Session) :
  audioBufferRef s = None -> step ClickToggle s = s.
Proof.
  intros H. unfold step, handle, exec, togglePlay, bind, gets. rewrite H.
  destruct (audioContextRef s); cbn [snd]; apply commit_same.
Qed.

(** What a settled decode leaves alone. *)
Lemma settle_fields (s : Session) :
  wf s ->
  let s' := step DecodeSettled s in
  isPlaying s' = isPlaying s /\ audioContextRef s' = audioContextRef s /\
  sourceNodeRef s' = sourceNodeRef s /\ rafQueue s' = rafQueue s /\
  onEndedCalls s' = onEndedCalls s /\ resumePending s' = resumePending s /\
  animationFrameRef s' = animationFrameRef s /\
  currentTime s' = currentTime s /\ progress s' = progress s /\
  pauseTimeRef s' = pauseTimeRef s /\ rafNext s' = rafNext s.
Proof.
  intros [W _ _] s'. unfold s'. clear s'.
  destruct (decodePromise s) as [o|] eqn:E.
  - destruct (wf_promise_idle s W) as [Hr _]; [congruence|].
    destruct (wf_idle s W Hr) as (I1 & _ & _ & _ & _ & _ & _ & I8 & _).
    unfold step, handle, exec. rewrite initAudio_resume_eq. cbn [snd].
    unfold commit. rewrite pollEffect_eq. unfold disarmed, settled. rewrite E.
    destruct o as [b|err]; cbn; rewrite I1, ?I8; cbn.
    + destruct (Qeq_bool (duration s) (buffer_duration b)); cbn.
      all: repeat split; first [assumption|reflexivity].
    + rewrite Qeq_bool_same. cbn. repeat split; first [assumption|reflexivity].
  - rewrite (settled_noop s E). repeat split.
Qed.

(** A frame keeps whatever the two branches of a callback and the two
    branches of the poll effect keep. *)
Lemma frame_induction (P : Session -> Prop) (s : Session) :
  P (set_rafQueue [] s) ->
  (forall cb x, P x -> P (ended cb x)) ->
  (forall cb x, P x -> P (polled cb x)) ->
  (forall x, P x -> P (armed x)) ->
  (forall x, P x -> P (disarmed x)) ->
  P (step AnimationFrame s).
Proof.
  intros H0 He Hp Ha Hd. unfold step, handle.
  assert (F : P (exec runFrame s)).
  { rewrite exec_runFrame. revert H0. generalize (set_rafQueue [] s).
    induction (rafQueue s) as [|e q IH]; intros x Hx; [exact Hx|].
    cbn [fold_left]. apply IH. rewrite exec_updateProgress.
    destruct (audioContextRef x); [|exact Hx].
    destruct (negb (cl_isPlaying (snd e))); [exact Hx|].
    destruct (Qle_bool _ _); [apply He|apply Hp]; exact Hx. }
  unfold commit. destruct (_ && _); [exact F|].
  rewrite pollEffect_eq. destruct (isPlaying _); [apply Ha|apply Hd]; exact F.
Qed.

Lemma stopped_silent (s : Session) :
  (forall e, In e (startedOf s) -> sourceNodeRef s = Some (fst e)) ->
  startedOf (stopped s) = [].
Proof.
  intros H. unfold stopped.
  destruct (sourceNodeRef s) as [src|] eqn:E.
  - unfold startedOf in *. cbn.
    destruct (audioContextRef s) as [c|]; cbn; [|reflexivity].
    induction (ctx_started c) as [|e l IH]; cbn; [reflexivity|].
    assert (He : fst e = src).
    { specialize (H e (or_introl eq_refl)). congruence. }
    rewrite He, Nat.eqb_refl. cbn. apply IH.
    intros e' H'. apply H. right. assumption.
  - destruct (startedOf s) as [|e l] eqn:El; [reflexivity|].
    specialize (H e (or_introl eq_refl)). discriminate.
Qed.

Lemma filter_length_le {A : Type} (f : A -> bool) (l : list A) :
  (List.length (filter f l) <= List.length l)%nat.
Proof.
  induction l as [|a l IH]; cbn; [lia|]. destruct (f a); cbn; lia.
Qed.

Lemma silent_audible (s : Session) : startedOf s = [] -> audible s.
Proof.
  intros H. constructor; rewrite H; cbn; [lia| |]; intros e [].
Qed.

Lemma audible_same (a b : Session) :
  startedOf b = startedOf a -> sourceNodeRef b = sourceNodeRef a ->
  audible a -> audible b.
Proof.
  intros H1 H2 [A1 A2 A3]. constructor; rewrite ?H1, ?H2; assumption.
Qed.

Lemma audible_mount (engine : option ContextState) (payload : option string) :
  audible (mount engine payload).
Proof.
  apply silent_audible. unfold mount, initAudio_begin.
  destruct payload as [[|a p]|]; [| destruct engine as [st|] |]; reflexivity.
Qed.

(** Once the context runs, the one-node discipline is kept by every
    event. *)
Lemma audible_step (e : event) (s : Session) :
  event_ok e -> wf s -> suspended s = false -> audible s ->
  audible (step e s) /\ suspended (step e s) = false.
Proof.
  intros He W Hs A. pose proof (wf_mid s W) as Wm.
  pose proof (stopped_silent s (aud_ref s A)) as Hsil.
  destruct e.
  - destruct (advance_fields dt s)
      as (_ & _ & _ & _ & _ & _ & _ & A8 & _ & _ & _ & _ & A13 & A14 & _).
    split; [|congruence]. apply (audible_same s); assumption.
  - destruct (settle_fields s W) as (_ & S2 & S3 & _).
    split; [|unfold suspended in *; rewrite S2; assumption].
    apply (audible_same s); [unfold startedOf; rewrite S2; reflexivity
                            |assumption|assumption].
  - destruct (isReady s) eqn:Hr.
    + destruct (isPlaying s) eqn:Hp.
      * destruct (pause_fields s W Hp)
          as (_ & _ & _ & _ & _ & P6 & _ & _ & _ & _ & _ & _ & _ & P14 & _).
        split; [|assumption]. apply silent_audible. congruence.
      * destruct (play_fields s W Hr Hp Hs)
          as (_ & _ & P3 & _ & _ & (id & Hid & Hst) & _ & _ & _ & _ & _ & P12 & _).
        split; [|assumption].
        assert (Hnone : startedOf s = []).
        { destruct (startedOf s) as [|x l] eqn:El; [reflexivity|].
          pose proof (aud_ref s A x) as Hx. rewrite El in Hx.
          specialize (Hx (or_introl eq_refl)).
          rewrite (wf_node s Wm Hp) in Hx. discriminate. }
        rewrite Hnone in Hst.
        constructor; rewrite Hst; cbn [List.length In]; [lia| |].
        -- intros x [<-|[]]. assumption.
        -- intros x [<-|[]]. cbn [snd]. rewrite P3.
           destruct (Qle_bool _ _); [lra|apply (wf_offset s Wm)].
    + pose proof (wf_ready s Wm) as Hb. rewrite Hr in Hb.
      rewrite toggle_not_ready by (destruct (audioBufferRef s); congruence).
      split; assumption.
  - destruct (restart_fields s)
      as (_ & _ & _ & _ & _ & R6 & _ & _ & _ & _ & _ & R12 & _).
    split; [|congruence]. apply silent_audible. congruence.
  - apply (frame_induction (fun x => audible x /\ suspended x = false)).
    + split; [|assumption]. apply (audible_same s); [reflexivity|reflexivity|].
      assumption.
    + intros cb x [Ax Sx].
      destruct (ended_more cb x) as (M1 & _ & _ & M4 & _).
      split; [|congruence]. apply silent_audible. rewrite M1.
      apply stopped_silent, (aud_ref x Ax).
    + intros cb x [Ax Sx]. split; [|assumption].
      apply (audible_same x); [reflexivity|reflexivity|assumption].
    + intros x [Ax Sx]. split; [|assumption].
      apply (audible_same x); [reflexivity|reflexivity|assumption].
    + intros x [Ax Sx]. split; [|assumption].
      apply (audible_same x); [reflexivity|reflexivity|assumption].
  - destruct (sourceEnded_fields src s)
      as (_ & _ & _ & _ & _ & _ & _ & S8 & _ & _ & _ & _ & _ & S14 & _ & _ & S17).
    split; [|congruence]. destruct A as [A1 A2 A3].
    constructor; rewrite S17.
    + pose proof (filter_length_le (fun e => negb (Nat.eqb (fst e) src))
                    (startedOf s)). lia.
    + intros x Hx. apply In_dropped in Hx. rewrite S8. apply A2, Hx.
    + intros x Hx. apply In_dropped in Hx. apply A3, Hx.
  - rewrite (resume_empty s (running_no_pending s Wm Hs)). split; assumption.
  - destruct (parentRender_fields s) as (C & _).
    destruct (core_fields _ _ C)
      as (_ & _ & _ & _ & C5 & _ & _ & _ & _ & _ & _ & _ & _ & _ & _ & C16 & _ & C18).
    split; [|congruence]. apply (audible_same s); assumption.
Qed.

Lemma audible_run (es : list event) (s : Session) :
  Forall event_ok es -> wf s -> suspended s = false -> audible s ->
  wf (run es s) /\ audible (run es s) /\ suspended (run es s) = false.
Proof.
  intros Hes. revert s. induction Hes as [|e es He _ IH]; intros s W Hs A.
  - split; [assumption|split; assumption].
  - rewrite run_cons. destruct (audible_step e s He W Hs A) as [A' Hs'].
    apply IH; [apply wf_step| |]; assumption.
Qed.

(** X1.  Once the context runs and at most one source node sounds, the
    one the ref holds (as right after mounting on a running context), this
    stays so under every later event: at most one node sounds, it is the
    node [sourceNodeRef] holds and it was started at a non-negative offset;
    while the session is not playing nothing sounds and the ref is empty;
    while it plays the context is running. *)
Theorem one_node_sounds (s : Session) (es : list event)
    (Hreach : reachable s)
    (Hrunning : suspended s = false)
    (Hone : audible s)
    (Hes : Forall event_ok es) :
  let s' := run es s in
  (List.length (startedOf s') <= 1)%nat /\
  (forall id off, In (id, off) (startedOf s') ->
     sourceNodeRef s' = Some id /\ 0 <= off) /\
  (isPlaying s' = false -> sourceNodeRef s' = None /\ startedOf s' = []) /\
  (isPlaying s' = true ->
     exists c, audioContextRef s' = Some c /\ ctx_state c = Running).
Proof.
  intros s'.
  destruct (audible_run es s Hes (reachable_wf s Hreach) Hrunning Hone)
    as (W & [A1 A2 A3] & Hs).
  fold s' in W, A1, A2, A3, Hs. pose proof (wf_mid s' W) as Wm.
  split; [assumption|]. split; [|split].
  - intros id off Hin. split.
    + apply (A2 (id, off) Hin).
    + apply (A3 (id, off) Hin).
  - intros Hp. pose proof (wf_node s' Wm Hp) as Hn.
    split; [assumption|].
    destruct (startedOf s') as [|x l] eqn:El; [reflexivity|].
    specialize (A2 x (or_introl eq_refl)). congruence.
  - intros Hp. destruct (wf_playing s' Wm Hp) as [Hr _].
    pose proof (wf_ctx s' Wm Hr) as Hc. unfold suspended in Hs.
    destruct (audioContextRef s') as [c|]; [|congruence].
    exists c. split; [reflexivity|]. destruct (ctx_state c); congruence.
Qed.

Lemma one_node_sounds_witness :
  let s := mount (Some Running) (Some demo_payload) in
  let s' := run [DecodeSettled; ClickToggle; ClickToggle; ClickToggle;
                 ParentRender; ClockAdvance 1; AnimationFrame] s in
  (List.length (startedOf s') <= 1)%nat /\ isPlaying s' = false.
Proof.
  intros s s'.
  assert (Hes : Forall event_ok
                  [DecodeSettled; ClickToggle; ClickToggle; ClickToggle;
                   ParentRender; ClockAdvance 1; AnimationFrame]).
  { repeat constructor. cbn. lra. }
  destruct (one_node_sounds s _ (reach_mount _ _) eq_refl
              (audible_mount _ _) Hes) as (H & _).
  split; [exact H|reflexivity].
Defined.

Lemma exec_togglePlay (s : Session) :
  exec togglePlay s =
  match audioContextRef s, audioBufferRef s with
  | Some ctx, Some _ =>
      match ctx_state ctx with
      | Suspended =>
          set_resumePending (resumePending s ++ [toggle_closure_of s]) s
      | Running => exec (togglePlay_rest (toggle_closure_of s)) s
      end
  | _, _ => s
  end.
Proof.
  unfold exec, togglePlay, bind, gets.
  destruct (audioContextRef s) as [c|]; [|reflexivity].
  destruct (audioBufferRef s); [|reflexivity].
  destruct (ctx_state c); reflexivity.
Qed.

Lemma single_loop_step (e : event) (s : Session) :
  wf s -> event_ok e -> is_render e = false ->
  single_loop s -> single_loop (step e s).
Proof.
  intros W He Hr L. pose proof (wf_mid s W) as Wm. unfold single_loop in *.
  destruct e; try discriminate.
  - destruct (advance_fields dt s)
      as (A1 & _ & _ & _ & A5 & _ & _ & _ & _ & A10 & _ & _ & _ & _ & A15 & _).
    unfold live. rewrite A1, A5, A10, A15. exact L.
  - destruct (isPlaying s) eqn:Hp.
    + destruct (wf_playing s Wm Hp) as [R _].
      rewrite (settled_noop s (ready_no_promise s Wm R)), Hp. exact L.
    + destruct (settle_fields s W) as (S1 & _ & _ & S4 & _).
      rewrite S1, S4, Hp. exact L.
  - destruct (isReady s) eqn:Rs.
    + destruct (suspended s) eqn:Hs.
      * rewrite (park_fields s Rs Wm Hs). exact L.
      * destruct (isPlaying s) eqn:Hp.
        -- destruct (pause_fields s W Hp)
             as (P1 & _ & _ & _ & _ & _ & _ & _ & _ & _ & _ & _ & _ & _ & _ & _ & P17).
           rewrite P1, P17, L. cbn. rewrite Nat.eqb_refl. reflexivity.
        -- destruct (play_fields s W Rs Hp Hs)
             as (P1 & _ & _ & _ & _ & _ & P7 & _ & _ & _ & _ & _ & _ & _ & P15 & P16).
           unfold live. rewrite P1, P15, P16, P7, L. reflexivity.
    + pose proof (wf_ready s Wm) as Hb. rewrite Rs in Hb.
      rewrite toggle_not_ready by (destruct (audioBufferRef s); congruence).
      exact L.
  - destruct (restart_fields s)
      as (R1 & _ & _ & _ & _ & _ & _ & _ & _ & _ & _ & _ & _ & _ & R15).
    rewrite R1, R15, L. destruct (isPlaying s); [|reflexivity].
    cbn. rewrite Nat.eqb_refl. reflexivity.
  - destruct (isPlaying s) eqn:Hp.
    + assert (Hq : rafQueue s <> []) by (rewrite L; discriminate).
      destruct (Qlt_le_dec (elapsed s) (duration s)) as [Hlt|Hge].
      * destruct (frame_polls s W Hq Hlt) as (C & _ & _ & F4 & F5).
        destruct (core_fields _ _ C) as (C1 & _ & _ & _ & _ & _ & _ & _ & _
          & _ & _ & _ & _ & _ & _ & _ & C17 & _).
        rewrite C1, Hp, C17. rewrite L in F4.
        cbv zeta in F4, F5.
        generalize dependent (rafQueue (step AnimationFrame s)).
        intros [|x [|y l]] F4 F5; try discriminate F4.
        destruct F5 as [F5|[]]. rewrite F5. reflexivity.
      * assert (Hone : (1 < List.length (rafQueue s))%nat ->
                       duration s <= clockOf s - startTimeRef s + 0).
        { rewrite L. cbn. lia. }
        destruct (frame_ends s W Hq Hge Hone) as (F1 & _ & _ & _ & _ & _ & F7 & _).
        rewrite F1, F7. reflexivity.
    + rewrite (frame_empty s L), Hp. exact L.
  - destruct (sourceEnded_fields src s)
      as (A1 & _ & _ & _ & A5 & _ & _ & _ & _ & A10 & _ & _ & _ & _ & A15 & _).
    unfold live. rewrite A1, A5, A10, A15. exact L.
  - destruct (resumePending s) as [|cb l] eqn:Hpe.
    + rewrite (resume_empty s Hpe). exact L.
    + assert (Hne : resumePending s <> []) by (rewrite Hpe; discriminate).
      destruct (resume_fields s W Hne)
        as (R1 & _ & _ & R4 & _ & _ & _ & _ & _ & _ & _ & _ & R13 & R14).
      unfold live. rewrite R1, R13, R14, R4. reflexivity.
Qed.

Lemma renders_cons (e : event) (es : list event) :
  renders (e :: es) = ((if is_render e then 1 else 0) + renders es)%nat.
Proof. unfold renders. cbn. destruct (is_render e); reflexivity. Qed.

Lemma toggles_cons (e : event) (es : list event) :
  toggles (e :: es) = ((if is_toggle e then 1 else 0) + toggles es)%nat.
Proof. unfold toggles. cbn. destruct (is_toggle e); reflexivity. Qed.





Lemma fold_potential (q : list (nat * Closure)) (x : Session) :
  let r := fold_left (fun s' e => exec (updateProgress (snd e)) s') q x in
  (onEndedCalls r + List.length (rafQueue r)
   <= onEndedCalls x + List.length (rafQueue x) + List.length q)%nat /\
  (onEndedCalls x <= onEndedCalls r)%nat /\
  resumePending r = resumePending x /\
  (isPlaying r = true -> isPlaying x = true) /\
  duration r = duration x.
Proof.
  revert x. induction q as [|e q IH]; intros x; cbn [fold_left List.length].
  - cbn zeta. repeat split; try reflexivity; try lia; intros H; exact H.
  - destruct (IH (exec (updateProgress (snd e)) x)) as (I1 & I2 & I3 & I4 & I5).
    cbn zeta in *.
    set (y := exec (updateProgress (snd e)) x) in *.
    assert (Hy : (onEndedCalls y + List.length (rafQueue y)
                  <= onEndedCalls x + List.length (rafQueue x) + 1)%nat /\
                 (onEndedCalls x <= onEndedCalls y)%nat /\
                 resumePending y = resumePending x /\
                 (isPlaying y = true -> isPlaying x = true) /\
                 duration y = duration x).
    { unfold y. rewrite exec_updateProgress.
      destruct (audioContextRef x);
        [|repeat split; try reflexivity; try lia; intros H; exact H].
      destruct (negb (cl_isPlaying (snd e)));
        [repeat split; try reflexivity; try lia; intros H; exact H|].
      destruct (Qle_bool _ _).
      - destruct (ended_fields (snd e) x)
          as (E1 & E2 & _ & _ & _ & _ & E7 & E8 & _ & _ & _ & _ & _ & _ & E15 & _).
        rewrite E1, E7, E8, E15, E2.
        repeat split; try reflexivity; try lia; discriminate.
      - destruct (polled_fields (snd e) x)
          as (P1 & P2 & _ & _ & _ & _ & P7 & P8 & _ & _ & _ & _ & _ & _ & P15 & _).
        rewrite P1, P2, P7, P8, P15, length_app. cbn [List.length].
        repeat split; try reflexivity; try lia; intros H; exact H. }
    destruct Hy as (Y1 & Y2 & Y3 & Y4 & Y5).
    split; [lia|]. split; [lia|]. split; [congruence|].
    split; [intros H; apply Y4, I4, H|congruence].
Qed.

Lemma potential_step (e : event) (s : Session) :
  wf s -> event_ok e ->
  (potential (step e s)
   <= potential s + (if is_toggle e then 1 else 0)
      + (if is_render e then 1 else 0))%nat /\
  (onEndedCalls s <= onEndedCalls (step e s))%nat.
Proof.
  intros W He. pose proof (wf_mid s W) as Wm. unfold potential.
  destruct e; cbn [is_toggle is_render].
  - destruct (advance_fields dt s)
      as (_ & _ & _ & _ & _ & _ & _ & _ & A9 & A10 & A11 & _).
    rewrite A9, A10, A11. lia.
  - destruct (settle_fields s W) as (_ & _ & _ & S4 & S5 & S6 & _).
    rewrite S4, S5, S6. lia.
  - destruct (isReady s) eqn:Rs.
    + destruct (suspended s) eqn:Hs.
      * rewrite (park_fields s Rs Wm Hs). cbn. rewrite length_app. cbn. lia.
      * destruct (isPlaying s) eqn:Hp.
        -- destruct (pause_fields s W Hp)
             as (_ & _ & _ & _ & _ & _ & _ & _ & _ & _ & P11 & _ & _ & _ & P15 & _ & P17).
           rewrite P11, P15, P17.
           pose proof (filter_length_le
             (fun e => negb (Nat.eqb (fst e) (animationFrameRef s)))
             (rafQueue s)). lia.
        -- destruct (play_fields s W Rs Hp Hs)
             as (_ & _ & _ & _ & _ & _ & _ & _ & P9 & _ & _ & _ & P13 & _ & P15 & _).
           rewrite P9, P13, P15, length_app. cbn. lia.
    + pose proof (wf_ready s Wm) as Hb. rewrite Rs in Hb.
      rewrite toggle_not_ready by (destruct (audioBufferRef s); congruence).
      lia.
  - destruct (restart_fields s)
      as (_ & _ & _ & _ & _ & _ & _ & _ & R9 & _ & _ & _ & R13 & _ & R15).
    rewrite R9, R13, R15.
    pose proof (filter_length_le
      (fun e => negb (Nat.eqb (fst e) (animationFrameRef s))) (rafQueue s)).
    destruct (isPlaying s); lia.
  - unfold step, handle. rewrite exec_runFrame.
    destruct (fold_potential (rafQueue s) (set_rafQueue [] s))
      as (F1 & F2 & F3 & F4 & F5).
    cbn zeta in *. set (r := fold_left _ _ _) in *.
    cbn [onEndedCalls rafQueue resumePending isPlaying duration set_rafQueue
         List.length] in *.
    rewrite (commit_eq s r F5).
    destruct (isPlaying r) eqn:Pr.
    + rewrite (F4 eq_refl). cbn. rewrite F3. lia.
    + destruct (Bool.eqb (isPlaying s) false); [rewrite F3; lia|].
      unfold disarmed. cbn. rewrite F3.
      pose proof (filter_length_le
        (fun e => negb (Nat.eqb (fst e) (animationFrameRef r))) (rafQueue r)).
      lia.
  - destruct (sourceEnded_fields src s)
      as (_ & _ & _ & _ & _ & _ & _ & _ & A9 & A10 & A11 & _).
    rewrite A9, A10, A11. lia.
  - destruct (resumePending s) as [|cb l] eqn:Hpe.
    + rewrite (resume_empty s Hpe), Hpe. lia.
    + assert (Hne : resumePending s <> []) by (rewrite Hpe; discriminate).
      destruct (resume_fields s W Hne)
        as (_ & _ & _ & _ & _ & _ & _ & _ & _ & R10 & _ & R12 & R13 & _).
      destruct (wf_pending s Wm Hne) as [Hs _].
      destruct (wf_suspended s Wm Hs) as (_ & _ & _ & _ & _ & _ & _ & H0).
      rewrite R10, R12, R13, H0. cbn. lia.
  - destruct (parentRender_fields s) as (C & _ & _ & P4).
    destruct (core_fields _ _ C) as (_ & _ & _ & _ & _ & _ & _ & _ & _
      & _ & C11 & C12 & _).
    rewrite C11, C12, P4.
    pose proof (filter_length_le
      (fun e => negb (Nat.eqb (fst e) (animationFrameRef s))) (rafQueue s)).
    destruct (isPlaying s); rewrite ?length_app; cbn; lia.
Qed.

Lemma potential_run (es : list event) (s : Session) :
  wf s -> Forall event_ok es ->
  (potential (run es s) <= potential s + toggles es + renders es)%nat /\
  (onEndedCalls s <= onEndedCalls (run es s))%nat.
Proof.
  intros W Hes. revert s W.
  induction Hes as [|e es He _ IH]; intros s W.
  - unfold toggles, renders. cbn. lia.
  - rewrite run_cons, toggles_cons, renders_cons.
    destruct (potential_step e s W He) as [H1 H2].
    destruct (IH (step e s) (wf_step e s He W)) as [H3 H4]. lia.
Qed.

(** X5.  Over any run of a mounted player the count of [onEnded] calls
    never decreases, and the calls made so far, plus the frame callbacks
    queued (at least one while it plays), plus the clicks waiting for
    [ctx.resume()], never exceed the clicks on the round button plus the
    renders of the parent: when the parent never renders again, [onEnded]
    fires at most once per started playback. *)
Theorem ended_at_most_once_per_play (engine : option ContextState)
    (payload : option string) (es : list event)
    (Hes : Forall event_ok es) :
  let s := run es (mount engine payload) in
  (onEndedCalls s + List.length (rafQueue s) + List.length (resumePending s)
   <= toggles es + renders es)%nat /\
  (playing_now s <= List.length (rafQueue s))%nat /\
  (renders es = 0%nat -> (onEndedCalls s + playing_now s <= toggles es)%nat) /\
  forall more, Forall event_ok more ->
    (onEndedCalls s <= onEndedCalls (run more s))%nat.
Proof.
  intros s.
  pose proof (wf_mount engine payload) as W.
  destruct (potential_run es (mount engine payload) W Hes) as [H1 _].
  assert (H0 : potential (mount engine payload) = 0%nat).
  { unfold potential, mount, initAudio_begin.
    destruct payload as [[|a p]|]; [| destruct engine as [st|] |]; reflexivity. }
  rewrite H0 in H1. fold s in H1. unfold potential in H1.
  assert (Ws : wf s) by (apply run_wf; assumption).
  assert (Hp : (playing_now s <= List.length (rafQueue s))%nat).
  { unfold playing_now. destruct (isPlaying s) eqn:P; [|lia].
    pose proof (wf_polling s Ws P) as Hin.
    destruct (rafQueue s); [destruct Hin|cbn; lia]. }
  split; [lia|]. split; [assumption|]. split; [lia|].
  intros more Hmore. apply (potential_run more s); assumption.
Qed.

Lemma ended_at_most_once_per_play_witness :
  let es := [DecodeSettled; ClickToggle; ParentRender; ClockAdvance 1;
             AnimationFrame] in
  let s := run es (mount (Some Running) (Some demo_payload)) in
  onEndedCalls s = 2%nat /\ toggles es = 1%nat /\ renders es = 1%nat.
Proof.
  intros es s.
  assert (Hes : Forall event_ok es).
  { unfold es. repeat constructor; cbn; lra. }
  destruct (ended_at_most_once_per_play (Some Running) (Some demo_payload)
              es Hes) as [H _].
  fold s in H. repeat split; reflexivity.
Defined.

(** X6.  With one poll loop, an end of playback that passed unnoticed
    before a pause is not lost.  If a playing session is paused when
    [elapsed >= duration] but before a poll saw it, the offset kept is at
    least the duration, the next play starts its node there without
    rewinding, and the first poll after it ends the session at
    [currentTime = duration] and calls [onEnded] once. *)
Theorem late_pause_still_ends (s : Session) (d dt : Q)
    (Hreach : reachable s)
    (Hplaying : isPlaying s = true)
    (Hloop : single_loop s)
    (Hpast : duration s <= elapsed s)
    (Hd : 0 <= d)
    (Hdt : 0 <= dt) :
  let paused := step ClickToggle s in
  let resumed := step ClickToggle (step (ClockAdvance d) paused) in
  let seen := step AnimationFrame (step (ClockAdvance dt) resumed) in
  duration s <= pauseTimeRef paused /\
  (exists id, sourceNodeRef resumed = Some id /\
              startedOf resumed
              = (id, pauseTimeRef paused) :: startedOf paused) /\
  isPlaying seen = false /\
  currentTime seen = duration s /\
  progress seen = 100 /\
  onEndedCalls seen = S (onEndedCalls s).
Proof.
  intros paused resumed seen.
  pose proof (reachable_wf s Hreach) as W.
  pose proof (wf_mid s W) as Wm.
  destruct (wf_playing s Wm Hplaying) as [Hready Hcur].
  destruct (pause_fields s W Hplaying)
    as (P1 & P2 & P3 & _ & _ & _ & _ & P8 & P9 & _ & P11 & _ & P13 & P14 & _ & _ & P17).
  fold paused in P1, P2, P3, P8, P9, P11, P13, P14, P17.
  assert (Pq : rafQueue paused = []).
  { rewrite P17. unfold single_loop in Hloop. rewrite Hloop, Hplaying. cbn.
    rewrite Nat.eqb_refl. reflexivity. }
  assert (Wp : wf paused) by (apply wf_step; [exact I|assumption]).
  assert (Rp : isReady paused = true) by congruence.
  destruct (advance_fields d paused)
    as (A1 & A2 & A3 & _ & A5 & A6 & _ & _ & A9 & A10 & _ & _ & A13 & A14 & _).
  set (waited := step (ClockAdvance d) paused) in *.
  assert (Ww : wf waited) by (apply wf_step; assumption).
  assert (Rw : isReady waited = true) by congruence.
  assert (Pw : isPlaying waited = false) by congruence.
  assert (Sw : suspended waited = false) by congruence.
  destruct (play_fields waited Ww Rw Pw Sw)
    as (R1 & R2 & R3 & _ & _ & R6 & R7 & R8 & R9 & _ & R11 & R12 & _ & _ & R15 & _).
  fold resumed in R1, R2, R3, R6, R7, R8, R9, R11, R12, R15.
  assert (Hnot : Qle_bool (duration waited) (currentTime waited) = false).
  { destruct (Qle_bool (duration waited) (currentTime waited)) eqn:E;
      [|reflexivity].
    apply Qle_bool_iff in E. rewrite A5, A3, P8, P3 in E. lra. }
  rewrite Hnot in R3.
  assert (Wr : wf resumed) by (apply wf_step; [exact I|assumption]).
  assert (Rr : isReady resumed = true) by congruence.
  destruct (advance_fields dt resumed)
    as (B1 & _ & _ & _ & B5 & B6 & B7 & _ & B9 & B10 & _ & _ & _ & _ & _ & _ & B17).
  set (later := step (ClockAdvance dt) resumed) in *.
  specialize (B17 (wf_ctx resumed (wf_mid resumed Wr) Rr)).
  assert (Wl : wf later) by (apply wf_step; assumption).
  assert (Ql : rafQueue later = [(rafNext waited, live waited)]).
  { rewrite B10, R15, A10, Pq. reflexivity. }
  assert (Hoff : duration s <= pauseTimeRef paused).
  { rewrite P2. unfold elapsed in Hpast. lra. }
  assert (Hend : duration later <= elapsed later).
  { unfold elapsed. rewrite B5, B6, B7, B17, R7, R2, R3, R8, A5, A6, P8. lra. }
  assert (Hq : rafQueue later <> []) by (rewrite Ql; discriminate).
  assert (Hone : (1 < List.length (rafQueue later))%nat ->
                 duration later <= clockOf later - startTimeRef later + 0).
  { rewrite Ql. cbn. lia. }
  destruct (frame_ends later Wl Hq Hend Hone)
    as (F1 & F2 & F3 & _ & _ & F6 & _).
  fold seen in F1, F2, F3, F6.
  split; [assumption|].
  split.
  { destruct R6 as [id [Hid Hst]]. exists id. split; [assumption|].
    rewrite Hst, R3, A6, A13. reflexivity. }
  split; [assumption|].
  split; [congruence|].
  split; [assumption|].
  rewrite F6, Ql, B9, R9, A9, P11. cbn. lia.
Qed.

Lemma late_pause_still_ends_witness :
  let s := run [ClockAdvance 1] demo_playing in
  let seen :=
    step AnimationFrame
      (step (ClockAdvance 0)
         (step ClickToggle (step (ClockAdvance 2) (step ClickToggle s)))) in
  currentTime s < duration s /\
  onEndedCalls s = 0%nat /\ onEndedCalls seen = 1%nat.
Proof.
  intros s seen.
  assert (Hreach : reachable s).
  { unfold s. cbn [run fold_left].
    apply reach_step; [apply demo_playing_reachable|cbn; lra]. }
  assert (Hp : isPlaying s = true) by reflexivity.
  assert (Hloop : single_loop s) by reflexivity.
  assert (Hpast : duration s <= elapsed s) by (vm_compute; discriminate).
  assert (H2 : 0 <= 2) by lra.
  assert (H0 : 0 <= 0) by lra.
  destruct (late_pause_still_ends s 2 0 Hreach Hp Hloop Hpast H2 H0)
    as (_ & _ & _ & _ & _ & Hn).
  split; [vm_compute; reflexivity|].
  split; [reflexivity|exact Hn].
Defined.

Lemma restart_twice (s : Session) :
  step ClickRestart (step ClickRestart s) = step ClickRestart s.
Proof.
  destruct (restart_fields s) as (R1 & R2 & R3 & R4 & R5 & _).
  set (r := step ClickRestart s) in *.
  unfold step at 1. unfold handle, exec, handleRestart, bind.
  rewrite stopAudio_eq. unfold stopped. rewrite R5.
  unfold setIsPlaying, setCurrentTime, setProgress, modify, commit.
  cbn [snd fst isPlaying duration set_progress set_currentTime
       set_pauseTimeRef set_isPlaying].
  rewrite R1, Qeq_bool_same. cbn [Bool.eqb andb].
  clearbody r. destruct r. cbn in *. subst. reflexivity.
Qed.

Lemma node_running_started (src : nat) (s : Session) :
  node_running src s
  = existsb (fun e => Nat.eqb (fst e) src) (startedOf s).
Proof.
  unfold node_running, startedOf, is_started.
  destruct (audioContextRef s); reflexivity.
Qed.

(** X7.  Restart from any reachable session lands in the same resting
    state: not playing, at time 0 and progress 0 with no offset kept and no
    node referenced; the node the ref held no longer sounds, and the frame
    callback [animationFrameRef] names is cancelled if the session was
    playing.  So nothing sounds if only the referenced node did, and nothing
    is queued if there was one poll loop.  The audio clock and the count of
    [onEnded] calls are untouched; a second restart changes nothing. *)
Theorem restart_rests_at_zero (s : Session) (Hreach : reachable s) :
  let r := step ClickRestart s in
  isPlaying r = false /\
  currentTime r = 0 /\
  progress r = 0 /\
  pauseTimeRef r = 0 /\
  sourceNodeRef r = None /\
  (forall src, sourceNodeRef s = Some src -> node_running src r = false) /\
  (audible s -> startedOf r = []) /\
  (single_loop s -> rafQueue r = []) /\
  clockOf r = clockOf s /\
  onEndedCalls r = onEndedCalls s /\
  step ClickRestart r = r.
Proof.
  intros r.
  destruct (restart_fields s)
    as (R1 & R2 & R3 & R4 & R5 & R6 & _ & R8 & R9 & _ & _ & _ & _ & _ & R15).
  fold r in R1, R2, R3, R4, R5, R6, R8, R9, R15.
  repeat (split; [assumption|]).
  split.
  { intros src Hsrc. rewrite node_running_started, R6.
    rewrite <- node_running_started. apply stopped_not_running, Hsrc. }
  split.
  { intros A. rewrite R6. apply stopped_silent, (aud_ref s A). }
  split.
  { intros L. unfold single_loop in L. rewrite R15, L.
    destruct (isPlaying s); [|reflexivity].
    cbn. rewrite Nat.eqb_refl. reflexivity. }
  repeat (split; [assumption|]).
  apply restart_twice.
Qed.

Lemma restart_rests_at_zero_witness :
  let s := run [ClockAdvance (1 # 48000); AnimationFrame] demo_playing in
  currentTime s == 1 # 24000 /\
  currentTime (step ClickRestart s) = 0 /\
  isPlaying (step ClickRestart s) = false.
Proof.
  intros s.
  assert (Hreach : reachable s).
  { unfold s. cbn [run fold_left].
    apply reach_step; [|exact I].
    apply reach_step; [|cbn; lra].
    apply demo_playing_reachable. }
  destruct (restart_rests_at_zero s Hreach) as (H1 & H2 & _).
  split; [vm_compute; reflexivity|]. split; assumption.
Defined.









Lemma inert_step (log : list (string * exn)) (e : event) (s : Session) :
  inert log s -> inert log (step e s).
Proof.
  intros (D & C & G). split; [apply dead_step; assumption|].
  destruct e.
  - rewrite step_clockAdvance. cbn. rewrite C. auto.
  - destruct D as (_ & _ & D3 & _). rewrite (settled_noop s D3). auto.
  - rewrite (dead_toggle log s D). auto.
  - rewrite (dead_restart log s D). auto.
  - rewrite frame_empty; [auto|apply D].
  - rewrite step_sourceEnded. cbn. rewrite C. auto.
  - rewrite resume_empty; [auto|apply D].
  - rewrite parentRender_idle; [auto| |]; apply D.
Qed.

Lemma inert_run (log : list (string * exn)) (es : list event) (s : Session) :
  inert log s -> inert log (run es s).
Proof.
  revert s. induction es as [|e es IH]; intros s H; [exact H|].
  rewrite run_cons. apply IH, inert_step, H.
Qed.

(** X8.  With an absent payload [initAudio] returns at once: no audio
    context or gain node is created, nothing is logged, the player shows
    the loading placeholder and stays that way under every later event;
    [onEnded] is never called. *)
Theorem absent_payload_stays_idle (engine : option ContextState)
    (base64Audio : option string) (es : list event)
    (Habsent : absent base64Audio = true) :
  let s := run es (mount engine base64Audio) in
  audioContextRef s = None /\
  gainNodeRef s = None /\
  decodePromise s = None /\
  console s = [] /\
  render s = LoadingAudio /\
  onEndedCalls s = 0%nat.
Proof.
  intros s.
  assert (H : inert [] (mount engine base64Audio)).
  { destruct base64Audio as [[|c p]|]; try discriminate;
      unfold inert, dead, mount, initAudio_begin; cbn; repeat split. }
  destruct (inert_run [] es _ H)
    as ((D1 & _ & D3 & _ & _ & _ & _ & _ & D9 & _ & _ & D12) & C & G).
  fold s in D1, D3, D9, D12, C, G.
  repeat (split; [assumption|]).
  split; [|assumption]. unfold render. rewrite D1. reflexivity.
Qed.

Lemma absent_payload_stays_idle_witness :
  let s := run [DecodeSettled; ClickToggle; ClockAdvance 1; AnimationFrame]
             (mount (Some Running) (Some EmptyString)) in
  render s = LoadingAudio /\ audioContextRef s = None.
Proof.
  intros s.
  destruct (absent_payload_stays_idle (Some Running) (Some EmptyString)
              [DecodeSettled; ClickToggle; ClockAdvance 1; AnimationFrame]
              eq_refl) as (H1 & _ & _ & _ & H5 & _).
  split; assumption.
Defined.

(** X9.  When the host cannot make an audio context, the constructor's
    exception is caught by the same handler as a decode failure: it is
    logged once as "Audio decoding failed", the decode is never started, no
    context is kept, and the player stays on the loading placeholder. *)
Theorem engine_failure_is_logged_as_decode_failure
    (first : ascii) (rest : string) (es : list event) :
  let s := run es (mount None (Some (String first rest))) in
  console s = [("Audio decoding failed"%string, EngineUnavailable)] /\
  audioContextRef s = None /\
  decodePromise s = None /\
  isReady s = false /\
  render s = LoadingAudio /\
  onEndedCalls s = 0%nat.
Proof.
  intros s.
  assert (H : inert [("Audio decoding failed"%string, EngineUnavailable)]
                (mount None (Some (String first rest)))).
  { unfold inert, dead, mount, initAudio_begin; cbn; repeat split. }
  destruct (inert_run _ es _ H)
    as ((D1 & _ & D3 & _ & _ & _ & _ & _ & D9 & _ & _ & D12) & C & G).
  fold s in D1, D3, D9, D12, C, G.
  repeat (split; [assumption|]).
  split; [|assumption]. unfold render. rewrite D1. reflexivity.
Qed.

Lemma decode_shape (payload : string) (ctx : AudioContext)
    (bytes : list byte) (n : nat) :
  Base64.atob payload = Some bytes ->
  List.length bytes = (2 * n)%nat -> (0 < n)%nat ->
  exists buf,
    Pcm.decodeAudioData payload ctx = Ok buf /\
    buffer_length buf = n /\ sampleRate buf = ctx_sampleRate ctx.
Proof.
  intros Hb Hlen Hn.
  destruct (samples16_even n bytes Hlen) as (pcm & Hs & Hl & _).
  unfold Pcm.decodeAudioData. rewrite Hb, Hs.
  destruct pcm as [|v pcm]; [cbn in Hl; lia|].
  eexists. split; [reflexivity|]. unfold buffer_length. cbn [channelData sampleRate].
  rewrite length_map. split; [assumption|reflexivity].
Qed.

(** X10.  A payload that decodes to [n > 0] samples brings the player up:
    after mounting it shows the loading placeholder; once the decode has
    settled it is ready with the decoded buffer of [n] frames, a duration of
    [n / 24000] seconds, and shows the transport paused at 0 percent with
    nothing logged and no poll queued. *)
Theorem decoded_payload_shows_transport (engine : ContextState)
    (payload : string) (bytes : list byte) (n : nat)
    (Hbase64 : Base64.atob payload = Some bytes)
    (Hlen : List.length bytes = (2 * n)%nat)
    (Hn : (0 < n)%nat) :
  let m := mount (Some engine) (Some payload) in
  let s := step DecodeSettled m in
  render m = LoadingAudio /\
  isReady s = true /\
  (exists buf, audioBufferRef s = Some buf /\ buffer_length buf = n) /\
  duration s == inject_Z (Z.of_nat n) / 24000 /\
  render s = Transport 0 false /\
  console s = [] /\
  rafQueue s = [].
Proof.
  intros m s.
  destruct payload as [|c p].
  { cbn in Hbase64. injection Hbase64 as <-. cbn in Hlen. lia. }
  destruct (decode_shape (String c p) (mkAudioContext 24000 engine 0 [] 0)
              bytes n Hbase64 Hlen Hn) as (buf & Hok & Hbl & Hsr).
  cbn in Hsr.
  assert (Hm : m = mkSession false 0 0 0 false
                 (Some (mkAudioContext 24000 engine 0 [] 0)) None None 0 0
                 0%nat (Some (mkGainNode true)) (Some (Ok buf)) [] [] 1%nat
                 0%nat []).
  { unfold m, mount, initAudio_begin, exec, pollEffect, try_catch, bind, gets,
      modify, newAudioContext, createGain_connected, ret,
      cancelAnimationFrame.
    cbn. rewrite Hok. reflexivity. }
  assert (Hd : 0 < buffer_duration buf).
  { apply buffer_duration_pos; [rewrite Hsr; lia|lia]. }
  assert (Hq : Qeq_bool 0 (buffer_duration buf) = false).
  { destruct (Qeq_bool 0 (buffer_duration buf)) eqn:E; [|reflexivity].
    apply Qeq_bool_iff in E. lra. }
  assert (Hs : s = mkSession false 0 (buffer_duration buf) 0 true
                 (Some (mkAudioContext 24000 engine 0 [] 0)) None (Some buf)
                 0 0 0%nat (Some (mkGainNode true)) None [] [] 1%nat 0%nat []).
  { unfold s, step, handle, exec. rewrite initAudio_resume_eq. cbn [snd].
    rewrite Hm. unfold settled, commit. cbn. rewrite Hq. reflexivity. }
  split; [rewrite Hm; reflexivity|].
  rewrite Hs. cbn.
  split; [reflexivity|].
  split; [exists buf; split; [reflexivity|assumption]|].
  split.
  { unfold buffer_duration. rewrite Hbl, Hsr. reflexivity. }
  repeat split.
Qed.

Lemma decoded_payload_shows_transport_witness :
  let s := step DecodeSettled (mount (Some Suspended) (Some demo_payload)) in
  render s = Transport 0 false /\ duration s == 1 # 12000.
Proof.
  intros s.
  assert (Hn : (0 < 2)%nat) by lia.
  destruct (decoded_payload_shows_transport Suspended demo_payload
              [x00; x00; xff; x7f] 2 eq_refl eq_refl Hn)
    as (_ & _ & _ & Hd & Hr & _).
  split; [exact Hr|]. fold s in Hd. rewrite Hd. reflexivity.
Defined.

Lemma raf_ids_armed (x : Session) : raf_ids x -> raf_ids (armed x).
Proof.
  intros [I1 I2]. unfold armed, raf_ids. cbn. split; [lia|].
  intros e He. apply in_app_or in He. destruct He as [He|[<-|[]]].
  - apply I2, He.
  - cbn. assumption.
Qed.

Lemma raf_ids_disarmed (x : Session) : raf_ids x -> raf_ids (disarmed x).
Proof.
  intros [I1 I2]. unfold disarmed, raf_ids. cbn. split; [assumption|].
  intros e He. apply In_cancelled in He. apply I2, He.
Qed.

Lemma raf_ids_commit (s r : Session) : raf_ids r -> raf_ids (commit s r).
Proof.
  intros H. unfold commit. destruct (_ && _); [assumption|].
  rewrite pollEffect_eq.
  destruct (isPlaying r); [apply raf_ids_armed|apply raf_ids_disarmed];
    assumption.
Qed.

Lemma raf_ids_same (s r : Session) :
  rafNext r = rafNext s -> rafQueue r = rafQueue s -> raf_ids s -> raf_ids r.
Proof. unfold raf_ids. intros -> ->. auto. Qed.

Lemma raf_ids_mount (engine : option ContextState) (payload : option string) :
  raf_ids (mount engine payload).
Proof.
  unfold mount, initAudio_begin.
  destruct payload as [[|a p]|]; [| destruct engine as [st|] |];
    unfold raf_ids; cbn; split; first [lia|intros e []].
Qed.

Lemma raf_ids_step (e : event) (s : Session) :
  raf_ids s -> raf_ids (step e s).
Proof.
  intros H. destruct e.
  - rewrite step_clockAdvance. exact H.
  - unfold step, handle. apply raf_ids_commit.
    unfold exec. rewrite initAudio_resume_eq. cbn [snd].
    apply (raf_ids_same s); [| |exact H];
      unfold settled; destruct (decodePromise s) as [[b|err]|]; reflexivity.
  - unfold step, handle. apply raf_ids_commit. rewrite exec_togglePlay.
    destruct (audioContextRef s) as [c|]; [|exact H].
    destruct (audioBufferRef s); [|exact H].
    destruct (ctx_state c); [exact H|].
    destruct (rest_keeps_queue (toggle_closure_of s) s) as (K1 & K2 & _).
    apply (raf_ids_same s); assumption.
  - unfold step, handle. apply raf_ids_commit.
    apply (raf_ids_same s); [| |exact H];
      unfold exec, handleRestart, bind; rewrite stopAudio_eq;
      unfold stopped; destruct (sourceNodeRef s); reflexivity.
  - apply (frame_induction raf_ids).
    + destruct H as [I1 I2]. split; [assumption|]. intros e [].
    + intros cb x Hx.
      destruct (ended_fields cb x)
        as (E1 & _ & _ & _ & _ & _ & _ & _ & _ & _ & E11 & _).
      apply (raf_ids_same x); assumption.
    + intros cb x [I1 I2].
      destruct (polled_fields cb x)
        as (P1 & _ & _ & _ & _ & _ & _ & _ & _ & _ & P11 & _).
      unfold raf_ids. rewrite P1, P11. split; [lia|].
      intros e He. apply in_app_or in He. destruct He as [He|[<-|[]]].
      * apply I2, He.
      * cbn. assumption.
    + apply raf_ids_armed.
    + apply raf_ids_disarmed.
  - rewrite step_sourceEnded. exact H.
  - unfold step, handle. apply raf_ids_commit. rewrite exec_resumeSettled.
    destruct (resumePending s) as [|cb l]; [exact H|].
    destruct (rest_fold_keeps_queue (cb :: l)
                (exec ctx_resume (set_resumePending [] s)))
      as (K1 & K2 & _).
    apply (raf_ids_same s); [rewrite K1|rewrite K2|exact H]; reflexivity.
  - unfold step, parentRender. rewrite pollEffect_eq.
    destruct (isPlaying s); [apply raf_ids_armed|apply raf_ids_disarmed];
      assumption.
Qed.

Lemma reachable_raf_ids (s : Session) : reachable s -> raf_ids s.
Proof.
  induction 1 as [engine payload|e s Hs IH He].
  - apply raf_ids_mount.
  - apply raf_ids_step; assumption.
Qed.

Lemma filter_keeps_all {A : Type} (f : A -> bool) (l : list A) :
  (forall a, In a l -> f a = true) -> filter f l = l.
Proof.
  induction l as [|a l IH]; intros H; cbn; [reflexivity|].
  rewrite (H a (or_introl eq_refl)). f_equal. apply IH.
  intros b Hb. apply H. right. assumption.
Qed.

Lemma unmounted_run (es : list event) (s : Session) :
  rafQueue s = [] -> Forall after_unmount es ->
  rafQueue (run es s) = [] /\
  onEndedCalls (run es s) = onEndedCalls s /\
  currentTime (run es s) = currentTime s /\
  progress (run es s) = progress s /\
  isPlaying (run es s) = isPlaying s.
Proof.
  intros H Hes. revert s H.
  induction Hes as [|e es He _ IH]; intros s H; [auto|].
  rewrite run_cons.
  assert (S1 : rafQueue (step e s) = [] /\
               onEndedCalls (step e s) = onEndedCalls s /\
               currentTime (step e s) = currentTime s /\
               progress (step e s) = progress s /\
               isPlaying (step e s) = isPlaying s).
  { destruct e; cbn in He; try contradiction.
    - rewrite step_clockAdvance. cbn. auto.
    - rewrite (frame_empty s H). auto.
    - rewrite step_sourceEnded. cbn. auto. }
  destruct S1 as (A1 & A2 & A3 & A4 & A5).
  destruct (IH (step e s) A1) as (B1 & B2 & B3 & B4 & B5).
  repeat split; congruence.
Qed.

(** X11.  Unmounting a reachable player: the cleanup returns normally,
    the closed context plays no source, and exactly the frame callback
    [animationFrameRef] names is cancelled.  With one poll loop nothing is
    left queued: afterwards animation frames and clock advances change
    neither [currentTime] nor [progress], and [onEnded] is not called
    again. *)
Theorem unmount_leaves_nothing_running (s : Session) (es : list event)
    (Hreach : reachable s)
    (Hloop : single_loop s)
    (Hes : Forall after_unmount es) :
  let u := exec cleanup s in
  returns cleanup s = true /\
  startedOf u = [] /\
  rafQueue u
  = filter (fun e => negb (Nat.eqb (fst e) (animationFrameRef s)))
      (rafQueue s) /\
  rafQueue u = [] /\
  onEndedCalls (run es u) = onEndedCalls s /\
  currentTime (run es u) = currentTime s /\
  progress (run es u) = progress s.
Proof.
  intros u.
  destruct (reachable_raf_ids s Hreach) as [I1 I2].
  assert (Hu : returns cleanup s = true /\ startedOf u = [] /\
               rafQueue u
               = filter (fun e => negb (Nat.eqb (fst e) (animationFrameRef s)))
                   (rafQueue s) /\
               onEndedCalls u = onEndedCalls s /\
               currentTime u = currentTime s /\ progress u = progress s).
  { unfold u, returns, exec, cleanup, ctx_close, update_ctx,
      cancelAnimationFrame, bind, gets, modify, ret, startedOf.
    destruct (audioContextRef s) as [c|] eqn:Hc; cbn;
      destruct (Nat.eqb (animationFrameRef s) 0) eqn:Hz; cbn;
      rewrite ?Hc; cbn; repeat split.
    all: apply Nat.eqb_eq in Hz; rewrite Hz; symmetry; apply filter_keeps_all.
    all: intros e He; specialize (I2 e He);
      destruct (Nat.eqb_spec (fst e) 0); [lia|reflexivity]. }
  destruct Hu as (U1 & U2 & U3 & U4 & U5 & U6).
  assert (U7 : rafQueue u = []).
  { rewrite U3. unfold single_loop in Hloop. rewrite Hloop.
    destruct (isPlaying s); [|reflexivity].
    cbn. rewrite Nat.eqb_refl. reflexivity. }
  destruct (unmounted_run es u U7 Hes) as (_ & R2 & R3 & R4 & _).
  repeat (split; [assumption|]).
  split; [congruence|]. split; congruence.
Qed.

Lemma unmount_leaves_nothing_running_witness :
  let u := exec cleanup demo_playing in
  List.length (rafQueue demo_playing) = 1%nat /\
  rafQueue u = [] /\
  currentTime (run [ClockAdvance 1; AnimationFrame] u)
  = currentTime demo_playing.
Proof.
  intros u.
  assert (Hes : Forall after_unmount [ClockAdvance 1; AnimationFrame]).
  { repeat constructor. }
  assert (Hloop : single_loop demo_playing) by reflexivity.
  destruct (unmount_leaves_nothing_running demo_playing
              [ClockAdvance 1; AnimationFrame] demo_playing_reachable
              Hloop Hes)
    as (_ & _ & _ & H4 & _ & H6 & _).
  split; [reflexivity|]. split; assumption.
Defined.

(** ** What the claims on the poll loop say when there is one loop *)

Lemma toggle_onEnded (t : Session) :
  onEndedCalls (exec togglePlay t) = onEndedCalls t.
Proof.
  rewrite exec_togglePlay.
  destruct (audioContextRef t) as [c|]; [|reflexivity].
  destruct (audioBufferRef t); [|reflexivity].
  destruct (ctx_state c); [reflexivity|].
  apply (rest_keeps_queue (toggle_closure_of t) t).
Qed.

Lemma restart_onEnded (t : Session) :
  onEndedCalls (exec handleRestart t) = onEndedCalls t.
Proof.
  unfold exec, handleRestart, bind. rewrite stopAudio_eq.
  unfold stopped. destruct (sourceNodeRef t); reflexivity.
Qed.

(** X20.  Claim C1 with one poll loop.  When the poll of a playing session
    with one poll loop observes [elapsed >= duration], the frame sets
    [currentTime] to exactly [duration] and [progress] to 100, resets
    [pauseTimeRef] to 0, clears the node ref and stops that node, leaves the
    playing state with no frame callback queued, and calls [onEnded] once.
    No later event other than a click on play makes [onEnded] fire again, and
    neither [togglePlay], before or after its [await], nor [handleRestart]
    ever calls it. *)
Theorem single_loop_end_fires_once (s : Session)
    (Hreach : reachable s)
    (Hplaying : isPlaying s = true)
    (Hloop : single_loop s)
    (Hend : duration s <= elapsed s) :
  let s' := step AnimationFrame s in
  currentTime s' = duration s /\
  progress s' = 100 /\
  pauseTimeRef s' = 0 /\
  sourceNodeRef s' = None /\
  (forall src, sourceNodeRef s = Some src -> node_running src s' = false) /\
  isPlaying s' = false /\
  rafQueue s' = [] /\
  onEndedCalls s' = S (onEndedCalls s) /\
  (forall es, Forall (fun e => e <> ClickToggle) es ->
     onEndedCalls (run es s') = S (onEndedCalls s)) /\
  (forall t, onEndedCalls (exec togglePlay t) = onEndedCalls t /\
             onEndedCalls (exec handleRestart t) = onEndedCalls t /\
             forall cb, onEndedCalls (exec (togglePlay_rest cb) t)
                        = onEndedCalls t).
Proof.
  intros s'. pose proof (reachable_wf s Hreach) as W.
  pose proof (wf_mid s W) as Wm.
  destruct (playing_running s Wm Hplaying) as (Hr & Hs & Hpe).
  unfold single_loop in Hloop. rewrite Hplaying in Hloop.
  assert (Hq : rafQueue s <> []) by (rewrite Hloop; discriminate).
  assert (Hone : (1 < List.length (rafQueue s))%nat ->
                 duration s <= clockOf s - startTimeRef s + 0).
  { rewrite Hloop. cbn. lia. }
  destruct (frame_ends s W Hq Hend Hone)
    as (F1 & F2 & F3 & F4 & F5 & F6 & F7 & _ & _ & _ & _ & _ & F13 & _ & F15 & _).
  fold s' in F1, F2, F3, F4, F5, F6, F7, F13, F15.
  rewrite Hloop in F6. cbn [List.length] in F6.
  assert (Hcalls : onEndedCalls s' = S (onEndedCalls s)) by lia.
  split; [assumption|]. split; [assumption|]. split; [assumption|].
  split; [assumption|].
  split.
  { intros src Hsrc. rewrite node_running_started, F15.
    rewrite <- node_running_started. apply stopped_not_running, Hsrc. }
  split; [assumption|]. split; [assumption|]. split; [assumption|].
  split.
  { intros es Hes.
    assert (R : at_rest s').
    { split; [assumption|]. split; [assumption|].
      split; [congruence|assumption]. }
    destruct (rest_run es s' R Hes) as (_ & H & _). congruence. }
  intros t. split; [apply toggle_onEnded|].
  split; [apply restart_onEnded|].
  intros cb. apply (rest_keeps_queue cb t).
Qed.

Lemma single_loop_end_fires_once_witness :
  let s := run [ClockAdvance 1] demo_playing in
  onEndedCalls (step AnimationFrame s) = 1%nat /\
  onEndedCalls
    (run [ClockAdvance 1; AnimationFrame; ParentRender; ClickRestart]
       (step AnimationFrame s)) = 1%nat.
Proof.
  intros s.
  assert (Hreach : reachable s).
  { unfold s. cbn [run fold_left].
    apply reach_step; [apply demo_playing_reachable|cbn; lra]. }
  assert (Hp : isPlaying s = true) by reflexivity.
  assert (Hloop : single_loop s) by reflexivity.
  assert (Hend : duration s <= elapsed s) by (vm_compute; discriminate).
  destruct (single_loop_end_fires_once s Hreach Hp Hloop Hend)
    as (_ & _ & _ & _ & _ & _ & _ & H1 & H2 & _).
  split; [exact H1|]. apply H2.
  repeat constructor; discriminate.
Defined.





(** X22.  Claim C6 with one poll loop.  While a session with one poll loop
    plays, if the audio clock does not run backwards between two successive
    frames, the [currentTime] reported by the later poll is at least the one
    reported by the earlier poll. *)
Theorem single_loop_polls_never_go_back (s : Session) (dt : Q)
    (Hreach : reachable s)
    (Hplaying : isPlaying s = true)
    (Hloop : single_loop s)
    (Hdt : 0 <= dt) :
  let earlier := step AnimationFrame s in
  let later := step AnimationFrame (step (ClockAdvance dt) earlier) in
  currentTime earlier <= currentTime later.
Proof.
  intros earlier later.
  pose proof (reachable_wf s Hreach) as W.
  assert (W1 : wf earlier) by (apply wf_step; [exact I|assumption]).
  assert (L1 : single_loop earlier)
    by (apply single_loop_step; [assumption|exact I|reflexivity|assumption]).
  destruct (advance_fields dt earlier)
    as (A1 & A2 & A3 & _ & A5 & A6 & A7 & _ & _ & A10 & _ & _ & _ & _ & A15 & _ & A17).
  set (waited := step (ClockAdvance dt) earlier) in *.
  assert (W2 : wf waited) by (apply wf_step; assumption).
  assert (L2 : single_loop waited)
    by (apply single_loop_step; [assumption|exact Hdt|reflexivity|assumption]).
  assert (Hq : rafQueue s <> []) by (apply polling_nonempty; assumption).
  destruct (isPlaying earlier) eqn:P1.
  - destruct (wf_playing earlier (wf_mid _ W1) P1) as [R1 Hlt1].
    specialize (A17 (wf_ctx earlier (wf_mid _ W1) R1)).
    assert (Hcur : currentTime earlier == elapsed earlier).
    { destruct (Qlt_le_dec (elapsed s) (duration s)) as [Hlt|Hge].
      - destruct (frame_polls s W Hq Hlt) as (C & F2 & _).
        fold earlier in C, F2.
        destruct (core_fields _ _ C) as (_ & _ & _ & _ & _ & _ & _ & _ & _
          & _ & _ & _ & _ & _ & C15 & _).
        rewrite F2, C15. reflexivity.
      - assert (Hone : (1 < List.length (rafQueue s))%nat ->
                       duration s <= clockOf s - startTimeRef s + 0).
        { unfold single_loop in Hloop. rewrite Hloop, Hplaying. cbn. lia. }
        destruct (frame_ends s W Hq Hge Hone) as (F1 & _).
        fold earlier in F1. congruence. }
    assert (Hel : elapsed waited == elapsed earlier + dt).
    { unfold elapsed. rewrite A17, A6, A7. ring. }
    assert (P2 : isPlaying waited = true) by congruence.
    assert (Hq2 : rafQueue waited <> []) by (apply polling_nonempty; assumption).
    destruct (Qlt_le_dec (elapsed waited) (duration waited)) as [Hlt|Hge].
    + destruct (frame_polls waited W2 Hq2 Hlt) as (_ & F2 & _).
      fold later in F2. rewrite F2. lra.
    + assert (Hone : (1 < List.length (rafQueue waited))%nat ->
                     duration waited
                     <= clockOf waited - startTimeRef waited + 0).
      { unfold single_loop in L2. rewrite L2, P2. cbn. lia. }
      destruct (frame_ends waited W2 Hq2 Hge Hone) as (_ & F2 & _).
      fold later in F2. rewrite F2, A5. lra.
  - assert (Hq2 : rafQueue waited = []).
    { unfold single_loop in L2. rewrite L2, A1. reflexivity. }
    unfold later. rewrite (frame_empty waited Hq2), A3. lra.
Qed.

Lemma single_loop_polls_never_go_back_witness :
  let s := demo_playing in
  currentTime (step AnimationFrame s) <=
  currentTime (step AnimationFrame
                 (step (ClockAdvance (1 # 48000)) (step AnimationFrame s))).
Proof.
  intros s.
  assert (Hp : isPlaying s = true) by reflexivity.
  assert (Hloop : single_loop s) by reflexivity.
  assert (Hdt : 0 <= 1 # 48000) by (vm_compute; discriminate).
  exact (single_loop_polls_never_go_back s (1 # 48000)
           demo_playing_reachable Hp Hloop Hdt).
Defined.

(** ** Properties of the time readout *)

Example formatTime_125 : formatTime (251 # 2) = "2:05"%string.
Proof. reflexivity. Qed.

Example formatTime_negative : formatTime (- (1 # 2)) = "-1:-1"%string.
Proof. reflexivity. Qed.

Lemma Qfloor_unique (x : Q) (z : Z) :
  inject_Z z <= x -> x < inject_Z (z + 1) -> Qfloor x = z.
Proof.
  intros H1 H2.
  pose proof (Qfloor_le x) as F1. pose proof (Qlt_floor x) as F2.
  assert (A : (Qfloor x < z + 1)%Z) by (rewrite Zlt_Qlt; lra).
  assert (B : (z < Qfloor x + 1)%Z) by (rewrite Zlt_Qlt; lra).
  lia.
Qed.

Lemma Qfloor_minus_Z (x : Q) (z : Z) :
  Qfloor (x - inject_Z z) = (Qfloor x - z)%Z.
Proof.
  pose proof (Qfloor_le x) as F1. pose proof (Qlt_floor x) as F2.
  rewrite inject_Z_plus in F2.
  apply Qfloor_unique.
  - unfold Z.sub. rewrite inject_Z_plus, inject_Z_opp. lra.
  - replace (Qfloor x - z + 1)%Z with ((Qfloor x + 1) + - z)%Z by lia.
    rewrite !inject_Z_plus, inject_Z_opp. lra.
Qed.

Lemma whole_minutes (t : Q) :
  0 <= t -> Qfloor (t / 60) = (Qfloor t / 60)%Z.
Proof.
  intros Ht.
  pose proof (Qfloor_le t) as F1. pose proof (Qlt_floor t) as F2.
  rewrite inject_Z_plus in F2.
  set (w := Qfloor t) in *.
  pose proof (Z.div_mod w 60) as D. pose proof (Z.mod_pos_bound w 60) as M.
  assert (Hq : inject_Z w == inject_Z (60 * (w / 60) + w mod 60)).
  { rewrite <- D by lia. reflexivity. }
  rewrite inject_Z_plus, inject_Z_mult in Hq.
  assert (M1 : 0 <= inject_Z (w mod 60)).
  { change 0 with (inject_Z 0). rewrite <- Zle_Qle. lia. }
  assert (M2 : inject_Z (w mod 60) <= 59).
  { change 59 with (inject_Z 59). rewrite <- Zle_Qle. lia. }
  change (inject_Z 60) with 60 in Hq. change (inject_Z 1) with 1 in F2.
  apply Qfloor_unique.
  - apply Qle_shift_div_l; [reflexivity|]. lra.
  - apply Qlt_shift_div_r; [reflexivity|].
    rewrite inject_Z_plus. change (inject_Z 1) with 1. lra.
Qed.

Lemma whole_seconds (t : Q) :
  0 <= t -> Qfloor (js_rem t 60) = (Qfloor t mod 60)%Z.
Proof.
  intros Ht. unfold js_rem, Math_trunc.
  assert (H0 : Qle_bool 0 (t / 60) = true).
  { apply Qle_bool_iff. apply Qle_shift_div_l; [reflexivity|]. lra. }
  rewrite H0, (whole_minutes t Ht).
  change 60 with (inject_Z 60) at 1. rewrite <- inject_Z_mult.
  rewrite Qfloor_minus_Z.
  pose proof (Z.div_mod (Qfloor t) 60). lia.
Qed.

Lemma two_digits_nat (k : nat) :
  (k < 60)%nat ->
  padStart 2 "0" (toString (Z.of_nat k)) = two_digits (Z.of_nat k) /\
  digits_value (two_digits (Z.of_nat k)) = Z.of_nat k.
Proof.
  intros Hk.
  do 60 (destruct k as [|k]; [split; reflexivity|]). lia.
Qed.

Lemma two_digits_pad (n : Z) :
  (0 <= n < 60)%Z -> padStart 2 "0" (toString n) = two_digits n.
Proof.
  intros H. rewrite <- (Z2Nat.id n) by lia. apply two_digits_nat. lia.
Qed.

Lemma two_digits_value (n : Z) :
  (0 <= n < 60)%Z -> digits_value (two_digits n) = n.
Proof.
  intros H. rewrite <- (Z2Nat.id n) by lia. apply two_digits_nat. lia.
Qed.

Lemma formatTime_label (t : Q) :
  0 <= t -> formatTime t = clock_label (Qfloor t).
Proof.
  intros Ht. unfold formatTime, clock_label, Math_floor.
  rewrite (whole_minutes t Ht), (whole_seconds t Ht).
  rewrite two_digits_pad; [reflexivity|].
  apply Z.mod_pos_bound. lia.
Qed.

Lemma length_append (a b : string) :
  String.length (append a b) = (String.length a + String.length b)%nat.
Proof. induction a as [|c a IH]; cbn; [reflexivity|]. rewrite IH. reflexivity. Qed.

Lemma append_tail_inj (a a' x x' : string) :
  String.length x = String.length x' ->
  append a x = append a' x' -> a = a' /\ x = x'.
Proof.
  revert a'. induction a as [|c a IH]; intros [|c' a'] Hl H; cbn in H.
  - split; [reflexivity|assumption].
  - exfalso. apply (f_equal String.length) in H. cbn in H.
    rewrite length_append in H. lia.
  - exfalso. apply (f_equal String.length) in H. cbn in H.
    rewrite length_append in H. lia.
  - injection H as -> H. destruct (IH a' Hl H) as [-> ->]. split; reflexivity.
Qed.

Lemma toString_inj (a b : Z) : toString a = toString b -> a = b.
Proof.
  unfold toString. intros H. apply to_int_inj.
  assert (N : forall z, Z.to_int z <> Decimal.Pos Decimal.Nil /\
                        Z.to_int z <> Decimal.Neg Decimal.Nil).
  { intros [|p|p]; cbn; split; try discriminate;
      intros E; injection E as E; apply (Unsigned.to_uint_nonnil p E). }
  assert (S : forall z, NilZero.int_of_string
                          (NilZero.string_of_int (Z.to_int z))
                        = Some (Z.to_int z)).
  { intros z. apply NilZero.isi; apply N. }
  pose proof (S a) as Sa. rewrite H, (S b) in Sa. congruence.
Qed.

Lemma clock_label_inj (v w : Z) :
  (0 <= v)%Z -> (0 <= w)%Z -> clock_label v = clock_label w -> v = w.
Proof.
  intros Hv Hw H. unfold clock_label in H.
  apply append_tail_inj in H; [|reflexivity].
  destruct H as [Hm Hs]. apply toString_inj in Hm.
  cbn in Hs. injection Hs as Hs1 Hs2.
  assert (Hsec : two_digits (v mod 60) = two_digits (w mod 60)).
  { unfold two_digits. rewrite Hs1, Hs2. reflexivity. }
  apply (f_equal digits_value) in Hsec.
  rewrite !two_digits_value in Hsec by (apply Z.mod_pos_bound; lia).
  rewrite (Z.div_mod v 60), (Z.div_mod w 60) by lia. lia.
Qed.

(** X12.  For a time that is not negative the label is [M:SS]: the whole
    minutes in decimal, a colon, and the remaining whole seconds, below 60,
    as exactly two digits.  Only the whole seconds count: two times get the
    same label exactly when they have the same number of whole seconds. *)
Theorem formatTime_shows_whole_seconds (t u : Q)
    (Ht : 0 <= t)
    (Hu : 0 <= u) :
  formatTime t
  = append (toString (Qfloor t / 60))
      (append ":" (two_digits (Qfloor t mod 60))) /\
  (0 <= Qfloor t mod 60 < 60)%Z /\
  digits_value (two_digits (Qfloor t mod 60)) = (Qfloor t mod 60)%Z /\
  (formatTime t = formatTime u <-> Qfloor t = Qfloor u).
Proof.
  assert (Ft : (0 <= Qfloor t)%Z).
  { change 0%Z with (Qfloor 0). apply Qfloor_resp_le. assumption. }
  assert (Fu : (0 <= Qfloor u)%Z).
  { change 0%Z with (Qfloor 0). apply Qfloor_resp_le. assumption. }
  split; [apply (formatTime_label t Ht)|].
  split; [apply Z.mod_pos_bound; lia|].
  split; [apply two_digits_value, Z.mod_pos_bound; lia|].
  rewrite (formatTime_label t Ht), (formatTime_label u Hu). split.
  - apply clock_label_inj; assumption.
  - intros ->. reflexivity.
Qed.

Lemma formatTime_shows_whole_seconds_witness :
  formatTime (251 # 2) = "2:05"%string /\
  formatTime (251 # 2) = formatTime 125.
Proof.
  assert (Ht : 0 <= 251 # 2) by (vm_compute; discriminate).
  assert (Hu : 0 <= 125) by (vm_compute; discriminate).
  destruct (formatTime_shows_whole_seconds (251 # 2) 125 Ht Hu)
    as (H1 & _ & _ & H4).
  split; [rewrite H1; reflexivity|]. apply H4. reflexivity.
Defined.



(** ** Properties of the quiz *)

Lemma answer_in_keys (id : Z) (a : Quiz.Answers) :
  Quiz.answer id a <> None <-> In id (Quiz.keys a).
Proof.
  induction a as [|[k v] rest IH]; cbn.
  - split; [congruence | tauto].
  - destruct (Z.eqb_spec k id) as [->|Hne].
    + split; [auto | congruence].
    + rewrite IH. split; [auto | intros [H|H]; [contradiction | exact H]].
Qed.

Lemma answer_filter_other (id k : Z) (a : Quiz.Answers) :
  k <> id ->
  Quiz.answer k (filter (fun kv => negb (Z.eqb (fst kv) id)) a) =
  Quiz.answer k a.
Proof.
  intros Hne. induction a as [|[k' v] rest IH]; cbn; [reflexivity|].
  destruct (Z.eqb_spec k' id) as [->|Hk']; cbn.
  - destruct (Z.eqb_spec id k) as [E|_]; [congruence | exact IH].
  - rewrite IH. reflexivity.
Qed.

Lemma keys_filter (id : Z) (a : Quiz.Answers) :
  Quiz.keys (filter (fun kv => negb (Z.eqb (fst kv) id)) a) =
  filter (fun k => negb (Z.eqb k id)) (Quiz.keys a).
Proof.
  unfold Quiz.keys.
  induction a as [|[k v] rest IH]; cbn; [reflexivity|].
  destruct (Z.eqb k id); cbn; [exact IH | f_equal; exact IH].
Qed.

Lemma keys_spread_set (id : Z) (v : string) (a : Quiz.Answers) :
  NoDup (Quiz.keys a) -> NoDup (Quiz.keys (Quiz.spread_set id v a)).
Proof.
  intros Hnd. unfold Quiz.spread_set. cbn. rewrite keys_filter.
  constructor.
  - rewrite filter_In. intros [_ H]. rewrite Z.eqb_refl in H. discriminate.
  - apply NoDup_filter. exact Hnd.
Qed.

Lemma filter_absent (id : Z) (a : Quiz.Answers) :
  ~ In id (Quiz.keys a) ->
  filter (fun kv => negb (Z.eqb (fst kv) id)) a = a.
Proof.
  induction a as [|[k v] rest IH]; cbn; intros Hn; [reflexivity|].
  destruct (Z.eqb_spec k id) as [->|_]; cbn.
  - exfalso. apply Hn. left. reflexivity.
  - rewrite IH; [reflexivity | tauto].
Qed.

Lemma filter_present (id : Z) (a : Quiz.Answers) :
  NoDup (Quiz.keys a) -> In id (Quiz.keys a) ->
  S (List.length (filter (fun kv => negb (Z.eqb (fst kv) id)) a)) =
  List.length a.
Proof.
  induction a as [|[k v] rest IH]; cbn; intros Hnd Hin; [contradiction|].
  inversion Hnd as [|? ? Hk Hrest]; subst.
  destruct (Z.eqb_spec k id) as [->|Hne]; cbn.
  - rewrite filter_absent; [reflexivity | exact Hk].
  - f_equal. apply IH; [exact Hrest|]. destruct Hin; [contradiction | assumption].
Qed.

Lemma count_correct (a : Quiz.Answers) (qs : list Quiz.Question) (n : nat) :
  fold_left (fun correct q => if Quiz.isCorrect a q then S correct else correct)
    qs n
  = (n + List.length (filter (Quiz.isCorrect a) qs))%nat.
Proof.
  revert n. induction qs as [|q qs IH]; intros n; cbn.
  - lia.
  - rewrite IH. destruct (Quiz.isCorrect a q); cbn; lia.
Qed.

Lemma filter_all {A : Type} (f : A -> bool) (l : list A) :
  List.length (filter f l) = List.length l <->
  forall x, In x l -> f x = true.
Proof.
  induction l as [|x l IH]; cbn.
  - split; [intros _ ? [] | reflexivity].
  - pose proof (filter_length_le f l) as Hle.
    destruct (f x) eqn:Hx; cbn.
    + split.
      * intros H y [<-|Hy]; [exact Hx|]. apply IH; [lia | exact Hy].
      * intros H. f_equal. apply IH. intros y Hy. apply H. right. exact Hy.
    + split.
      * intros H. lia.
      * intros H. specialize (H x (or_introl eq_refl)). congruence.
Qed.

Lemma isCorrect_spec (a : Quiz.Answers) (q : Quiz.Question) :
  Quiz.isCorrect a q = true <->
  Quiz.answer (Quiz.q_id q) a = Some (Quiz.correctOptionId q).
Proof.
  unfold Quiz.isCorrect. destruct (Quiz.answer (Quiz.q_id q) a) as [v|].
  - rewrite String.eqb_eq. split; congruence.
  - split; discriminate.
Qed.

Lemma select_all_fields (clicks : list (Z * string)) (app : Quiz.App) :
  Quiz.appState (Quiz.select_all clicks app) = Quiz.appState app /\
  Quiz.content (Quiz.select_all clicks app) = Quiz.content app /\
  Quiz.score (Quiz.select_all clicks app) = Quiz.score app.
Proof.
  revert app. induction clicks as [|c clicks IH]; intros app; cbn.
  - auto.
  - destruct (IH (Quiz.handleOptionSelect (fst c) (snd c) app)) as (H1 & H2 & H3).
    unfold Quiz.select_all in *. rewrite H1, H2, H3. auto.
Qed.

Lemma select_all_keys (ids : list Z) (clicks : list (Z * string))
  (app : Quiz.App) :
  NoDup (Quiz.keys (Quiz.userAnswers app)) ->
  incl (Quiz.keys (Quiz.userAnswers app)) ids ->
  (forall c, In c clicks -> In (fst c) ids) ->
  NoDup (Quiz.keys (Quiz.userAnswers (Quiz.select_all clicks app))) /\
  incl (Quiz.keys (Quiz.userAnswers (Quiz.select_all clicks app))) ids.
Proof.
  revert app. induction clicks as [|c clicks IH]; intros app Hnd Hincl Hc; cbn.
  - auto.
  - apply IH.
    + cbn. apply (keys_spread_set (fst c) (snd c)). exact Hnd.
    + cbn. intros k [<-|Hk].
      * apply Hc. left. reflexivity.
      * rewrite keys_filter in Hk. apply filter_In in Hk. apply Hincl, Hk.
    + intros c' Hc'. apply Hc. right. exact Hc'.
Qed.

Lemma Math_round_whole (z : Z) : Quiz.Math_round (inject_Z z) = z.
Proof.
  unfold Quiz.Math_round. apply Qfloor_unique.
  - lra.
  - rewrite inject_Z_plus. change (inject_Z 1) with 1. lra.
Qed.

(** X14. Submitting the quiz: with content loaded, [calculateScore] moves
    to the review and stores as score the number of questions whose recorded
    answer is the correct option; the score never exceeds the number of
    questions, and equals it exactly when every question has its correct
    option recorded.  The answers and the content are left as they were.
    Without content the call changes nothing. *)
Theorem score_counts_correct_answers (app : Quiz.App) :
  (forall c, Quiz.content app = Some c ->
     Quiz.appState (Quiz.calculateScore app) = Quiz.REVIEW /\
     Quiz.score (Quiz.calculateScore app) =
       List.length (filter (Quiz.isCorrect (Quiz.userAnswers app))
                      (Quiz.questions c)) /\
     (Quiz.score (Quiz.calculateScore app) <= List.length (Quiz.questions c))%nat /\
     (Quiz.score (Quiz.calculateScore app) = List.length (Quiz.questions c) <->
      forall q, In q (Quiz.questions c) ->
        Quiz.answer (Quiz.q_id q) (Quiz.userAnswers app) =
        Some (Quiz.correctOptionId q)) /\
     Quiz.userAnswers (Quiz.calculateScore app) = Quiz.userAnswers app /\
     Quiz.content (Quiz.calculateScore app) = Quiz.content app) /\
  (Quiz.content app = None -> Quiz.calculateScore app = app).
Proof.
  split.
  - intros c Hc. unfold Quiz.calculateScore. rewrite Hc. cbn.
    rewrite count_correct. cbn.
    split; [reflexivity|]. split; [reflexivity|].
    split; [apply filter_length_le|].
    split; [|split; reflexivity].
    rewrite filter_all. split; intros H q Hq.
    + apply isCorrect_spec, H, Hq.
    + apply isCorrect_spec, H, Hq.
  - intros Hc. unfold Quiz.calculateScore. rewrite Hc. reflexivity.
Qed.

Lemma score_counts_correct_answers_witness :
  Quiz.score
    (Quiz.calculateScore
       (Quiz.select_all [(1%Z, "B"%string); (2%Z, "C"%string)] quiz_demo))
  = 1%nat.
Proof.
  destruct (score_counts_correct_answers
              (Quiz.select_all [(1%Z, "B"%string); (2%Z, "C"%string)]
                 quiz_demo)) as [H _].
  destruct (H _ eq_refl) as (_ & H2 & _).
  exact H2.
Defined.

(** X15. Choosing an option: after [handleOptionSelect id v] the answer
    recorded for question [id] is [v], whatever was recorded before; the
    answer of every other question is the one recorded before; the screen,
    the content and the score are untouched.  When no key occurs twice, none
    does afterwards, and the number of keys grows by one if the question was
    unanswered and stays the same if it was answered already. *)
Theorem selection_replaces_one_answer (app : Quiz.App) (id : Z) (v : string)
  (Hkeys : NoDup (Quiz.keys (Quiz.userAnswers app))) :
  let app' := Quiz.handleOptionSelect id v app in
  Quiz.answer id (Quiz.userAnswers app') = Some v /\
  (forall k, k <> id ->
     Quiz.answer k (Quiz.userAnswers app') =
     Quiz.answer k (Quiz.userAnswers app)) /\
  Quiz.appState app' = Quiz.appState app /\
  Quiz.content app' = Quiz.content app /\
  Quiz.score app' = Quiz.score app /\
  NoDup (Quiz.keys (Quiz.userAnswers app')) /\
  Quiz.keys_length (Quiz.userAnswers app') =
    match Quiz.answer id (Quiz.userAnswers app) with
    | Some _ => Quiz.keys_length (Quiz.userAnswers app)
    | None => S (Quiz.keys_length (Quiz.userAnswers app))
    end.
Proof.
  cbn. rewrite Z.eqb_refl.
  split; [reflexivity|].
  split.
  { intros k Hk. destruct (Z.eqb_spec id k) as [E|_]; [congruence|].
    apply answer_filter_other. exact Hk. }
  split; [reflexivity|]. split; [reflexivity|]. split; [reflexivity|].
  split.
  { apply (keys_spread_set id v). exact Hkeys. }
  unfold Quiz.keys_length. cbn.
  destruct (Quiz.answer id (Quiz.userAnswers app)) as [old|] eqn:Ha.
  - apply filter_present; [exact Hkeys|].
    apply answer_in_keys. congruence.
  - rewrite filter_absent; [reflexivity|].
    rewrite <- answer_in_keys. intros H. apply H. exact Ha.
Qed.

Lemma selection_replaces_one_answer_witness :
  let app := Quiz.handleOptionSelect 1 "A" quiz_demo in
  let app' := Quiz.handleOptionSelect 1 "B" app in
  Quiz.answer 1 (Quiz.userAnswers app') = Some "B"%string /\
  Quiz.keys_length (Quiz.userAnswers app') = 1%nat.
Proof.
  assert (Hk : NoDup (Quiz.keys (Quiz.userAnswers
                 (Quiz.handleOptionSelect 1 "A" quiz_demo)))).
  { cbn. constructor; [intros [] | constructor]. }
  destruct (selection_replaces_one_answer _ 1%Z "B"%string Hk)
    as (H1 & _ & _ & _ & _ & _ & H2).
  split; [exact H1 | exact H2].
Defined.

(** X16. The submit button: in a practice whose questions have distinct
    ids, starting from no answers and after any series of option clicks on
    those questions, the button is enabled exactly when every question has
    an answer recorded. *)
Theorem submit_needs_every_question_answered
  (app0 : Quiz.App) (c : Quiz.TOEFLContent) (clicks : list (Z * string))
  (Hcontent : Quiz.content app0 = Some c)
  (Hempty : Quiz.userAnswers app0 = [])
  (Hids : NoDup (map Quiz.q_id (Quiz.questions c)))
  (Hclicks : forall click, In click clicks ->
     exists q, In q (Quiz.questions c) /\ Quiz.q_id q = fst click) :
  let app := Quiz.select_all clicks app0 in
  Quiz.submitEnabled app = true <->
  forall q, In q (Quiz.questions c) ->
    Quiz.answer (Quiz.q_id q) (Quiz.userAnswers app) <> None.
Proof.
  cbn.
  destruct (select_all_fields clicks app0) as (_ & Hc & _).
  destruct (select_all_keys (map Quiz.q_id (Quiz.questions c)) clicks app0)
    as [Hnd Hincl].
  { rewrite Hempty. constructor. }
  { rewrite Hempty. intros k []. }
  { intros click Hin. destruct (Hclicks click Hin) as (q & Hq & <-).
    apply in_map. exact Hq. }
  unfold Quiz.submitEnabled. rewrite Hc, Hcontent.
  rewrite Nat.eqb_eq. unfold Quiz.keys_length.
  set (a := Quiz.userAnswers (Quiz.select_all clicks app0)) in *.
  assert (Hlen : List.length a = List.length (Quiz.keys a))
    by (unfold Quiz.keys; rewrite length_map; reflexivity).
  assert (Hqlen : List.length (Quiz.questions c) =
                  List.length (map Quiz.q_id (Quiz.questions c)))
    by (rewrite length_map; reflexivity).
  split.
  - intros Heq q Hq. apply answer_in_keys.
    assert (Hrev : incl (map Quiz.q_id (Quiz.questions c)) (Quiz.keys a))
      by (apply (NoDup_length_incl Hnd); [lia | exact Hincl]).
    apply Hrev. apply in_map. exact Hq.
  - intros Hall.
    assert (Hrev : incl (map Quiz.q_id (Quiz.questions c)) (Quiz.keys a)).
    { intros k Hk. apply in_map_iff in Hk. destruct Hk as (q & <- & Hq).
      apply answer_in_keys. apply Hall. exact Hq. }
    pose proof (NoDup_incl_length Hnd Hincl).
    pose proof (NoDup_incl_length Hids Hrev).
    lia.
Qed.

Lemma submit_needs_every_question_answered_witness :
  Quiz.submitEnabled
    (Quiz.select_all [(1%Z, "A"%string); (2%Z, "C"%string); (1%Z, "B"%string)]
       quiz_demo) = true <->
  forall q, In q (quiz_content quiz_demo) ->
    Quiz.answer (Quiz.q_id q)
      (Quiz.userAnswers
         (Quiz.select_all
            [(1%Z, "A"%string); (2%Z, "C"%string); (1%Z, "B"%string)]
            quiz_demo)) <> None.
Proof.
  refine (submit_needs_every_question_answered quiz_demo _ _
            eq_refl eq_refl _ _).
  - cbn. constructor; [intros [H|[]]; discriminate|].
    constructor; [intros [] | constructor].
  - intros click [<-|[<-|[<-|[]]]]; cbn; eauto.
Defined.

(** X17. Questions that share an id: when two questions of the content
    carry the same id, no series of option clicks on the questions, from no
    answers, ever enables the submit button. *)
Theorem shared_question_id_blocks_submit
  (app0 : Quiz.App) (c : Quiz.TOEFLContent) (clicks : list (Z * string))
  (Hcontent : Quiz.content app0 = Some c)
  (Hempty : Quiz.userAnswers app0 = [])
  (Hids : ~ NoDup (map Quiz.q_id (Quiz.questions c)))
  (Hclicks : forall click, In click clicks ->
     exists q, In q (Quiz.questions c) /\ Quiz.q_id q = fst click) :
  Quiz.submitEnabled (Quiz.select_all clicks app0) = false.
Proof.
  destruct (select_all_fields clicks app0) as (_ & Hc & _).
  destruct (select_all_keys (map Quiz.q_id (Quiz.questions c)) clicks app0)
    as [Hnd Hincl].
  { rewrite Hempty. constructor. }
  { rewrite Hempty. intros k []. }
  { intros click Hin. destruct (Hclicks click Hin) as (q & Hq & <-).
    apply in_map. exact Hq. }
  unfold Quiz.submitEnabled. rewrite Hc, Hcontent.
  apply Nat.eqb_neq. unfold Quiz.keys_length. intros Heq.
  apply Hids.
  apply (NoDup_incl_NoDup Hnd); [|exact Hincl].
  rewrite length_map. unfold Quiz.keys. rewrite length_map. lia.
Qed.

Lemma shared_question_id_blocks_submit_witness :
  Quiz.submitEnabled
    (Quiz.select_all [(1%Z, "B"%string); (1%Z, "A"%string)] quiz_shared_id)
  = false.
Proof.
  refine (shared_question_id_blocks_submit quiz_shared_id _ _
            eq_refl eq_refl _ _).
  - cbn. intros H. inversion H as [|? ? Hn _]. apply Hn. left. reflexivity.
  - intros click [<-|[<-|[]]]; cbn; eauto.
Defined.

(** X18. The percentage of the review: with at least one question and a
    score of at most the number of questions, the percentage is a whole
    number between 0 and 100, it grows with the score, it is 100 for a full
    score and 0 for a score of zero. *)
Theorem percentage_is_between_0_and_100 (points total : nat)
  (Htotal : (0 < total)%nat) (Hpoints : (points <= total)%nat) :
  exists p,
    Quiz.percentage points total = Some p /\
    (0 <= p <= 100)%Z /\
    (points = total -> p = 100%Z) /\
    (points = 0%nat -> p = 0%Z) /\
    (forall fewer q, (fewer <= points)%nat ->
       Quiz.percentage fewer total = Some q -> (q <= p)%Z).
Proof.
  assert (Hpos : 0 < inject_Z (Z.of_nat total)).
  { change 0 with (inject_Z 0). rewrite <- Zlt_Qlt. lia. }
  assert (Hfrac : forall k, (k <= total)%nat ->
            0 <= inject_Z (Z.of_nat k) / inject_Z (Z.of_nat total) * 100 <= 100).
  { intros k Hk.
    assert (H0 : 0 <= inject_Z (Z.of_nat k))
      by (change 0 with (inject_Z 0); rewrite <- Zle_Qle; lia).
    assert (H1 : inject_Z (Z.of_nat k) <= inject_Z (Z.of_nat total))
      by (rewrite <- Zle_Qle; lia).
    split.
    - apply Qmult_le_0_compat; [|lra].
      apply Qle_shift_div_l; [exact Hpos | lra].
    - assert (inject_Z (Z.of_nat k) / inject_Z (Z.of_nat total) <= 1).
      { apply Qle_shift_div_r; [exact Hpos | lra]. }
      lra. }
  destruct total as [|t]; [lia|].
  eexists. split; [reflexivity|].
  set (n := S t) in *.
  split.
  { destruct (Hfrac points Hpoints) as [Hlo Hhi]. unfold Quiz.Math_round. split.
    - change 0%Z with (Qfloor 0). apply Qfloor_resp_le. lra.
    - assert (Hlt : inject_Z (Qfloor
                (inject_Z (Z.of_nat points) / inject_Z (Z.of_nat n) * 100
                 + (1 # 2))) < inject_Z 101).
      { eapply Qle_lt_trans; [apply Qfloor_le|].
        change (inject_Z 101) with 101. lra. }
      rewrite <- Zlt_Qlt in Hlt. lia. }
  split.
  { intros ->.
    assert (E : inject_Z (Z.of_nat n) / inject_Z (Z.of_nat n) * 100
                == inject_Z 100).
    { change (inject_Z 100) with 100. field. lra. }
    unfold Quiz.Math_round. rewrite E. apply Math_round_whole. }
  split.
  { intros ->.
    assert (E : inject_Z (Z.of_nat 0) / inject_Z (Z.of_nat n) * 100
                == inject_Z 0).
    { change (inject_Z (Z.of_nat 0)) with 0. change (inject_Z 0) with 0.
      field. lra. }
    unfold Quiz.Math_round. rewrite E. apply Math_round_whole. }
  intros fewer q Hfewer Hq. unfold n in Hq. cbn [Quiz.percentage] in Hq.
  injection Hq as <-. unfold Quiz.Math_round. apply Qfloor_resp_le.
  assert (H1 : inject_Z (Z.of_nat fewer) <= inject_Z (Z.of_nat points))
    by (rewrite <- Zle_Qle; lia).
  assert (inject_Z (Z.of_nat fewer) / inject_Z (Z.of_nat (S t))
          <= inject_Z (Z.of_nat points) / inject_Z (Z.of_nat (S t))).
  { unfold Qdiv. apply Qmult_le_compat_r; [exact H1|].
    apply Qinv_le_0_compat. apply Qlt_le_weak. exact Hpos. }
  unfold n. apply Qplus_le_compat; [|apply Qle_refl].
  apply Qmult_le_compat_r; [assumption | discriminate].
Qed.

Lemma percentage_is_between_0_and_100_witness :
  exists p,
    Quiz.percentage 2 3 = Some p /\
    (0 <= p <= 100)%Z /\
    (2%nat = 3%nat -> p = 100%Z) /\
    (2%nat = 0%nat -> p = 0%Z) /\
    (forall fewer q, (fewer <= 2)%nat ->
       Quiz.percentage fewer 3 = Some q -> (q <= p)%Z).
Proof.
  apply (percentage_is_between_0_and_100 2 3); lia.
Defined.

(** X19. A practice without questions: when the content has no question
    and nothing is answered, the submit button is enabled at once,
    submitting gives a score of 0 and shows the review, and the percentage
    of the review is not a number. *)
Theorem quiz_without_questions_has_no_percentage
  (app : Quiz.App) (c : Quiz.TOEFLContent)
  (Hcontent : Quiz.content app = Some c)
  (Hnone : Quiz.questions c = [])
  (Hempty : Quiz.userAnswers app = []) :
  Quiz.submitEnabled app = true /\
  Quiz.appState (Quiz.calculateScore app) = Quiz.REVIEW /\
  Quiz.score (Quiz.calculateScore app) = 0%nat /\
  Quiz.percentage (Quiz.score (Quiz.calculateScore app))
    (List.length (Quiz.questions c)) = None.
Proof.
  unfold Quiz.submitEnabled, Quiz.calculateScore.
  rewrite Hcontent, Hnone, Hempty. cbn. auto.
Qed.

Lemma quiz_without_questions_has_no_percentage_witness :
  Quiz.submitEnabled
    (Quiz.mkApp Quiz.QUIZ (Some (Quiz.mkContent "T" "..." [] "0:10")) [] 0)
  = true.
Proof.
  destruct (quiz_without_questions_has_no_percentage
              (Quiz.mkApp Quiz.QUIZ
                 (Some (Quiz.mkContent "T" "..." [] "0:10")) [] 0)
              (Quiz.mkContent "T" "..." [] "0:10") eq_refl eq_refl eq_refl)
    as [H _].
  exact H.
Defined.
